(** * auto-subtitle: the subtitle codec, the SRT serializer and the
      cache-aware pipeline of [auto_subtitle/utils.py] and
      [auto_subtitle/cli.py], embedded in Rocq.

    Conventions of the embedding.
    - A Python [str] is a [list ascii]; a character stands for the code
      point of the same number, so the model covers strings over the code
      points 0..255.
    - A Python [float] is an IEEE 754 binary64 value, [spec_float] with
      precision 53 and exponent bound 1024 (round to nearest, ties to even).
    - A Python [int] is a [Z].
    - An exception is a value of [exn]; a computation that may raise returns
      a [result].  Code that touches the file system or prints runs in the
      state monad [M] over a [world].
    - [os.path] is the POSIX flavour ([posixpath]). *)

From Stdlib Require Import ZArith Lia List Ascii String SpecFloat Bool.
From stdpp Require Import base gmap strings list.

Local Open Scope Z_scope.

(** ** Python values *)

Abbreviation str := (list ascii).

(** A string literal of the source. *)
Definition py (x : string) : str := list_ascii_of_string x.

Inductive exn : Type :=
| AssertionError
| TypeError
| ValueError
| OverflowError
| FileNotFoundError
| TranslationError
| TranscriptionError
| FFmpegError.

Inductive result (A : Type) : Type :=
| Ok (a : A)
| Raise (e : exn).
Arguments Ok {A} a.
Arguments Raise {A} e.

#[global] Instance result_ret : MRet result := fun A a => Ok a.
#[global] Instance result_bind : MBind result := fun A B f r =>
  match r with
  | Ok a => f a
  | Raise e => Raise e
  end.

Definition is_ok {A} (r : result A) : bool :=
  match r with Ok _ => true | Raise _ => false end.

(** Truth value of a [str] and of a [str]-or-[None] value. *)
Definition truthy (s : str) : bool :=
  match s with [] => false | _ :: _ => true end.

Definition truthy_opt (o : option str) : bool :=
  match o with Some s => truthy s | None => false end.

(** [a or b] on [str]-or-[None] values. *)
Definition py_or (a b : option str) : option str :=
  if truthy_opt a then a else b.

Module Py.

(** *** [str] methods *)

Definition ascii_eqb (a b : ascii) : bool := Ascii.eqb a b.

(** [str.isspace] on one character, for the code points below 256. *)
Definition isspace (c : ascii) : bool :=
  let n := nat_of_ascii c in
  ((9 <=? n) && (n <=? 13) || (28 <=? n) && (n <=? 32)
   || (n =? 133) || (n =? 160))%nat.

(** Dropping the leading, the trailing, or both runs of the characters
    that satisfy [p]. *)
Fixpoint lstrip_with (p : ascii -> bool) (s : str) : str :=
  match s with
  | c :: r => if p c then lstrip_with p r else s
  | [] => []
  end.

Definition rstrip_with (p : ascii -> bool) (s : str) : str :=
  rev (lstrip_with p (rev s)).

Definition strip_with (p : ascii -> bool) (s : str) : str :=
  rstrip_with p (lstrip_with p s).

(** [s.strip()] *)
Definition strip (s : str) : str := strip_with isspace s.

(** [s.rstrip(x)] for a one-character [x]. *)
Definition rstrip_char (x : ascii) (s : str) : str :=
  rstrip_with (fun c => ascii_eqb c x) s.

(** [s.startswith(p)] *)
Fixpoint startswith (p s : str) : bool :=
  match p, s with
  | [], _ => true
  | a :: p', b :: s' => ascii_eqb a b && startswith p' s'
  | _ :: _, [] => false
  end.

(** [s.endswith(p)] *)
Definition endswith (p s : str) : bool := startswith (rev p) (rev s).

(** [sub in s] *)
Fixpoint contains (sub s : str) : bool :=
  startswith sub s ||
  match s with
  | [] => false
  | _ :: r => contains sub r
  end.

(** [s.split(sep)] for a non-empty [sep]: the occurrences of [sep] are taken
    from the left and do not overlap.  [skip] counts the characters of a
    matched separator that are still to be passed over. *)
Fixpoint split_aux (sep : str) (skip : nat) (s : str) : list str :=
  match s with
  | [] => [[]]
  | c :: r =>
    match skip with
    | S k => split_aux sep k r
    | O =>
      if startswith sep s then [] :: split_aux sep (length sep - 1) r
      else match split_aux sep 0 r with
           | piece :: pieces => (c :: piece) :: pieces
           | [] => [[c]]
           end
    end
  end.

Definition split (sep s : str) : list str := split_aux sep 0 s.

(** [s.replace(old, new)] for a non-empty [old]. *)
Fixpoint replace_aux (old new : str) (skip : nat) (s : str) : str :=
  match s with
  | [] => []
  | c :: r =>
    match skip with
    | S k => replace_aux old new k r
    | O =>
      if startswith old s then new ++ replace_aux old new (length old - 1) r
      else c :: replace_aux old new 0 r
    end
  end.

Definition replace (old new s : str) : str := replace_aux old new 0 s.

(** [sep.join(l)] *)
Fixpoint join (sep : str) (l : list str) : str :=
  match l with
  | [] => []
  | [x] => x
  | x :: rest => x ++ sep ++ join sep rest
  end.

(** [s.lower()] on one character, for the code points below 256: the
    letters A-Z, and the capital letters of the range 192..222, in which
    215 is the multiplication sign. *)
Definition lower_char (c : ascii) : ascii :=
  let n := nat_of_ascii c in
  if ((65 <=? n) && (n <=? 90)
      || (192 <=? n) && (n <=? 222) && negb (n =? 215))%nat
  then ascii_of_nat (n + 32) else c.

(** [s.lower()] *)
Definition lower (s : str) : str := map lower_char s.

(** *** [int] to and from [str] *)

(** The interpreter's cap on the number of digits in a conversion between
    [int] and [str], [sys.get_int_max_str_digits()], at its default.  The
    texts [int] is given come from a file and may exceed it.  The integers
    the program formats are entry numbers and the fields of a millisecond
    count of a double, which is below [2^1024]: the cap is out of their
    reach and left out of [str_of_int] and [format_d]. *)
Definition int_max_str_digits : Z := 4300.

Definition digit_char (d : Z) : ascii := ascii_of_nat (48 + Z.to_nat d).

Fixpoint digits_aux (fuel : nat) (n : Z) (acc : str) : str :=
  match fuel with
  | O => acc
  | S f =>
    let acc' := digit_char (n mod 10) :: acc in
    if n <? 10 then acc' else digits_aux f (n / 10) acc'
  end.

(** The decimal digits of [n >= 0], most significant first. *)
Definition digits_of (n : Z) : str :=
  digits_aux (S (Z.to_nat (Z.log2 n))) n [].

(** [str(z)] *)
Definition str_of_int (z : Z) : str :=
  (if z <? 0 then py "-" else []) ++ digits_of (Z.abs z).

(** [f"{z:0{width}d}"]: sign, then zeros up to [width], then the digits. *)
Definition format_d (width : nat) (z : Z) : str :=
  let sign := if z <? 0 then py "-" else [] in
  let digits := digits_of (Z.abs z) in
  sign ++ repeat "0"%char (width - length sign - length digits) ++ digits.

Definition is_digit (c : ascii) : bool :=
  let n := nat_of_ascii c in ((48 <=? n) && (n <=? 57))%nat.

Definition digit_val (c : ascii) : Z := Z.of_nat (nat_of_ascii c) - 48.

(** The digits of a decimal literal after its first digit: single
    underscores may separate digits. *)
Fixpoint digits_acc (acc : Z) (s : str) : option Z :=
  match s with
  | [] => Some acc
  | c :: r =>
    if is_digit c then digits_acc (acc * 10 + digit_val c) r
    else if ascii_eqb c "_" then
      match r with
      | d :: r' =>
        if is_digit d then digits_acc (acc * 10 + digit_val d) r' else None
      | [] => None
      end
    else None
  end.

Definition parse_digits (s : str) : option Z :=
  match s with
  | c :: r => if is_digit c then digits_acc (digit_val c) r else None
  | [] => None
  end.

(** The whitespace [int] accepts around a literal: the C [isspace] set
    and the whitespace above the ASCII range; unlike [str.strip], not the
    separators 28..31. *)
Definition int_space (c : ascii) : bool :=
  let n := nat_of_ascii c in
  ((9 <=? n) && (n <=? 13) || (n =? 32) || (n =? 133) || (n =? 160))%nat.

(** [int(s)] in base 10: surrounding whitespace, an optional sign, digits.
    A literal with more digits than the cap is refused with [ValueError],
    like one that is not a literal; underscores do not count as digits,
    leading zeros do. *)
Definition int (s : str) : result Z :=
  let s := strip_with int_space s in
  let '(neg, body) :=
    match s with
    | c :: r =>
      if ascii_eqb c "-" then (true, r)
      else if ascii_eqb c "+" then (false, r)
      else (false, s)
    | [] => (false, s)
    end in
  match parse_digits body with
  | Some n =>
    if int_max_str_digits <? Z.of_nat (length (List.filter is_digit body))
    then Raise ValueError
    else Ok (if neg then - n else n)
  | None => Raise ValueError
  end.

(** *** [float] *)

Definition fmul : spec_float -> spec_float -> spec_float := SFmul 53 1024.
Definition fdiv : spec_float -> spec_float -> spec_float := SFdiv 53 1024.
Definition fadd : spec_float -> spec_float -> spec_float := SFadd 53 1024.

(** [float(z)]: the nearest double, [OverflowError] beyond the range. *)
Definition float_of_int (z : Z) : result spec_float :=
  match binary_normalize 53 1024 z 0 false with
  | S754_infinity _ => Raise OverflowError
  | f => Ok f
  end.

(** The literal [1000.0]. *)
Definition f1000 : spec_float := S754_finite false 8796093022208000 (-43).

(** [x >= 0] for a float [x]. *)
Definition ge_zero (x : spec_float) : bool := SFleb (S754_zero false) x.

(** [m * 2^e] rounded to the nearest integer, ties to the even one. *)
Definition round_half_even (m e : Z) : Z :=
  match e with
  | Zneg p =>
    let d := 2 ^ Zpos p in
    let q := m / d in
    let r := m mod d in
    match Z.compare (2 * r) d with
    | Lt => q
    | Gt => q + 1
    | Eq => if Z.even q then q else q + 1
    end
  | _ => m * 2 ^ e
  end.

(** [round(x)] for a float [x]. *)
Definition round (x : spec_float) : result Z :=
  match x with
  | S754_zero _ => Ok 0
  | S754_nan => Raise ValueError
  | S754_infinity _ => Raise OverflowError
  | S754_finite s m e => Ok (cond_Zopp s (round_half_even (Zpos m) e))
  end.

(** [z / y] for an int [z] and a float [y]. *)
Definition int_truediv (z : Z) (y : spec_float) : result spec_float :=
  x ← float_of_int z; Ok (fdiv x y).

(** [z + y] for an int [z] and a float [y]. *)
Definition int_add (z : Z) (y : spec_float) : result spec_float :=
  x ← float_of_int z; Ok (fadd x y).

End Py.

(** ** utils.py: the command-line booleans *)

(** utils.py:8 *)
Definition str2val : gmap str bool :=
  <[py "false" := false]> (<[py "true" := true]> ∅).

Definition str2bool (string : str) : result bool :=
  let string := Py.lower string in
  match str2val !! string with
  | Some b => Ok b
  | None => Raise ValueError
  end.

(** ** utils.py: the timestamp codec *)

(** The integer part of [format_timestamp], from the millisecond count on. *)
Definition format_ms (milliseconds : Z) (always_include_hours : bool) : str :=
  let hours := milliseconds / 3600000 in
  let milliseconds := milliseconds - hours * 3600000 in
  let minutes := milliseconds / 60000 in
  let milliseconds := milliseconds - minutes * 60000 in
  let seconds := milliseconds / 1000 in
  let milliseconds := milliseconds - seconds * 1000 in
  let hours_marker :=
    if always_include_hours || (0 <? hours)
    then Py.format_d 2 hours ++ py ":" else [] in
  hours_marker ++ Py.format_d 2 minutes ++ py ":" ++ Py.format_d 2 seconds
    ++ py "," ++ Py.format_d 3 milliseconds.

Definition format_timestamp (seconds : spec_float)
    (always_include_hours : bool) : result str :=
  if negb (Py.ge_zero seconds) then Raise AssertionError else
  milliseconds ← Py.round (Py.fmul seconds Py.f1000);
  Ok (format_ms milliseconds always_include_hours).

(** The value [parse_timestamp] returns from its four integer fields. *)
Definition seconds_of_fields (hours minutes seconds ms : Z)
    : result spec_float :=
  q ← Py.int_truediv ms Py.f1000;
  Py.int_add (hours * 3600 + minutes * 60 + seconds) q.

Definition parse_timestamp (ts : str) : result spec_float :=
  match Py.split (py ",") ts with
  | [hms; ms] =>
    match Py.split (py ":") hms with
    | [hours; minutes; seconds] =>
      h ← Py.int hours;
      m ← Py.int minutes;
      s ← Py.int seconds;
      msv ← Py.int ms;
      seconds_of_fields h m s msv
    | _ => Raise ValueError
    end
  | _ => Raise ValueError
  end.

(** The double nearest to [k / 1000]: what the expression [k / 1000]
    evaluates to for an int [k] below [2^53]. *)
Definition seconds_of_ms (k : Z) : spec_float :=
  Py.fdiv (binary_normalize 53 1024 k 0 false) Py.f1000.

(** ** The world: files, clock and console *)

Definition nl : ascii := "010"%char.
Definition cr : ascii := "013"%char.

Record segment : Type := Segment {
  seg_start : spec_float;
  seg_end : spec_float;
  seg_text : str
}.

Record file : Type := File { mtime : Z; data : str }.

(** One constructor per [print] or [warnings.warn] call of the source, with
    the values its f-string interpolates. *)
Inductive message : Type :=
| MsgCachedOriginal (stem srt : str)       (* cli.py:57 *)
| MsgCachedTranslated (stem srt : str)     (* cli.py:66 *)
| WarnEnglishOnly (model_name : str)       (* cli.py:92 *)
| MsgNoSubtitle (stem : str)               (* cli.py:119 *)
| MsgAdding (stem : str)                   (* cli.py:124 *)
| MsgSavedVideo (out_path : str)           (* cli.py:133, made absolute there *)
| MsgExtracting (stem : str)               (* cli.py:142 *)
| MsgGenerating (stem : str)               (* cli.py:163 *)
| MsgSavedOriginal (srt : str)             (* cli.py:174 *)
| MsgTranslating (lang : str)              (* cli.py:179 *)
| MsgSavedTranslated (srt : str)           (* cli.py:187 *)
| MsgTranslatedExisting (lang dst : str).  (* utils.py:98 *)

(** [clock] is the modification time a file gets when it is written; time
    does not advance inside the model.  [console] holds what was printed or
    warned, oldest first.  Directories are not modelled: opening a file for
    writing always succeeds. *)
Record world : Type := World {
  files : gmap str file;
  clock : Z;
  console : list message
}.

Definition M (A : Type) : Type := world -> world * result A.

#[global] Instance M_ret : MRet M := fun A a w => (w, Ok a).
#[global] Instance M_bind : MBind M := fun A B f m w =>
  match m w with
  | (w', Ok a) => f a w'
  | (w', Raise e) => (w', Raise e)
  end.

Definition lift {A} (r : result A) : M A := fun w => (w, r).

Definition print (m : message) : M unit := fun w =>
  (World (files w) (clock w) (console w ++ [m]), Ok tt).

(** [os.path.exists(p)] *)
Definition path_exists (p : str) : M bool := fun w =>
  (w, Ok (bool_decide (is_Some (files w !! p)))).

(** [os.path.getmtime(p)] *)
Definition getmtime (p : str) : M Z := fun w =>
  (w, match files w !! p with
      | Some f => Ok (mtime f)
      | None => Raise FileNotFoundError
      end).

(** [open(p, "r")] followed by reading the text. *)
Definition open_r (p : str) : M str := fun w =>
  (w, match files w !! p with
      | Some f => Ok (data f)
      | None => Raise FileNotFoundError
      end).

(** [open(p, "w")]: the file is created or truncated. *)
Definition open_w (p : str) : M unit := fun w =>
  (World (<[p := File (clock w) []]> (files w)) (clock w) (console w), Ok tt).

(** A flushed write on a file opened for writing. *)
Definition fwrite (p : str) (s : str) : M unit := fun w =>
  let old := match files w !! p with Some f => data f | None => [] end in
  (World (<[p := File (clock w) (old ++ s)]> (files w)) (clock w) (console w),
   Ok tt).

(** Text-mode reading translates the line ends [\r\n] and [\r] to [\n]. *)
Fixpoint universal_newlines (s : str) : str :=
  match s with
  | [] => []
  | c :: r =>
    if Py.ascii_eqb c cr then
      match r with
      | d :: r' =>
        if Py.ascii_eqb d nl then nl :: universal_newlines r'
        else nl :: universal_newlines r
      | [] => [nl]
      end
    else c :: universal_newlines r
  end.

(** The lines a [for line in f] loop sees, each with its [\n] when it has
    one. *)
Fixpoint iter_lines (s : str) : list str :=
  match s with
  | [] => []
  | c :: r =>
    if Py.ascii_eqb c nl then [c] :: iter_lines r
    else match iter_lines r with
         | [] => [[c]]
         | l :: ls => (c :: l) :: ls
         end
  end.

Definition file_lines (content : str) : list str :=
  iter_lines (universal_newlines content).

(** ** utils.py: the serializer *)

(** The text one iteration of [write_srt] prints, [end="\n"] included. *)
Definition srt_entry (i : Z) (seg : segment) : result str :=
  s ← format_timestamp (seg_start seg) true;
  e ← format_timestamp (seg_end seg) true;
  Ok (Py.str_of_int i ++ [nl]
      ++ s ++ py " --> " ++ e ++ [nl]
      ++ Py.replace (py "-->") (py "->") (Py.strip (seg_text seg)) ++ [nl]
      ++ [nl]).

Fixpoint write_srt_from (i : Z) (transcript : list segment) (file : str)
    : M unit :=
  match transcript with
  | [] => mret tt
  | seg :: rest =>
    entry ← lift (srt_entry i seg);
    _ ← fwrite file entry;
    write_srt_from (i + 1) rest file
  end.

Definition write_srt (transcript : list segment) (file : str) : M unit :=
  write_srt_from 1 transcript file.

(** utils.py:67-77, the grouping of the lines into blocks. *)
Fixpoint group_blocks (lines : list str) (segments : list (list str))
    (block : list str) : list (list str) :=
  match lines with
  | [] =>
    match block with
    | [] => segments
    | _ :: _ => segments ++ [block]
    end
  | line :: rest =>
    let line := Py.rstrip_char nl line in
    match Py.strip line with
    | [] =>
      match block with
      | [] => group_blocks rest segments block
      | _ :: _ => group_blocks rest (segments ++ [block]) []
      end
    | _ :: _ => group_blocks rest segments (block ++ [line])
    end
  end.

(** The blocks the reader keeps: at least two lines, and an arrow on the
    second one. *)
Definition kept (blk : list str) : bool :=
  (2 <=? length blk)%nat && Py.contains (py "-->") (nth 1 blk []).

Section Translation.

(** [GoogleTranslator(source='auto', target=lang).translate(text)] *)
Variable translator : str -> str -> result str.

Definition translate_text (text target_language : str) : result str :=
  if negb (truthy text) || negb (truthy (Py.strip text)) then Ok text
  else translator target_language text.

(** utils.py:79-93 *)
Fixpoint parse_blocks (target_lang : str) (segments : list (list str))
    (parsed_segments : list segment) : result (list segment) :=
  match segments with
  | [] => Ok parsed_segments
  | blk :: rest =>
    if (length blk <? 2)%nat then
      parse_blocks target_lang rest parsed_segments
    else
      let time_line := nth 1 blk [] in
      if negb (Py.contains (py "-->") time_line) then
        parse_blocks target_lang rest parsed_segments
      else
        match map Py.strip (Py.split (py "-->") time_line) with
        | [start_str; end_str] =>
          let text_lines :=
            if (2 <? length blk)%nat then drop 2 blk else [[]] in
          let text := Py.strip (Py.join (py " ") text_lines) in
          start ← parse_timestamp start_str;
          end_ ← parse_timestamp end_str;
          translated ← translate_text text target_lang;
          parse_blocks target_lang rest
            (parsed_segments ++ [Segment start end_ translated])
        | _ => Raise ValueError
        end
  end.

Definition translate_srt_file (src_path dst_path target_lang : str)
    : M str :=
  content ← open_r src_path;
  let segments := group_blocks (file_lines content) [] [] in
  parsed_segments ← lift (parse_blocks target_lang segments []);
  _ ← open_w dst_path;
  _ ← write_srt parsed_segments dst_path;
  _ ← print (MsgTranslatedExisting target_lang dst_path);
  mret dst_path.

(** What the reader makes of one kept block. *)
Definition parse_block (target_lang : str) (blk : list str)
    : result segment :=
  match map Py.strip (Py.split (py "-->") (nth 1 blk [])) with
  | [start_str; end_str] =>
    let text := Py.strip (Py.join (py " ") (drop 2 blk)) in
    start ← parse_timestamp start_str;
    end_ ← parse_timestamp end_str;
    translated ← translate_text text target_lang;
    Ok (Segment start end_ translated)
  | _ => Raise ValueError
  end.

End Translation.

(** Reading a subtitle file: the reading half of [translate_srt_file],
    with a translation collaborator that hands every text back. *)
Definition read_srt (content : str) : result (list segment) :=
  parse_blocks (fun _ text => Ok text) []
    (group_blocks (file_lines content) [] []) [].

(** The text [write_srt] leaves in an empty file. *)
Fixpoint srt_text_from (i : Z) (transcript : list segment) : result str :=
  match transcript with
  | [] => Ok []
  | seg :: rest =>
    entry ← srt_entry i seg;
    more ← srt_text_from (i + 1) rest;
    Ok (entry ++ more)
  end.

(** ** os.path, POSIX flavour *)

Module posixpath.

(** [s.rfind(c)] for a one-character [c]: the last index, or [-1]. *)
Fixpoint rfind_from (c : ascii) (s : str) (i last : Z) : Z :=
  match s with
  | [] => last
  | x :: r => rfind_from c r (i + 1) (if Py.ascii_eqb x c then i else last)
  end.

Definition rfind (c : ascii) (s : str) : Z := rfind_from c s 0 (-1).

(** [p[i:j]] for [0 <= i]. *)
Definition slice (p : str) (i j : Z) : str :=
  take (Z.to_nat (j - i)) (drop (Z.to_nat i) p).

Definition basename (p : str) : str :=
  let i := rfind "/" p + 1 in
  drop (Z.to_nat i) p.

(** [genericpath._splitext]: the extension starts at the last dot of the
    last component, unless only dots precede it there. *)
Definition splitext (p : str) : str * str :=
  let sepIndex := rfind "/" p in
  let dotIndex := rfind "." p in
  if (sepIndex <? dotIndex)
     && existsb (fun c => negb (Py.ascii_eqb c "."))
                (slice p (sepIndex + 1) dotIndex)
  then (take (Z.to_nat dotIndex) p, drop (Z.to_nat dotIndex) p)
  else (p, []).

(** [os.path.join(a, b)] *)
Definition join (a b : str) : str :=
  if Py.startswith (py "/") b then b
  else if negb (truthy a) || Py.endswith (py "/") a then a ++ b
  else a ++ py "/" ++ b.

End posixpath.

(** utils.py:46 *)
Definition filename (path : str) : str :=
  fst (posixpath.splitext (posixpath.basename path)).

(** ** cli.py *)

(** The parsed command line (cli.py:34-41). *)
Record args : Type := Args {
  model_name : str;
  output_dir : str;
  output_srt : bool;
  srt_only : bool;
  language : str;
  translate_to : option str;
  videos : list str
}.

(** The bindings of [main] that the loops update. *)
Record state : Type := State {
  subtitles_original : gmap str str;
  subtitles_translated : gmap str str;
  embed_map : gmap str (option str);
  videos_to_transcribe : list str;
  translate_existing : list (str * str * option str)
}.

Definition set_subtitles_original (st : state) (k v : str) : state :=
  State (<[k := v]> (subtitles_original st)) (subtitles_translated st)
    (embed_map st) (videos_to_transcribe st) (translate_existing st).

Definition set_subtitles_translated (st : state) (k v : str) : state :=
  State (subtitles_original st) (<[k := v]> (subtitles_translated st))
    (embed_map st) (videos_to_transcribe st) (translate_existing st).

Definition set_embed_map (st : state) (k : str) (v : option str) : state :=
  State (subtitles_original st) (subtitles_translated st)
    (<[k := v]> (embed_map st)) (videos_to_transcribe st)
    (translate_existing st).

Definition append_transcribe (st : state) (path : str) : state :=
  State (subtitles_original st) (subtitles_translated st) (embed_map st)
    (videos_to_transcribe st ++ [path]) (translate_existing st).

Definition append_translate_existing (st : state)
    (entry : str * str * option str) : state :=
  State (subtitles_original st) (subtitles_translated st) (embed_map st)
    (videos_to_transcribe st) (translate_existing st ++ [entry]).

(** cli.py:45-49 *)
Definition initial_state : state := State ∅ ∅ ∅ [] [].

(** [if translate_to:] binds the target language when the test holds. *)
Definition target (a : args) : option str :=
  match translate_to a with
  | Some lang => if truthy lang then Some lang else None
  | None => None
  end.

(** [d.get(k)] for a dict whose values may be [None]. *)
Definition dict_get (d : gmap str (option str)) (k : str) : option str :=
  match d !! k with
  | Some v => v
  | None => None
  end.

(** A dict in insertion order, as [for ... in d.items()] walks it. *)
Fixpoint odict_set (d : list (str * str)) (k v : str) : list (str * str) :=
  match d with
  | [] => [(k, v)]
  | (k', v') :: rest =>
    if bool_decide (k' = k) then (k, v) :: rest
    else (k', v') :: odict_set rest k v
  end.

(** [for x in xs: st = body(st, x)] *)
Fixpoint for_each {A S} (body : S -> A -> M S) (st : S) (xs : list A) : M S :=
  match xs with
  | [] => mret st
  | x :: rest => st' ← body st x; for_each body st' rest
  end.

(** [[f(x) for x in xs]] for an [f] that may raise. *)
Fixpoint map_result {A B} (f : A -> result B) (xs : list A)
    : result (list B) :=
  match xs with
  | [] => Ok []
  | x :: rest => y ← f x; ys ← map_result f rest; Ok (y :: ys)
  end.

(** [os.path.exists(srt) and os.path.getmtime(srt) >= os.path.getmtime(path)] *)
Definition artifact_valid (srt path : str) : M bool :=
  present ← path_exists srt;
  if present : bool then
    artifact_time ← getmtime srt;
    video_time ← getmtime path;
    mret (video_time <=? artifact_time)
  else mret false.

Definition original_srt (srt_base_dir path : str) : str :=
  posixpath.join srt_base_dir (filename path ++ py ".srt").

Definition translated_srt (srt_base_dir path lang : str) : str :=
  posixpath.join srt_base_dir (filename path ++ py "_" ++ lang ++ py ".srt").

Section Pipeline.

(** [tempfile.gettempdir()] *)
Variable tempdir : str.

(** The external collaborators. *)
(** [os.makedirs(output_dir, exist_ok=True)]: the directories of the file
    system are not part of the world, what the call does to them and
    whether it returns is the collaborator's. *)
Variable makedirs : str -> result unit.
Variable translator : str -> str -> result str.
(** [whisper.load_model(model_name)] *)
Variable load_model : str -> result unit.
(** [model.transcribe(audio_path, **args)["segments"]], given the model
    name and the [language] entry of [args], if any. *)
Variable transcribe : str -> option str -> str -> result (list segment).
(** The ffmpeg run that extracts the audio of a video to a wav file. *)
Variable extract_audio : str -> str -> result unit.
(** The ffmpeg run that burns a subtitle file into a video. *)
Variable mux : str -> str -> str -> result unit.

Definition srt_base_dir (a : args) : str :=
  if output_srt a || srt_only a then output_dir a else tempdir.

(** cli.py:52-79, one iteration. *)
Definition classify_video (a : args) (st : state) (path : str) : M state :=
  let srt_original := original_srt (srt_base_dir a) path in
  original_valid ← artifact_valid srt_original path;
  st ← (if original_valid : bool then
          _ ← print (MsgCachedOriginal (filename path) srt_original);
          mret (set_subtitles_original st path srt_original)
        else mret st);
  '(translated_valid, srt_translated, st) ←
    match target a with
    | Some lang =>
      let srt_translated := translated_srt (srt_base_dir a) path lang in
      translated_valid ← artifact_valid srt_translated path;
      st ← (if translated_valid : bool then
              _ ← print (MsgCachedTranslated (filename path) srt_translated);
              mret (set_subtitles_translated st path srt_translated)
            else mret st);
      mret (translated_valid, Some srt_translated, st)
    | None => mret (false, None, st)
    end;
  match target a with
  | Some _ =>
    if translated_valid : bool then
      mret (set_embed_map st path srt_translated)
    else if original_valid : bool then
      mret (append_translate_existing st
              (path, srt_original, srt_translated))
    else mret (append_transcribe st path)
  | None =>
    if original_valid : bool then
      mret (set_embed_map st path (Some srt_original))
    else mret (append_transcribe st path)
  end.

(** cli.py:82-88, one iteration.  An entry is only ever appended under a
    truthy [translate_to], with its destination path set. *)
Definition translate_one (a : args) (st : state)
    (entry : str * str * option str) : M state :=
  let '(path, src_srt, dst_srt) := entry in
  match dst_srt, translate_to a with
  | Some dst, Some lang =>
    translated_path ← translate_srt_file translator src_srt dst lang;
    if truthy translated_path then
      mret (set_embed_map (set_subtitles_translated st path translated_path)
              path (Some translated_path))
    else mret (append_transcribe st path)
  | _, _ => lift (Raise TypeError)
  end.

(** cli.py:136-152 *)
Definition get_audio (paths : list str) : M (list (str * str)) :=
  for_each (fun audio_paths path =>
    _ ← print (MsgExtracting (filename path));
    let output_path := posixpath.join tempdir (filename path ++ py ".wav") in
    _ ← lift (extract_audio path output_path);
    mret (odict_set audio_paths path output_path)) [] paths.

(** cli.py:159-187, one iteration of the loop of [get_subtitles]. *)
Definition get_subtitles_step (output_srt : bool) (output_dir : str)
    (transcribe : str -> result (list segment))
    (translate_to : option str)
    (maps : gmap str str * gmap str str) (item : str * str)
    : M (gmap str str * gmap str str) :=
  let '(subtitles_original, subtitles_translated) := maps in
  let '(path, audio_path) := item in
  let srt_base_dir := if output_srt then output_dir else tempdir in
  let srt_original :=
    posixpath.join srt_base_dir (filename path ++ py ".srt") in
  _ ← print (MsgGenerating (filename path));
  segments ← lift (transcribe audio_path);
  _ ← open_w srt_original;
  _ ← write_srt segments srt_original;
  let subtitles_original := <[path := srt_original]> subtitles_original in
  _ ← print (MsgSavedOriginal srt_original);
  match translate_to with
  | Some lang =>
    if truthy lang then
      _ ← print (MsgTranslating lang);
      translated_segments ← lift (map_result (fun seg =>
        text ← translate_text translator (seg_text seg) lang;
        Ok (Segment (seg_start seg) (seg_end seg) text)) segments);
      let srt_translated :=
        posixpath.join srt_base_dir
          (filename path ++ py "_" ++ lang ++ py ".srt") in
      _ ← open_w srt_translated;
      _ ← write_srt translated_segments srt_translated;
      _ ← print (MsgSavedTranslated srt_translated);
      mret (subtitles_original,
            <[path := srt_translated]> subtitles_translated)
    else mret (subtitles_original, subtitles_translated)
  | None => mret (subtitles_original, subtitles_translated)
  end.

(** cli.py:155-189 *)
Definition get_subtitles (audio_paths : list (str * str))
    (output_srt : bool) (output_dir : str)
    (transcribe : str -> result (list segment))
    (translate_to : option str)
    : M (gmap str str * gmap str str) :=
  for_each (get_subtitles_step output_srt output_dir transcribe translate_to)
    (∅, ∅) audio_paths.

(** cli.py:90-111 *)
Definition transcribe_stage (a : args) (st : state) : M state :=
  language_arg ←
    (if Py.endswith (py ".en") (model_name a) then
       _ ← print (WarnEnglishOnly (model_name a));
       mret (Some (py "en"))
     else if negb (bool_decide (language a = py "auto")) then
       mret (Some (language a))
     else mret None);
  _ ← lift (load_model (model_name a));
  audios ← get_audio (videos_to_transcribe st);
  '(new_original, new_translated) ←
    get_subtitles audios (output_srt a || srt_only a) (output_dir a)
      (transcribe (model_name a) language_arg) (translate_to a);
  let st := State (new_original ∪ subtitles_original st)
              (new_translated ∪ subtitles_translated st)
              (embed_map st) (videos_to_transcribe st)
              (translate_existing st) in
  for_each (fun st path =>
    match target a, new_translated !! path with
    | Some _, Some srt => mret (set_embed_map st path (Some srt))
    | _, _ => mret (set_embed_map st path (new_original !! path))
    end) st (videos_to_transcribe st).

(** cli.py:117 *)
Definition srt_to_embed (st : state) (path : str) : option str :=
  py_or (py_or (dict_get (embed_map st) path)
               (subtitles_translated st !! path))
        (subtitles_original st !! path).

(** cli.py:116-133 *)
Fixpoint embed_loop (a : args) (st : state) (paths : list str) : M unit :=
  match paths with
  | [] => mret tt
  | path :: rest =>
    let srt := srt_to_embed st path in
    if negb (truthy_opt srt) then
      _ ← print (MsgNoSubtitle (filename path));
      embed_loop a st rest
    else
      let out_path :=
        posixpath.join (output_dir a) (filename path ++ py ".mp4") in
      _ ← print (MsgAdding (filename path));
      _ ← lift (mux path (default [] srt) out_path);
      _ ← print (MsgSavedVideo out_path);
      embed_loop a st rest
  end.

(** cli.py:45-111: everything up to the embedding stage. *)
Definition assemble (a : args) : M state :=
  st ← for_each (classify_video a) initial_state (videos a);
  st ← for_each (translate_one a) st (translate_existing st);
  match videos_to_transcribe st with
  | [] => mret st
  | _ :: _ => transcribe_stage a st
  end.

(** cli.py:43-133: [main] from the parsed command line on. *)
Definition main (a : args) : M unit :=
  _ ← lift (makedirs (output_dir a));
  st ← assemble a;
  if srt_only a then mret tt
  else embed_loop a st (videos a).

End Pipeline.

(** ** The resolver of the specification *)

Inductive classification : Type :=
| ReuseOriginal
| ReuseTranslated
| TranslateExisting
| TranscribeFresh.

#[global] Instance classification_eq_dec : EqDecision classification.
Proof. solve_decision. Defined.

(** Modelled from the spec: the validity invariant of section 3, an artifact
    is fresh iff it exists and its modification time is at least that of the
    source video. *)
Definition fresh (fs : gmap str file) (artifact video : str) : bool :=
  match fs !! artifact, fs !! video with
  | Some fa, Some fv => mtime fv <=? mtime fa
  | _, _ => false
  end.

(** Modelled from the spec: the classification rule of section 4.4, in its
    precedence order. *)
Definition classify (target_requested original_fresh translated_fresh : bool)
    : classification :=
  if negb target_requested then
    if original_fresh then ReuseOriginal else TranscribeFresh
  else if translated_fresh then ReuseTranslated
  else if original_fresh then TranslateExisting
  else TranscribeFresh.

Section Resolver.

Variable tempdir : str.
Variable a : args.
Variable fs : gmap str file.

Definition original_fresh (path : str) : bool :=
  fresh fs (original_srt (srt_base_dir tempdir a) path) path.

Definition translated_fresh (path : str) : bool :=
  match target a with
  | Some lang =>
    fresh fs (translated_srt (srt_base_dir tempdir a) path lang) path
  | None => false
  end.

Definition classification_of (path : str) : classification :=
  classify (bool_decide (is_Some (target a)))
    (original_fresh path) (translated_fresh path).

(** The artifact a reused video is mapped to. *)
Definition reused_srt (path : str) : str :=
  match target a with
  | Some lang => translated_srt (srt_base_dir tempdir a) path lang
  | None => original_srt (srt_base_dir tempdir a) path
  end.

(** The entry of the translate-existing list for a video. *)
Definition translate_entry (path : str) : str * str * option str :=
  (path, original_srt (srt_base_dir tempdir a) path,
   match target a with
   | Some lang => Some (translated_srt (srt_base_dir tempdir a) path lang)
   | None => None
   end).

(** The "Using cached ..." bookkeeping of one iteration. *)
Definition record_cached (st : state) (path : str) : state :=
  let st :=
    if original_fresh path
    then set_subtitles_original st path
           (original_srt (srt_base_dir tempdir a) path)
    else st in
  match target a with
  | Some lang =>
    if translated_fresh path
    then set_subtitles_translated st path
           (translated_srt (srt_base_dir tempdir a) path lang)
    else st
  | None => st
  end.

(** What one iteration of the classification loop does to the bindings
    of [main], read off the classification of the specification. *)
Definition classify_pure (st : state) (path : str) : state :=
  let st := record_cached st path in
  match classification_of path with
  | ReuseOriginal | ReuseTranslated =>
    set_embed_map st path (Some (reused_srt path))
  | TranslateExisting =>
    append_translate_existing st (translate_entry path)
  | TranscribeFresh => append_transcribe st path
  end.

(** The classifications that reuse an artifact as it is. *)
Definition reusable (path : str) : bool :=
  match classification_of path with
  | ReuseOriginal | ReuseTranslated => true
  | _ => false
  end.

(** Every binding of the three maps and every queued translation names
    the artifact the resolver computes for its video; the embed map holds
    the translated artifact when a target was requested and the original
    one otherwise, and only artifacts recorded in the matching map. *)
Definition canonical (st : state) : Prop :=
  let base := srt_base_dir tempdir a in
  (forall p v, subtitles_original st !! p = Some v -> v = original_srt base p)
  /\ (forall p v, subtitles_translated st !! p = Some v ->
        exists lang, target a = Some lang /\ v = translated_srt base p lang)
  /\ (forall p v, embed_map st !! p = Some v ->
        match target a with
        | Some lang =>
          v = Some (translated_srt base p lang)
          /\ subtitles_translated st !! p = Some (translated_srt base p lang)
        | None =>
          v = Some (original_srt base p)
          /\ subtitles_original st !! p = Some (original_srt base p)
        end)
  /\ (forall p s d, (p, s, d) ∈ translate_existing st ->
        exists lang, target a = Some lang
          /\ d = Some (translated_srt base p lang)).

(** A video is accounted for: mapped, or queued for transcription, or
    among the videos still [pending] in the current loop. *)
Definition covered (pending : list str) (st : state) (p : str) : Prop :=
  is_Some (embed_map st !! p) \/ p ∈ videos_to_transcribe st \/ p ∈ pending.

End Resolver.

#[global] Instance message_eq_dec : EqDecision message.
Proof. solve_decision. Defined.

(** The embedding loop got to a video: it announced the muxing of it. *)
Definition processed (w : world) (video : str) : Prop :=
  MsgAdding (filename video) ∈ console w.

(** The world after some more messages were printed. *)
Definition log (w : world) (msgs : list message) : world :=
  World (files w) (clock w) (console w ++ msgs).

(** ** What the statements below speak about *)

(** The collaborator that hands every text back. *)
Definition echo : str -> str -> result str := fun _ text => Ok text.

Definition dec_step (acc : Z) (c : ascii) : Z := acc * 10 + Py.digit_val c.

(** The number a string of digits denotes. *)
Definition dec_value (s : str) : Z := fold_left dec_step s 0.

(** The four fields of the millisecond count [k]. *)
Definition field_hours (k : Z) : Z := k / 3600000.
Definition field_minutes (k : Z) : Z := (k mod 3600000) / 60000.
Definition field_seconds (k : Z) : Z := (k mod 60000) / 1000.
Definition field_ms (k : Z) : Z := k mod 1000.

(** Encoding with the hour field, then decoding. *)
Definition roundtrip (seconds : spec_float) : result spec_float :=
  ts ← format_timestamp seconds true; parse_timestamp ts.

(** The round-trip law as the specification words it: the decoded value
    compares equal to the encoded one. *)
Definition roundtrip_exact (seconds : spec_float) : Prop :=
  exists x, roundtrip seconds = Ok x /\ SFeqb x seconds = true.

(** The double the decoder computes for the millisecond count [k]: the whole
    seconds plus the quotient of the remaining milliseconds by [1000.0]. *)
Definition seconds_of_ms_count (k : Z) : result spec_float :=
  q ← Py.int_truediv (k mod 1000) Py.f1000; Py.int_add (k / 1000) q.

(** A time the codec handles without any range error: not negative, with a
    millisecond count below [1000 * 2^53]. *)
Definition time_in_range (t : spec_float) : Prop :=
  exists k, Py.ge_zero t = true
    /\ Py.round (Py.fmul t Py.f1000) = Ok k /\ k < 1000 * 2 ^ 53.

(** The characters of a literal [int] accepts. *)
Definition int_char (c : ascii) : bool :=
  Py.int_space c || Py.is_digit c || Py.ascii_eqb c "_"
  || Py.ascii_eqb c "+" || Py.ascii_eqb c "-".

(** The texts [parse_timestamp] accepts: four integer literals, laid out as
    [H:M:S,ms]. *)
Definition timestamp_shape (ts : str) (h m s ms : Z) : Prop :=
  exists hs mins ss mss,
    ts = hs ++ py ":" ++ mins ++ py ":" ++ ss ++ py "," ++ mss
    /\ Py.int hs = Ok h /\ Py.int mins = Ok m
    /\ Py.int ss = Ok s /\ Py.int mss = Ok ms.

(** The characters of an encoded timestamp. *)
Definition ts_char (c : ascii) : bool :=
  Py.is_digit c || Py.ascii_eqb c ":" || Py.ascii_eqb c ",".

(** The texts the round trip of the serializer is stated for: something is
    left after trimming, and there is no arrow and no line break inside. *)
Definition text_ok (t : str) : Prop :=
  Py.strip t <> [] /\ Py.contains (py "-->") t = false
  /\ (nl ∉ t) /\ (cr ∉ t).

(** A segment as the reader gets it back: both times through the codec,
    the text trimmed. *)
Definition reread (seg : segment) : result segment :=
  s ← roundtrip (seg_start seg);
  e ← roundtrip (seg_end seg);
  Ok (Segment s e (Py.strip (seg_text seg))).

(** The segments the specification calls valid: times at millisecond
    granularity with [0 <= start <= end], a text that is not blank and holds
    no arrow. *)
Definition valid_segment (seg : segment) : Prop :=
  (exists ks ke, 0 <= ks <= ke
     /\ seg_start seg = seconds_of_ms ks /\ seg_end seg = seconds_of_ms ke)
  /\ Py.strip (seg_text seg) <> []
  /\ Py.contains (py "-->") (seg_text seg) = false.

Definition same_segment (seg seg' : segment) : Prop :=
  SFeqb (seg_start seg') (seg_start seg) = true
  /\ SFeqb (seg_end seg') (seg_end seg) = true
  /\ seg_text seg' = Py.strip (seg_text seg).

(** The round trip of the serializer as the specification words it. *)
Definition serializer_roundtrip (segs : list segment) : Prop :=
  exists out segs',
    srt_text_from 1 segs = Ok out /\ read_srt out = Ok segs'
    /\ Forall2 same_segment segs segs'.

Definition segs_line_break : list segment :=
  [Segment (seconds_of_ms 1500) (seconds_of_ms 2250)
     (py "one" ++ [nl] ++ py "two")].

Definition segs_1118 : list segment :=
  [Segment (seconds_of_ms 1118) (seconds_of_ms 2000) (py "hello")].

Definition segs_plain : list segment :=
  [Segment (seconds_of_ms 1500) (seconds_of_ms 2250) (py " hello ");
   Segment (seconds_of_ms 3000) (seconds_of_ms 4125) (py "a -> b")].

(** ** Example runs *)

(** A run with a target language, a stale original and a fresh translated
    artifact. *)
Definition args_es : args :=
  Args (py "small") (py "out") true false (py "auto") (Some (py "es"))
    [py "a.mp4"].

Definition world_stale_original : world :=
  World (<[py "a.mp4" := File 5 []]>
         (<[py "out/a.srt" := File 3 []]>
          (<[py "out/a_es.srt" := File 6 []]> ∅))) 9 [].

(** Two videos with fresh original subtitles, no target language; the
    muxing collaborator fails on the first video only. *)
Definition args_two : args :=
  Args (py "small") (py "out") true false (py "auto") None
    [py "a.mp4"; py "b.mp4"].

Definition world_two : world :=
  World (<[py "a.mp4" := File 5 []]>
         (<[py "b.mp4" := File 5 []]>
          (<[py "out/a.srt" := File 6 []]>
           (<[py "out/b.srt" := File 6 []]> ∅)))) 9 [].

Definition translator_ok : str -> str -> result str :=
  fun lang text => Ok (lang ++ py ":" ++ text).
Definition translator_down : str -> str -> result str :=
  fun _ _ => Raise TranslationError.
(** [os.makedirs] where every directory can be made: only the empty path
    is refused. *)
Definition makedirs_ok : str -> result unit :=
  fun path => if truthy path then Ok tt else Raise FileNotFoundError.
Definition load_model_ok : str -> result unit := fun _ => Ok tt.
Definition transcribe_two : str -> option str -> str -> result (list segment) :=
  fun _ _ _ => Ok segs_plain.
Definition extract_audio_ok : str -> str -> result unit := fun _ _ => Ok tt.
Definition mux_ok : str -> str -> str -> result unit := fun _ _ _ => Ok tt.
Definition mux_fails_on_a : str -> str -> str -> result unit :=
  fun video _ _ =>
    if bool_decide (video = py "a.mp4") then Raise FFmpegError else Ok tt.

(** A fresh original subtitle file, no translated one, and a target
    language: the video is classified TranslateExisting. *)
Definition world_fresh_original : world :=
  World (<[py "a.mp4" := File 5 []]>
         (<[py "out/a.srt" :=
              File 6 (py "1" ++ [nl] ++ py "00:00:01,500 --> 00:00:02,250"
                      ++ [nl] ++ py "hello" ++ [nl] ++ [nl])]> ∅)) 9 [].

(** The world of the specification's first end-to-end scenario: one video
    and no artifact yet. *)
Definition world_scenario : world := World (<[py "a.mp4" := File 5 []]> ∅) 9 [].

(** ** What the further properties speak about *)

Definition case_variant (s t : str) : Prop :=
  Forall2 (fun c d => c = d \/ nat_of_ascii d = (nat_of_ascii c + 32)%nat) s t.

(** A last component [stem ++ ext] cut the way [os.path.splitext] cuts it:
    the extension starts at the last dot, unless nothing but dots comes
    before that dot, in which case there is no extension. *)
Definition extension_of (stem ext : str) : Prop :=
  (ext = []
   /\ exists dots rest,
        stem = dots ++ rest
        /\ Forall (fun c => c = "."%char) dots /\ "."%char ∉ rest)
  \/ ((exists e, ext = "."%char :: e /\ "."%char ∉ e)
      /\ exists c, c ∈ stem /\ c <> "."%char).

(** What [n] one-bit shifts to the right make of the mantissa [M]: the
    quotient by [2^n], and two bits that place the remainder with respect
    to the half of [2^n]. *)
Definition shifted (M n : Z) (mrs : shr_record) : Prop :=
  shr_m mrs = M / 2 ^ n
  /\ (if shr_r mrs then 2 ^ n <= 2 * (M mod 2 ^ n)
      else 2 * (M mod 2 ^ n) < 2 ^ n)
  /\ (shr_s mrs = false ->
      if shr_r mrs then 2 * (M mod 2 ^ n) = 2 ^ n else M mod 2 ^ n = 0).

(** A positive finite double with a full mantissa. *)
Definition normal (x : spec_float) (m : positive) (e : Z) : Prop :=
  x = S754_finite false m e /\ 2 ^ 52 <= Zpos m < 2 ^ 53.

(** A time with a millisecond count below [1000 * 2^41], some 69 000 years:
    in this range the decoder returns a double that is encoded as the text
    it was decoded from. *)
Definition time_stable (t : spec_float) : Prop :=
  exists k, Py.ge_zero t = true
    /\ Py.round (Py.fmul t Py.f1000) = Ok k /\ k < 1000 * 2 ^ 41.

(** A line as the grouping loop looks at it (utils.py:69), and the test for
    a separating line (utils.py:70). *)
Definition chomp (line : str) : str := Py.rstrip_char nl line.

Definition blank (line : str) : bool := negb (truthy (Py.strip (chomp line))).

(** The same text with Windows line ends. *)
Definition crlf (content : str) : str := Py.replace [nl] [cr; nl] content.

(** What [write_srt] gets into the file before it stops: every entry, or
    the entries before the first segment it cannot encode. *)
Fixpoint written_prefix (i : Z) (transcript : list segment)
    : str * result unit :=
  match transcript with
  | [] => ([], Ok tt)
  | seg :: rest =>
    match srt_entry i seg with
    | Ok entry =>
      let '(more, r) := written_prefix (i + 1) rest in (entry ++ more, r)
    | Raise e => ([], Raise e)
    end
  end.


(** A segment with its text translated (cli.py:181). *)
Definition translate_segment (translator : str -> str -> result str)
    (lang : str) (seg : segment) : result segment :=
  text ← translate_text translator (seg_text seg) lang;
  Ok (Segment (seg_start seg) (seg_end seg) text).

(** [w'] comes after [w] in a run that writes at the paths [W] only: the
    clock is the same, the console has grown, and every file is as it was
    or, at a path of [W], was written at the time of the clock. *)
Definition touches (W : str -> Prop) (w w' : world) : Prop :=
  clock w' = clock w
  /\ (exists msgs, console w' = console w ++ msgs)
  /\ forall p, files w' !! p = files w !! p
               \/ (W p /\ exists d, files w' !! p = Some (File (clock w) d)).

(** The file at [p] was written at the time of the clock. *)
Definition stamped (w : world) (p : str) : Prop :=
  exists d, files w !! p = Some (File (clock w) d).

(** The paths of the subtitle artifacts of the videos of a run. *)
Definition artifact (tempdir : str) (a : args) (p : str) : Prop :=
  exists v, v ∈ videos a
    /\ (p = original_srt (srt_base_dir tempdir a) v
        \/ exists lang, target a = Some lang
             /\ p = translated_srt (srt_base_dir tempdir a) v lang).


(** What the classification loop prints for a video (cli.py:57, 66): the
    report of a fresh original artifact, then, with a target language, the
    report of a fresh translated one. *)
Definition cache_reports (tempdir : str) (a : args) (fs : gmap str file)
    (path : str) : list message :=
  let base := srt_base_dir tempdir a in
  (if fresh fs (original_srt base path) path
   then [MsgCachedOriginal (filename path) (original_srt base path)]
   else [])
  ++ match target a with
     | Some lang =>
       if fresh fs (translated_srt base path lang) path
       then [MsgCachedTranslated (filename path)
               (translated_srt base path lang)]
       else []
     | None => []
     end.

(** The console of [w'] is the console of [w] followed by messages that
    all satisfy [Q]. *)
Definition says (Q : message -> Prop) (w w' : world) : Prop :=
  exists msgs, console w' = console w ++ msgs /\ Forall Q msgs.

(** A message other than the report of a video without subtitles
    (cli.py:119). *)
Definition not_missing_subtitle (m : message) : Prop :=
  forall stem, m <> MsgNoSubtitle stem.

(** * Proofs *)

(** ** Characters and strings *)

Lemma ascii_eqb_eq (x y : ascii) : Py.ascii_eqb x y = true <-> x = y.
Proof. apply Ascii.eqb_eq. Qed.

Lemma ascii_eqb_refl (x : ascii) : Py.ascii_eqb x x = true.
Proof. apply Ascii.eqb_refl. Qed.

Lemma ascii_eqb_neq (x y : ascii) : Py.ascii_eqb x y = false <-> x <> y.
Proof. apply Ascii.eqb_neq. Qed.

Lemma truthy_app_r (x y : str) : truthy y = true -> truthy (x ++ y) = true.
Proof. destruct x, y; simpl; congruence. Qed.

Lemma truthy_app_l (x y : str) : truthy x = true -> truthy (x ++ y) = true.
Proof. destruct x; simpl; congruence. Qed.

(** ** Paths *)

Lemma rfind_from_app c x y i last :
  posixpath.rfind_from c (x ++ y) i last
  = posixpath.rfind_from c y (i + Z.of_nat (length x))
      (posixpath.rfind_from c x i last).
Proof.
  revert i last. induction x as [|h x IH]; intros i last; simpl.
  - f_equal. lia.
  - rewrite IH. f_equal. lia.
Qed.

Lemma rfind_from_absent c s i last :
  c ∉ s -> posixpath.rfind_from c s i last = last.
Proof.
  revert i last. induction s as [|h s IH]; intros i last Hc; simpl; [done|].
  apply not_elem_of_cons in Hc as [Hne Hc].
  rewrite IH by done.
  destruct (Py.ascii_eqb h c) eqn:E; [|done].
  apply ascii_eqb_eq in E. congruence.
Qed.

Lemma rfind_absent c s : c ∉ s -> posixpath.rfind c s = -1.
Proof. apply rfind_from_absent. Qed.

Lemma rfind_last c x y :
  c ∉ y -> posixpath.rfind c (x ++ c :: y) = Z.of_nat (length x).
Proof.
  intros Hc. unfold posixpath.rfind. rewrite rfind_from_app. simpl.
  rewrite ascii_eqb_refl. by rewrite rfind_from_absent.
Qed.

Lemma basename_dir (d name : str) :
  "/"%char ∉ name -> posixpath.basename (d ++ py "/" ++ name) = name.
Proof.
  intros H. unfold posixpath.basename. simpl.
  rewrite rfind_last by done.
  replace (Z.to_nat (Z.of_nat (length d) + 1)) with (length d + 1)%nat by lia.
  rewrite <- drop_drop, drop_app_length. done.
Qed.

Lemma basename_plain (name : str) :
  "/"%char ∉ name -> posixpath.basename name = name.
Proof.
  intros H. unfold posixpath.basename. by rewrite rfind_absent.
Qed.

Lemma splitext_stem_ext (stem ext : str) :
  "/"%char ∉ stem -> "/"%char ∉ ext -> "."%char ∉ ext ->
  existsb (fun c => negb (Py.ascii_eqb c ".")) stem = true ->
  posixpath.splitext (stem ++ py "." ++ ext) = (stem, py "." ++ ext).
Proof.
  intros Hs He Hd Hx. unfold posixpath.splitext. simpl.
  rewrite (rfind_last "." stem ext Hd).
  rewrite rfind_absent.
  2:{ rewrite elem_of_app, elem_of_cons. intros [?|[?|?]]; done. }
  replace (-1 <? Z.of_nat (length stem)) with true by (symmetry; apply Z.ltb_lt; lia).
  unfold posixpath.slice.
  replace (Z.to_nat (Z.of_nat (length stem) - (-1 + 1))) with (length stem)
    by lia.
  replace (Z.to_nat (-1 + 1)) with 0%nat by lia.
  rewrite drop_0, take_app_length, Hx. simpl.
  rewrite Nat2Z.id, take_app_length, drop_app_length. done.
Qed.

(** The stem of a video path is blind to its directory and its extension. *)
Lemma filename_dir_stem_ext (d stem ext : str) :
  "/"%char ∉ stem -> "/"%char ∉ ext -> "."%char ∉ ext ->
  existsb (fun c => negb (Py.ascii_eqb c ".")) stem = true ->
  filename (d ++ py "/" ++ stem ++ py "." ++ ext) = stem.
Proof.
  intros Hs He Hd Hx. unfold filename.
  rewrite basename_dir.
  - by rewrite splitext_stem_ext.
  - rewrite elem_of_app. simpl. rewrite elem_of_cons.
    intros [?|[?|?]]; done.
Qed.

Lemma join_truthy (x y : str) : truthy y = true -> truthy (posixpath.join x y) = true.
Proof.
  intros H. unfold posixpath.join.
  destruct (Py.startswith _ y); [done|].
  destruct (_ || _); [by apply truthy_app_r|].
  apply truthy_app_r. done.
Qed.

Lemma original_srt_truthy base path : truthy (original_srt base path) = true.
Proof. apply join_truthy, truthy_app_r. done. Qed.

Lemma translated_srt_truthy base path lang :
  truthy (translated_srt base path lang) = true.
Proof. apply join_truthy, truthy_app_r. done. Qed.

(** C10: the artifact paths of a video are computed from its stem, the base
    directory and the target language only, so two videos with equal stems
    get the same original and the same translated artifact path, whatever
    their directories and extensions. *)
Theorem artifact_paths_depend_on_stem_only (base lang p1 p2 : str) :
  filename p1 = filename p2 ->
  original_srt base p1 = original_srt base p2
  /\ translated_srt base p1 lang = translated_srt base p2 lang.
Proof.
  intros H. unfold original_srt, translated_srt. rewrite H. done.
Qed.

Lemma artifact_paths_depend_on_stem_only_witness :
  py "videos/a/talk.mp4" <> py "videos/b/talk.mkv"
  /\ original_srt (py "out") (py "videos/a/talk.mp4") = py "out/talk.srt"
  /\ original_srt (py "out") (py "videos/a/talk.mp4")
     = original_srt (py "out") (py "videos/b/talk.mkv")
  /\ translated_srt (py "out") (py "videos/a/talk.mp4") (py "es")
     = translated_srt (py "out") (py "videos/b/talk.mkv") (py "es").
Proof.
  split; [discriminate|]. split; [reflexivity|].
  apply (artifact_paths_depend_on_stem_only (py "out") (py "es")
           (py "videos/a/talk.mp4") (py "videos/b/talk.mkv")).
  reflexivity.
Defined.

(** ** The state monad *)

Lemma log_nil w : log w [] = w.
Proof. destruct w. unfold log. simpl. by rewrite app_nil_r. Qed.

Lemma log_log w x y : log (log w x) y = log w (x ++ y).
Proof. unfold log. simpl. by rewrite app_assoc. Qed.

Lemma print_eq m w : print m w = (log w [m], Ok tt).
Proof. done. Qed.

Lemma files_log w msgs : files (log w msgs) = files w.
Proof. done. Qed.

Lemma bind_eq {A B} (m : M A) (f : A -> M B) w w' x :
  m w = (w', Ok x) -> (m ≫= f) w = f x w'.
Proof. intros H. unfold mbind, M_bind. by rewrite H. Qed.

Lemma bind_raise {A B} (m : M A) (f : A -> M B) w w' e :
  m w = (w', Raise e) -> (m ≫= f) w = (w', Raise e).
Proof. intros H. unfold mbind, M_bind. by rewrite H. Qed.

Lemma for_each_app {A S} (body : S -> A -> M S) st xs ys :
  forall w, for_each body st (xs ++ ys) w
            = (for_each body st xs ≫= fun st' => for_each body st' ys) w.
Proof.
  revert st. induction xs as [|x xs IH]; intros st w; simpl; [done|].
  unfold mbind, M_bind. destruct (body st x w) as [w1 [st1|e]]; [|done].
  rewrite IH. done.
Qed.

(** ** The resolver *)

Section ResolverProofs.

Variable tempdir : str.
Variable a : args.

Lemma artifact_valid_eq srt path w fv :
  files w !! path = Some fv ->
  artifact_valid srt path w = (w, Ok (fresh (files w) srt path)).
Proof.
  intros Hv. unfold artifact_valid, fresh, mbind, M_bind, path_exists, getmtime.
  rewrite Hv. destruct (files w !! srt) as [fa|] eqn:E; simpl.
  - rewrite ?E, ?Hv. done.
  - done.
Qed.

Lemma classify_video_spec st path w fv :
  files w !! path = Some fv ->
  exists msgs,
    classify_video tempdir a st path w
    = (log w msgs, Ok (classify_pure tempdir a (files w) st path)).
Proof.
  intros Hv. unfold classify_video.
  rewrite (bind_eq _ _ _ _ _ (artifact_valid_eq _ _ _ _ Hv)).
  unfold classify_pure, record_cached, classification_of, classify,
    reused_srt, translate_entry, translated_fresh, original_fresh.
  set (so := original_srt (srt_base_dir tempdir a) path).
  destruct (fresh (files w) so path) eqn:Eo;
    destruct (target a) as [lang|] eqn:Et.
  all: unfold mbind, M_bind; simpl.
  all: try (erewrite artifact_valid_eq by (simpl; exact Hv)); simpl.
  all: try (destruct (fresh (files w) (translated_srt _ path lang) path) eqn:Etr);
    simpl.
  all: try (rewrite bool_decide_true by eauto).
  all: try (rewrite bool_decide_false by (by intros [? ?])).
  all: simpl.
  all: try (eexists; reflexivity).
  all: try (exists []; by rewrite log_nil).
  eexists (_ :: _ :: []). unfold log. by rewrite <- app_assoc.
Qed.

Lemma classify_loop_spec l st w :
  Forall (fun p => is_Some (files w !! p)) l ->
  exists msgs,
    for_each (classify_video tempdir a) st l w
    = (log w msgs,
       Ok (fold_left (classify_pure tempdir a (files w)) l st)).
Proof.
  intros Hl. revert st w Hl.
  induction l as [|p l IH]; intros st w Hl; simpl.
  - exists []. by rewrite log_nil.
  - apply Forall_cons in Hl as [[fv Hp] Hl].
    destruct (classify_video_spec st p w fv Hp) as [m1 E1].
    rewrite (bind_eq _ _ _ _ _ E1).
    destruct (IH (classify_pure tempdir a (files w) st p) (log w m1))
      as [m2 E2]; [done|].
    exists (m1 ++ m2). rewrite E2, log_log. done.
Qed.

Variable fs : gmap str file.

Local Abbreviation step := (classify_pure tempdir a fs).
Local Abbreviation class := (classification_of tempdir a fs).
Local Abbreviation base := (srt_base_dir tempdir a).
Local Abbreviation reuse := (reusable tempdir a fs).

Lemma record_cached_embed_map st p :
  embed_map (record_cached tempdir a fs st p) = embed_map st.
Proof. unfold record_cached. repeat case_match; done. Qed.

Lemma record_cached_lists st p :
  videos_to_transcribe (record_cached tempdir a fs st p)
  = videos_to_transcribe st
  /\ translate_existing (record_cached tempdir a fs st p)
     = translate_existing st.
Proof. unfold record_cached. repeat case_match; done. Qed.

Lemma step_embed_map st x :
  embed_map (step st x)
  = if reuse x then <[x := Some (reused_srt tempdir a x)]> (embed_map st)
    else embed_map st.
Proof.
  unfold classify_pure, reusable.
  destruct (class x); simpl; by rewrite record_cached_embed_map.
Qed.

Lemma step_videos_to_transcribe st x :
  videos_to_transcribe (step st x)
  = videos_to_transcribe st
    ++ (if bool_decide (class x = TranscribeFresh) then [x] else []).
Proof.
  unfold classify_pure.
  destruct (record_cached_lists st x) as [E _].
  destruct (class x); simpl; rewrite E, ?app_nil_r; done.
Qed.

Lemma step_translate_existing st x :
  translate_existing (step st x)
  = translate_existing st
    ++ (if bool_decide (class x = TranslateExisting)
        then [translate_entry tempdir a x] else []).
Proof.
  unfold classify_pure.
  destruct (record_cached_lists st x) as [_ E].
  destruct (class x); simpl; rewrite E, ?app_nil_r; done.
Qed.

Lemma step_subtitles_original st x :
  subtitles_original (step st x)
  = if original_fresh tempdir a fs x
    then <[x := original_srt base x]> (subtitles_original st)
    else subtitles_original st.
Proof.
  unfold classify_pure, record_cached.
  repeat case_match; done.
Qed.

Lemma step_subtitles_translated st x :
  subtitles_translated (step st x)
  = match target a with
    | Some lang =>
      if translated_fresh tempdir a fs x
      then <[x := translated_srt base x lang]> (subtitles_translated st)
      else subtitles_translated st
    | None => subtitles_translated st
    end.
Proof.
  unfold classify_pure, record_cached.
  repeat case_match; done.
Qed.

Ltac fold_lookup_cases p x l :=
  destruct (decide (p = x)) as [->|?];
  [ rewrite (bool_decide_true (x ∈ x :: l)) by (apply elem_of_cons; auto)
  | destruct (decide (p ∈ l));
    [ rewrite (bool_decide_true (p ∈ l)) by done;
      rewrite (bool_decide_true (p ∈ x :: l)) by (apply elem_of_cons; auto)
    | rewrite (bool_decide_false (p ∈ l)) by done;
      rewrite (bool_decide_false (p ∈ x :: l))
        by (rewrite elem_of_cons; intros [?|?]; done) ] ];
  simpl; repeat case_match; rewrite ?andb_false_r, ?andb_true_r in *;
  simplify_map_eq; done.

Lemma fold_embed_map l st p :
  embed_map (fold_left step l st) !! p
  = if bool_decide (p ∈ l) && reuse p
    then Some (Some (reused_srt tempdir a p))
    else embed_map st !! p.
Proof.
  revert st. induction l as [|x l IH]; intros st; simpl; [done|].
  rewrite IH, step_embed_map.
  fold_lookup_cases p x l.
Qed.

Lemma fold_subtitles_original l st p :
  subtitles_original (fold_left step l st) !! p
  = if bool_decide (p ∈ l) && original_fresh tempdir a fs p
    then Some (original_srt base p)
    else subtitles_original st !! p.
Proof.
  revert st. induction l as [|x l IH]; intros st; simpl; [done|].
  rewrite IH, step_subtitles_original.
  fold_lookup_cases p x l.
Qed.

Lemma fold_subtitles_translated l st p :
  subtitles_translated (fold_left step l st) !! p
  = match target a with
    | Some lang =>
      if bool_decide (p ∈ l) && translated_fresh tempdir a fs p
      then Some (translated_srt base p lang)
      else subtitles_translated st !! p
    | None => subtitles_translated st !! p
    end.
Proof.
  revert st. induction l as [|x l IH]; intros st; simpl.
  { by destruct (target a). }
  rewrite IH, step_subtitles_translated.
  destruct (target a) as [lang|]; [|done].
  fold_lookup_cases p x l.
Qed.

Lemma fold_videos_to_transcribe l st :
  videos_to_transcribe (fold_left step l st)
  = videos_to_transcribe st
    ++ filter (fun p => class p = TranscribeFresh) l.
Proof.
  revert st. induction l as [|x l IH]; intros st; simpl.
  { by rewrite app_nil_r. }
  rewrite IH, step_videos_to_transcribe, <- app_assoc. f_equal.
  rewrite filter_cons. case_bool_decide; case_decide; done.
Qed.

Lemma fold_translate_existing l st :
  translate_existing (fold_left step l st)
  = translate_existing st
    ++ map (translate_entry tempdir a)
         (filter (fun p => class p = TranslateExisting) l).
Proof.
  revert st. induction l as [|x l IH]; intros st; simpl.
  { by rewrite app_nil_r. }
  rewrite IH, step_translate_existing, <- app_assoc. f_equal.
  rewrite filter_cons. case_bool_decide; case_decide; done.
Qed.

End ResolverProofs.

Lemma fresh_iff fs artifact video fv :
  fs !! video = Some fv ->
  fresh fs artifact video = true
  <-> exists fa, fs !! artifact = Some fa /\ mtime fv <= mtime fa.
Proof.
  intros Hv. unfold fresh. rewrite Hv.
  destruct (fs !! artifact) as [fa|]; split.
  - intros H. exists fa. split; [done|]. by apply Z.leb_le.
  - intros (fa' & [= <-] & H). by apply Z.leb_le.
  - done.
  - by intros (fa' & ? & _).
Qed.

Lemma classify_cases t o x :
  match classify t o x with
  | ReuseOriginal => t = false /\ o = true
  | ReuseTranslated => t = true /\ x = true
  | TranslateExisting => t = true /\ x = false /\ o = true
  | TranscribeFresh => o = false /\ (t = true -> x = false)
  end.
Proof. destruct t, o, x; simpl; auto. Qed.

Lemma target_is_Some (a : args) :
  bool_decide (is_Some (target a)) = true -> exists lang, target a = Some lang.
Proof. intros H. apply bool_decide_eq_true in H as [lang H]. eauto. Qed.

Lemma target_is_None (a : args) :
  bool_decide (is_Some (target a)) = false -> target a = None.
Proof.
  intros H. apply bool_decide_eq_false in H.
  destruct (target a); [|done]. destruct H. eauto.
Qed.

(** C1: with a target language requested and a fresh translated artifact, a
    video is classified ReuseTranslated, whatever the state of its original
    artifact; and the classification loop gives every video exactly one of
    the four classifications, the one the precedence rule of the
    specification selects: the video is mapped to the reused artifact, or
    queued for translation of the existing original, or queued for
    transcription, and never two of these. *)
Theorem resolver_precedence (tempdir : str) (a : args) (w : world) :
  Forall (fun p => is_Some (files w !! p)) (videos a) ->
  exists w' st,
    for_each (classify_video tempdir a) initial_state (videos a) w
    = (w', Ok st)
    /\ forall path, path ∈ videos a ->
       let base := srt_base_dir tempdir a in
       let queued := map (fun e => e.1.1) (translate_existing st) in
       (forall lang, target a = Some lang ->
          fresh (files w) (translated_srt base path lang) path = true ->
          classification_of tempdir a (files w) path = ReuseTranslated)
       /\ match classification_of tempdir a (files w) path with
          | ReuseOriginal =>
            target a = None
            /\ embed_map st !! path = Some (Some (original_srt base path))
            /\ (path ∉ videos_to_transcribe st) /\ (path ∉ queued)
          | ReuseTranslated =>
            (exists lang, target a = Some lang
               /\ embed_map st !! path
                  = Some (Some (translated_srt base path lang)))
            /\ (path ∉ videos_to_transcribe st) /\ (path ∉ queued)
          | TranslateExisting =>
            embed_map st !! path = None
            /\ (path ∉ videos_to_transcribe st)
            /\ translate_entry tempdir a path ∈ translate_existing st
          | TranscribeFresh =>
            embed_map st !! path = None
            /\ (path ∈ videos_to_transcribe st) /\ (path ∉ queued)
          end.
Proof.
  intros Hv.
  destruct (classify_loop_spec tempdir a (videos a) initial_state w Hv)
    as [msgs E].
  eexists _, _. split; [exact E|].
  intros path Hin base queued. split.
  { intros lang Ht Hf. unfold classification_of, classify, translated_fresh.
    rewrite Ht. fold base. rewrite Hf.
    rewrite bool_decide_true by eauto. done. }
  assert (Hq : forall c, c <> TranslateExisting ->
             classification_of tempdir a (files w) path = c -> path ∉ queued).
  { intros c Hc Hcl. unfold queued. rewrite fold_translate_existing. simpl.
    intros Hq. apply list_elem_of_In, in_map_iff in Hq as (e & He & Hq).
    apply in_map_iff in Hq as (x & <- & Hx).
    apply list_elem_of_In, list_elem_of_filter in Hx as [Hx _].
    simpl in He. subst x. congruence. }
  assert (Hem : embed_map (fold_left (classify_pure tempdir a (files w))
                             (videos a) initial_state) !! path
                = if reusable tempdir a (files w) path
                  then Some (Some (reused_srt tempdir a path)) else None).
  { rewrite fold_embed_map. rewrite bool_decide_true by done. done. }
  unfold reusable in Hem.
  pose proof (classify_cases (bool_decide (is_Some (target a)))
                (original_fresh tempdir a (files w) path)
                (translated_fresh tempdir a (files w) path)) as Hc.
  fold (classification_of tempdir a (files w) path) in Hc.
  destruct (classification_of tempdir a (files w) path) eqn:Hcl.
  - destruct Hc as [Ht _]. apply target_is_None in Ht.
    split; [done|]. split.
    { rewrite Hem. unfold reused_srt. by rewrite Ht. }
    split; [|by apply (Hq ReuseOriginal)].
    rewrite fold_videos_to_transcribe. simpl.
    rewrite list_elem_of_filter. intros [? _]. congruence.
  - destruct Hc as [Ht _]. apply target_is_Some in Ht as [lang Ht].
    split.
    { exists lang. split; [done|]. rewrite Hem. unfold reused_srt.
      by rewrite Ht. }
    split; [|by apply (Hq ReuseTranslated)].
    rewrite fold_videos_to_transcribe. simpl.
    rewrite list_elem_of_filter. intros [? _]. congruence.
  - split; [done|]. split.
    + rewrite fold_videos_to_transcribe. simpl.
      rewrite list_elem_of_filter. intros [? _]. congruence.
    + rewrite fold_translate_existing. simpl.
      apply list_elem_of_In, in_map, list_elem_of_In, list_elem_of_filter. done.
  - split; [done|]. split; [|by apply (Hq TranscribeFresh)].
    rewrite fold_videos_to_transcribe. simpl.
    apply list_elem_of_filter. done.
Qed.

Lemma resolver_precedence_witness :
  exists w' st,
    for_each (classify_video (py "/tmp") args_es) initial_state
      (videos args_es) world_stale_original = (w', Ok st)
    /\ embed_map st !! py "a.mp4" = Some (Some (py "out/a_es.srt"))
    /\ videos_to_transcribe st = [] /\ translate_existing st = [].
Proof.
  destruct (resolver_precedence (py "/tmp") args_es world_stale_original)
    as (w' & st & E & H).
  { repeat constructor. eexists. vm_compute. reflexivity. }
  exists w', st. split; [exact E|].
  vm_compute in E. injection E as _ <-. vm_compute. auto.
Defined.

(** C2: the resolver takes an artifact, original or translated, as reusable
    exactly when the file exists with a modification time at least that of
    the source video; an artifact older than its video is never taken as
    reusable. *)
Theorem resolver_freshness (tempdir : str) (a : args) (w : world) :
  Forall (fun p => is_Some (files w !! p)) (videos a) ->
  (forall artifact path fv, files w !! path = Some fv ->
     exists b, artifact_valid artifact path w = (w, Ok b)
       /\ (b = true
           <-> exists fa, files w !! artifact = Some fa
                 /\ mtime fv <= mtime fa))
  /\ exists w' st,
    for_each (classify_video tempdir a) initial_state (videos a) w
    = (w', Ok st)
    /\ forall path fv, path ∈ videos a -> files w !! path = Some fv ->
       let so := original_srt (srt_base_dir tempdir a) path in
       (is_Some (subtitles_original st !! path)
        <-> exists fa, files w !! so = Some fa /\ mtime fv <= mtime fa)
       /\ (forall fa, files w !! so = Some fa -> mtime fa < mtime fv ->
             subtitles_original st !! path = None
             /\ classification_of tempdir a (files w) path <> ReuseOriginal
             /\ classification_of tempdir a (files w) path
                <> TranslateExisting)
       /\ forall lang, target a = Some lang ->
          let sx := translated_srt (srt_base_dir tempdir a) path lang in
          (is_Some (subtitles_translated st !! path)
           <-> exists fa, files w !! sx = Some fa /\ mtime fv <= mtime fa)
          /\ (forall fa, files w !! sx = Some fa -> mtime fa < mtime fv ->
                subtitles_translated st !! path = None
                /\ classification_of tempdir a (files w) path
                   <> ReuseTranslated).
Proof.
  intros Hv. split.
  { intros artifact path fv Hp. eexists. split.
    - by apply (artifact_valid_eq _ _ _ fv).
    - by apply fresh_iff. }
  destruct (classify_loop_spec tempdir a (videos a) initial_state w Hv)
    as [msgs E].
  eexists _, _. split; [exact E|].
  intros path fv Hin Hp so.
  pose proof (classify_cases (bool_decide (is_Some (target a)))
                (original_fresh tempdir a (files w) path)
                (translated_fresh tempdir a (files w) path)) as Hc.
  fold (classification_of tempdir a (files w) path) in Hc.
  assert (Ho : subtitles_original
                 (fold_left (classify_pure tempdir a (files w)) (videos a)
                    initial_state) !! path
               = if fresh (files w) so path then Some so else None).
  { rewrite fold_subtitles_original. rewrite bool_decide_true by done. done. }
  split; [|split].
  - rewrite Ho, <- (fresh_iff _ _ _ _ Hp).
    destruct (fresh (files w) so path); split; try done; try eauto;
      try (by intros [? ?]).
  - intros fa Hfa Hlt.
    assert (Hf : fresh (files w) so path = false).
    { unfold fresh. rewrite Hfa, Hp. apply Z.leb_gt. done. }
    rewrite Ho, Hf. split; [done|].
    unfold original_fresh in Hc. fold so in Hc. rewrite Hf in Hc.
    destruct (classification_of tempdir a (files w) path);
      (split; [try done|try done]); intros _; destruct Hc as (? & ?);
      try done; by destruct_and!.
  - intros lang Ht sx.
    assert (Hx : subtitles_translated
                   (fold_left (classify_pure tempdir a (files w)) (videos a)
                      initial_state) !! path
                 = if fresh (files w) sx path then Some sx else None).
    { rewrite fold_subtitles_translated, Ht.
      rewrite bool_decide_true by done. unfold translated_fresh.
      rewrite Ht. done. }
    split.
    + rewrite Hx, <- (fresh_iff _ _ _ _ Hp).
      destruct (fresh (files w) sx path); split; try done; try eauto;
        try (by intros [? ?]).
    + intros fa Hfa Hlt.
      assert (Hf : fresh (files w) sx path = false).
      { unfold fresh. rewrite Hfa, Hp. apply Z.leb_gt. done. }
      rewrite Hx, Hf. split; [done|].
      unfold translated_fresh in Hc. rewrite Ht in Hc. fold sx in Hc.
      rewrite Hf in Hc.
      destruct (classification_of tempdir a (files w) path); try done.
      by destruct Hc.
Qed.

Lemma resolver_freshness_witness :
  exists w' st,
    for_each (classify_video (py "/tmp") args_es) initial_state
      (videos args_es) world_stale_original = (w', Ok st)
    /\ subtitles_original st !! py "a.mp4" = None
    /\ is_Some (subtitles_translated st !! py "a.mp4").
Proof.
  destruct (resolver_freshness (py "/tmp") args_es world_stale_original)
    as (_ & w' & st & E & H).
  { repeat constructor. eexists. vm_compute. reflexivity. }
  exists w', st. split; [exact E|].
  destruct (H (py "a.mp4") (File 5 [])) as (_ & Hstale & Htr).
  { apply elem_of_cons. auto. }
  { vm_compute. reflexivity. }
  split.
  - apply (Hstale (File 3 [])); [vm_compute; reflexivity | simpl; lia].
  - apply (Htr (py "es")); [reflexivity|].
    exists (File 6 []). split; [vm_compute; reflexivity | simpl; lia].
Defined.

(** ** [str] methods *)

Lemma startswith_app (p s : str) : Py.startswith p (p ++ s) = true.
Proof. induction p as [|c p IH]; simpl; [done|]. by rewrite ascii_eqb_refl. Qed.

Lemma startswith_spec (p s : str) :
  Py.startswith p s = true <-> exists t, s = p ++ t.
Proof.
  split.
  - revert s. induction p as [|c p IH]; intros s H; simpl in *.
    + by exists s.
    + destruct s as [|d s]; [done|].
      apply andb_prop in H as [Hc Hp]. apply ascii_eqb_eq in Hc as ->.
      destruct (IH s Hp) as [t ->]. by exists t.
  - intros [t ->]. apply startswith_app.
Qed.

Lemma startswith_head_absent (c : ascii) (p s : str) :
  c ∉ s -> Py.startswith (c :: p) s = false.
Proof.
  destruct s as [|d s]; simpl; [done|]. intros H.
  apply not_elem_of_cons in H as [H _].
  apply ascii_eqb_neq in H. by rewrite H.
Qed.

Lemma startswith_head_differs (c d : ascii) (p s : str) :
  c <> d -> Py.startswith (c :: p) (d :: s) = false.
Proof. intros H. simpl. apply ascii_eqb_neq in H. by rewrite H. Qed.

Lemma contains_app_r (sub x y : str) :
  Py.contains sub y = true -> Py.contains sub (x ++ y) = true.
Proof.
  intros H. induction x as [|c x IH]; simpl; [done|].
  rewrite IH. apply orb_true_r.
Qed.

Lemma contains_app_l (sub y z : str) :
  Py.contains sub y = true -> Py.contains sub (y ++ z) = true.
Proof.
  induction y as [|c y IH]; simpl; intros H.
  - rewrite orb_false_r in H. destruct sub; [by destruct z|done].
  - apply orb_prop in H as [H|H].
    + apply startswith_spec in H as [t E].
      replace (c :: y ++ z) with (sub ++ (t ++ z)).
      * by rewrite startswith_app.
      * rewrite app_assoc, <- E. done.
    + rewrite IH by done. apply orb_true_r.
Qed.

Lemma contains_here (sub x : str) : Py.contains sub (sub ++ x) = true.
Proof.
  destruct (sub ++ x) eqn:E; simpl; rewrite <- E, startswith_app; done.
Qed.

Lemma contains_head_absent (c : ascii) (p s : str) :
  c ∉ s -> Py.contains (c :: p) s = false.
Proof.
  induction s as [|d s IH]; intros H; [done|].
  cbn [Py.contains]. rewrite startswith_head_absent by done.
  apply not_elem_of_cons in H as [_ H]. by rewrite IH.
Qed.

Lemma split_aux_nonempty sep k s : Py.split_aux sep k s <> [].
Proof.
  revert k. induction s as [|c s IH]; intros k; simpl; [done|].
  destruct k; [|apply IH].
  destruct (Py.startswith sep (c :: s)); [done|].
  destruct (Py.split_aux sep 0 s); done.
Qed.

Lemma split_aux_skip sep x s :
  Py.split_aux sep (length x) (x ++ s) = Py.split_aux sep 0 s.
Proof. induction x as [|c x IH]; simpl; done. Qed.

Lemma split_absent (c : ascii) (sep s : str) :
  c ∉ s -> Py.split (c :: sep) s = [s].
Proof.
  unfold Py.split. induction s as [|d s IH]; intros H; [done|].
  cbn [Py.split_aux]. rewrite startswith_head_absent by done.
  apply not_elem_of_cons in H as [_ H]. by rewrite IH.
Qed.

Lemma split_first (c : ascii) (sep x s : str) :
  c ∉ x ->
  Py.split (c :: sep) (x ++ (c :: sep) ++ s) = x :: Py.split (c :: sep) s.
Proof.
  unfold Py.split. induction x as [|d x IH]; intros H.
  - change ([] ++ (c :: sep) ++ s) with (c :: (sep ++ s)).
    cbn [Py.split_aux].
    change (c :: sep ++ s) with ((c :: sep) ++ s).
    rewrite startswith_app. f_equal.
    replace (length (c :: sep) - 1)%nat with (length sep) by (simpl; lia).
    apply split_aux_skip.
  - apply not_elem_of_cons in H as [Hd H].
    change ((d :: x) ++ (c :: sep) ++ s) with (d :: (x ++ (c :: sep) ++ s)).
    cbn [Py.split_aux].
    rewrite startswith_head_differs by done.
    rewrite IH by done. done.
Qed.

Lemma join_cons_cons sep (c : ascii) (piece : str) (pieces : list str) :
  Py.join sep ((c :: piece) :: pieces) = c :: Py.join sep (piece :: pieces).
Proof. destruct pieces; done. Qed.

Lemma join_split_aux (c : ascii) (sep : str) k s :
  Py.join (c :: sep) (Py.split_aux (c :: sep) k s) = drop k s.
Proof.
  revert k. induction s as [|d s IH]; intros k.
  - by destruct k.
  - destruct k as [|k]; cbn [Py.split_aux]; [|by rewrite IH].
    destruct (Py.startswith (c :: sep) (d :: s)) eqn:E.
    + apply startswith_spec in E as [t E].
      pose proof (split_aux_nonempty (c :: sep) (length (c :: sep) - 1) s) as Hne.
      destruct (Py.split_aux (c :: sep) (length (c :: sep) - 1) s)
        as [|y ys] eqn:Es; [done|].
      change (Py.join (c :: sep) ([] :: y :: ys))
        with ((c :: sep) ++ Py.join (c :: sep) (y :: ys)).
      rewrite <- Es, IH. injection E as -> ->.
      replace (length (c :: sep) - 1)%nat with (length sep) by (simpl; lia).
      rewrite drop_app_length. done.
    + pose proof (split_aux_nonempty (c :: sep) 0 s) as Hne.
      specialize (IH 0%nat).
      destruct (Py.split_aux (c :: sep) 0 s) as [|y ys]; [done|].
      rewrite join_cons_cons, IH. done.
Qed.

(** Splitting loses nothing: joining the pieces gives the string back. *)
Lemma join_split (c : ascii) (sep s : str) :
  Py.join (c :: sep) (Py.split (c :: sep) s) = s.
Proof. apply join_split_aux. Qed.

Lemma replace_absent (old new s : str) :
  Py.contains old s = false -> Py.replace old new s = s.
Proof.
  unfold Py.replace. induction s as [|c s IH]; intros H; [done|].
  cbn [Py.contains] in H. apply orb_false_elim in H as [H1 H2].
  cbn [Py.replace_aux]. rewrite H1, IH by done. done.
Qed.

(** *** strip *)

Lemma lstrip_with_split p s :
  exists l, s = l ++ Py.lstrip_with p s /\ Forall (fun c => p c = true) l.
Proof.
  induction s as [|c s (l & E & Hl)]; simpl.
  - by exists [].
  - destruct (p c) eqn:Hc.
    + exists (c :: l). split; [simpl; congruence|]. by constructor.
    + by exists [].
Qed.

Lemma lstrip_with_head p s :
  match Py.lstrip_with p s with
  | [] => True
  | c :: _ => p c = false
  end.
Proof.
  induction s as [|c s IH]; simpl; [done|].
  destruct (p c) eqn:Hc; [done|]. simpl. done.
Qed.

Lemma lstrip_with_id p c s : p c = false -> Py.lstrip_with p (c :: s) = c :: s.
Proof. intros H. simpl. by rewrite H. Qed.

Lemma lstrip_with_snoc p s c :
  p c = false -> Py.lstrip_with p (s ++ [c]) = Py.lstrip_with p s ++ [c].
Proof.
  intros H. induction s as [|d s IH]; simpl.
  - by rewrite H.
  - destruct (p d); done.
Qed.

Lemma rstrip_with_snoc p s c :
  p c = false -> Py.rstrip_with p (s ++ [c]) = s ++ [c].
Proof.
  intros H. unfold Py.rstrip_with. rewrite rev_app_distr. simpl.
  rewrite H. simpl. by rewrite rev_involutive.
Qed.

Lemma rstrip_with_split p s :
  exists r, s = Py.rstrip_with p s ++ r /\ Forall (fun c => p c = true) r.
Proof.
  unfold Py.rstrip_with.
  destruct (lstrip_with_split p (rev s)) as (l & E & Hl).
  exists (rev l). split.
  - rewrite <- rev_app_distr, <- E, rev_involutive. done.
  - by apply Forall_rev.
Qed.

Lemma rstrip_with_head p c s :
  p c = false ->
  exists s', Py.rstrip_with p (c :: s) = c :: s'.
Proof.
  intros H. unfold Py.rstrip_with. simpl.
  rewrite lstrip_with_snoc by done. rewrite rev_app_distr. simpl. eauto.
Qed.

Lemma rstrip_with_last p s :
  Py.rstrip_with p s = []
  \/ exists s' c, Py.rstrip_with p s = s' ++ [c] /\ p c = false.
Proof.
  unfold Py.rstrip_with.
  pose proof (lstrip_with_head p (rev s)) as H.
  destruct (Py.lstrip_with p (rev s)) as [|c t]; [by left|].
  right. exists (rev t), c. done.
Qed.

(** A stripped string is empty, or starts and ends outside the stripped
    set. *)
Lemma strip_with_ends p s :
  Py.strip_with p s = []
  \/ exists c t s' d, Py.strip_with p s = c :: t /\ p c = false
       /\ Py.strip_with p s = s' ++ [d] /\ p d = false.
Proof.
  unfold Py.strip_with.
  pose proof (lstrip_with_head p s) as Hh.
  destruct (Py.lstrip_with p s) as [|c t] eqn:E; [by left|].
  right. destruct (rstrip_with_head p c t Hh) as [t' Et].
  destruct (rstrip_with_last p (c :: t)) as [H|(s' & d & H & Hd)].
  - congruence.
  - exists c, t', s', d. done.
Qed.

Lemma strip_with_id p c t d :
  p c = false -> p d = false ->
  forall s, s = c :: t -> (exists s', s = s' ++ [d]) ->
  Py.strip_with p s = s.
Proof.
  intros Hc Hd s -> [s' E]. unfold Py.strip_with.
  rewrite lstrip_with_id by done. rewrite E. by apply rstrip_with_snoc.
Qed.

Lemma strip_with_idem p s :
  Py.strip_with p (Py.strip_with p s) = Py.strip_with p s.
Proof.
  destruct (strip_with_ends p s) as [->|(c & t & s' & d & E1 & Hc & E2 & Hd)].
  - reflexivity.
  - apply (strip_with_id p c t d Hc Hd); [exact E1 | exists s'; exact E2].
Qed.

Lemma strip_with_split p s :
  exists l r, s = l ++ Py.strip_with p s ++ r
    /\ Forall (fun c => p c = true) l /\ Forall (fun c => p c = true) r.
Proof.
  unfold Py.strip_with.
  destruct (lstrip_with_split p s) as (l & E & Hl).
  destruct (rstrip_with_split p (Py.lstrip_with p s)) as (r & E' & Hr).
  exists l, r. split; [|done]. rewrite <- E'. done.
Qed.

(** A string of characters outside the stripped set is left alone. *)
Lemma strip_with_none p s :
  Forall (fun c => p c = false) s -> Py.strip_with p s = s.
Proof.
  intros H. destruct s as [|c t]; [done|].
  destruct (exists_last (l := c :: t)) as (s' & d & E); [done|].
  apply Forall_cons in H as H'. destruct H' as [Hc _].
  assert (Hd : p d = false).
  { rewrite E in H. apply Forall_app in H as [_ H].
    by apply Forall_cons in H as [? _]. }
  apply (strip_with_id p c t d Hc Hd); [done | by exists s'].
Qed.

Lemma contains_strip (sub s : str) :
  Py.contains sub (Py.strip s) = true -> Py.contains sub s = true.
Proof.
  intros H. destruct (strip_with_split Py.isspace s) as (l & r & E & _).
  rewrite E. apply contains_app_r, contains_app_l. done.
Qed.

Lemma elem_of_strip (c : ascii) (s : str) : c ∈ Py.strip s -> c ∈ s.
Proof.
  intros H. destruct (strip_with_split Py.isspace s) as (l & r & E & _).
  rewrite E. rewrite !elem_of_app. auto.
Qed.

(** ** Decimal digits *)

Ltac ascii_cases c :=
  destruct c as [[] [] [] [] [] [] [] []]; try discriminate; try reflexivity.

Lemma digit_char_spec d :
  0 <= d < 10 ->
  Py.is_digit (Py.digit_char d) = true /\ Py.digit_val (Py.digit_char d) = d.
Proof.
  intros H.
  assert (d = 0 \/ d = 1 \/ d = 2 \/ d = 3 \/ d = 4 \/ d = 5 \/ d = 6
          \/ d = 7 \/ d = 8 \/ d = 9) as Hd by lia.
  repeat (destruct Hd as [->|Hd]; [by vm_compute|]). subst. by vm_compute.
Qed.

Lemma is_digit_not_int_space c : Py.is_digit c = true -> Py.int_space c = false.
Proof. ascii_cases c. Qed.

Lemma is_digit_not_isspace c : Py.is_digit c = true -> Py.isspace c = false.
Proof. ascii_cases c. Qed.

Lemma digits_absent (c : ascii) (s : str) :
  Py.is_digit c = false -> Forall (fun d => Py.is_digit d = true) s -> c ∉ s.
Proof.
  intros Hc Hs Hin. rewrite Forall_forall in Hs.
  apply Hs in Hin. congruence.
Qed.

Lemma digits_acc_digits acc s :
  Forall (fun d => Py.is_digit d = true) s ->
  Py.digits_acc acc s = Some (fold_left dec_step s acc).
Proof.
  revert acc. induction s as [|c s IH]; intros acc H; simpl; [done|].
  apply Forall_cons in H as [Hc H]. rewrite Hc. by apply IH.
Qed.

Lemma parse_digits_digits s :
  s <> [] -> Forall (fun d => Py.is_digit d = true) s ->
  Py.parse_digits s = Some (dec_value s).
Proof.
  destruct s as [|c s]; [done|]. intros _ H.
  apply Forall_cons in H as [Hc H]. simpl. rewrite Hc.
  by rewrite digits_acc_digits.
Qed.

Lemma filter_digits s :
  Forall (fun d => Py.is_digit d = true) s -> List.filter Py.is_digit s = s.
Proof.
  induction s as [|c s IH]; intros H; [done|].
  apply Forall_cons in H as [Hc H]. cbn [List.filter]. rewrite Hc.
  by rewrite IH.
Qed.

(** [int] on a run of digits that is not longer than the cap. *)
Lemma int_digits s :
  s <> [] -> Forall (fun d => Py.is_digit d = true) s ->
  Z.of_nat (length s) <= Py.int_max_str_digits ->
  Py.int s = Ok (dec_value s).
Proof.
  intros Hne H Hlen. unfold Py.int.
  rewrite strip_with_none.
  2:{ eapply Forall_impl; [exact H|]. intros c. apply is_digit_not_int_space. }
  destruct s as [|c s]; [done|].
  apply Forall_cons in H as H'. destruct H' as [Hc _].
  replace (Py.ascii_eqb c "-") with false by (by ascii_cases c).
  replace (Py.ascii_eqb c "+") with false by (by ascii_cases c).
  rewrite parse_digits_digits, filter_digits by done.
  by replace (_ <? _) with false by (symmetry; apply Z.ltb_ge; lia).
Qed.

Lemma dec_value_snoc s c : dec_value (s ++ [c]) = dec_value s * 10 + Py.digit_val c.
Proof. unfold dec_value. by rewrite fold_left_app. Qed.

Lemma dec_value_zeros n s : dec_value (repeat "0"%char n ++ s) = dec_value s.
Proof.
  unfold dec_value. rewrite fold_left_app. f_equal.
  induction n as [|n IH]; simpl; [done|]. exact IH.
Qed.

Lemma digits_aux_spec fuel n tail :
  (0 < fuel)%nat -> 0 <= n < 2 ^ Z.of_nat fuel ->
  exists D, Py.digits_aux fuel n tail = D ++ tail
    /\ D <> [] /\ Forall (fun d => Py.is_digit d = true) D
    /\ dec_value D = n.
Proof.
  revert n tail. induction fuel as [|fuel IH]; intros n tail Hf Hn.
  - lia.
  - cbn [Py.digits_aux]. destruct (n <? 10) eqn:E.
    + apply Z.ltb_lt in E. exists [Py.digit_char (n mod 10)].
      destruct (digit_char_spec (n mod 10)) as [Hd Hv];
        [apply Z.mod_pos_bound; lia|].
      split; [done|]. split; [done|]. split; [by constructor|].
      unfold dec_value. simpl. unfold dec_step. rewrite Hv.
      rewrite Z.mod_small by lia. lia.
    + apply Z.ltb_ge in E.
      destruct (IH (n / 10) (Py.digit_char (n mod 10) :: tail))
        as (D & ED & Hne & HD & HV).
      { destruct fuel; [|lia]. change (2 ^ Z.of_nat 1) with 2 in Hn. lia. }
      { split; [apply Z.div_pos; lia|].
        rewrite Nat2Z.inj_succ, Z.pow_succ_r in Hn by lia.
        apply Z.div_lt_upper_bound; lia. }
      exists (D ++ [Py.digit_char (n mod 10)]).
      destruct (digit_char_spec (n mod 10)) as [Hd Hv].
      { apply Z.mod_pos_bound. lia. }
      split; [by rewrite ED, <- app_assoc|].
      split; [by destruct D|].
      split; [apply Forall_app; split; [done|by constructor]|].
      rewrite dec_value_snoc, HV, Hv.
      pose proof (Z.div_mod n 10). lia.
Qed.

Lemma digits_of_spec n :
  0 <= n ->
  Py.digits_of n <> []
  /\ Forall (fun d => Py.is_digit d = true) (Py.digits_of n)
  /\ dec_value (Py.digits_of n) = n.
Proof.
  intros Hn. unfold Py.digits_of.
  destruct (digits_aux_spec (S (Z.to_nat (Z.log2 n))) n [])
    as (D & E & H1 & H2 & H3).
  - lia.
  - split; [done|].
    rewrite Nat2Z.inj_succ, Z2Nat.id by apply Z.log2_nonneg.
    destruct (Z.eq_dec n 0) as [->|Hz]; [done|].
    apply Z.log2_spec. lia.
  - rewrite E, app_nil_r. done.
Qed.

Lemma format_d_spec width z :
  0 <= z ->
  Py.format_d width z <> []
  /\ Forall (fun d => Py.is_digit d = true) (Py.format_d width z)
  /\ dec_value (Py.format_d width z) = z.
Proof.
  intros Hz. unfold Py.format_d.
  replace (z <? 0) with false by (symmetry; apply Z.ltb_ge; lia).
  rewrite Z.abs_eq by done. simpl.
  destruct (digits_of_spec z Hz) as (H1 & H2 & H3).
  split; [|split].
  - destruct (repeat _ _); [done|done].
  - apply Forall_app. split; [|done].
    apply Forall_forall. intros c Hc. apply list_elem_of_In, repeat_spec in Hc.
    by subst.
  - by rewrite dec_value_zeros.
Qed.

(** The number of digits of [n < 10^L]. *)
Lemma digits_aux_length fuel :
  forall n tail L,
    0 < L -> 0 <= n < 10 ^ L ->
    Z.of_nat (length (Py.digits_aux fuel n tail))
    <= L + Z.of_nat (length tail).
Proof.
  induction fuel as [|fuel IH]; intros n tail L HL Hn; cbn [Py.digits_aux].
  - lia.
  - destruct (n <? 10) eqn:E.
    + cbn [length]. lia.
    + apply Z.ltb_ge in E.
      assert (1 < L) as HL1.
      { destruct (Z.eq_dec L 1) as [->|]; [|lia].
        change (10 ^ 1) with 10 in Hn. lia. }
      specialize (IH (n / 10) (Py.digit_char (n mod 10) :: tail) (L - 1)).
      cbn [length] in IH.
      assert (10 ^ L = 10 * 10 ^ (L - 1)) as Ep.
      { rewrite <- Z.pow_succ_r by lia. f_equal. lia. }
      assert (0 <= n / 10 < 10 ^ (L - 1)) as Hq.
      { split; [apply Z.div_pos; lia|].
        apply Z.div_lt_upper_bound; lia. }
      specialize (IH ltac:(lia) Hq). lia.
Qed.

Lemma format_d_length width z L :
  0 < L -> 0 <= z < 10 ^ L -> Z.of_nat width <= L ->
  Z.of_nat (length (Py.format_d width z)) <= L.
Proof.
  intros HL Hz Hw. unfold Py.format_d, Py.digits_of.
  replace (z <? 0) with false by (symmetry; apply Z.ltb_ge; lia).
  rewrite Z.abs_eq by lia. cbn [app length].
  pose proof (digits_aux_length (S (Z.to_nat (Z.log2 z))) z [] L HL Hz) as Hd.
  cbn [length] in Hd. rewrite length_app, repeat_length. lia.
Qed.

(** [int] reads a number back from its zero-padded form, as long as that
    form is not longer than the cap. *)
Lemma int_format_d width z L :
  0 < L <= Py.int_max_str_digits -> 0 <= z < 10 ^ L -> Z.of_nat width <= L ->
  Py.int (Py.format_d width z) = Ok z.
Proof.
  intros HL Hz Hw.
  destruct (format_d_spec width z ltac:(lia)) as (H1 & H2 & H3).
  rewrite int_digits, H3; [done|done|done|].
  pose proof (format_d_length width z L ltac:(lia) Hz Hw). lia.
Qed.

(** The millisecond counts whose hour field has at most as many digits as
    [int] reads. *)
Lemma fields_short k :
  0 <= k < 3600000 * 10 ^ Py.int_max_str_digits ->
  0 <= field_hours k < 10 ^ Py.int_max_str_digits
  /\ 0 <= field_minutes k < 10 ^ 2
  /\ 0 <= field_seconds k < 10 ^ 2
  /\ 0 <= field_ms k < 10 ^ 3.
Proof.
  intros Hk. unfold field_hours, field_minutes, field_seconds, field_ms.
  change (10 ^ 2) with 100. change (10 ^ 3) with 1000.
  repeat split.
  - apply Z.div_pos; lia.
  - apply Z.div_lt_upper_bound; lia.
  - apply Z.div_pos; [apply Z.mod_pos_bound|]; lia.
  - apply Z.div_lt_upper_bound; [lia|].
    pose proof (Z.mod_pos_bound k 3600000). lia.
  - apply Z.div_pos; [apply Z.mod_pos_bound|]; lia.
  - apply Z.div_lt_upper_bound; [lia|].
    pose proof (Z.mod_pos_bound k 60000). lia.
  - apply Z.mod_pos_bound. lia.
  - apply Z.mod_pos_bound. lia.
Qed.

Lemma str_of_int_digits z :
  0 <= z ->
  Py.str_of_int z <> []
  /\ Forall (fun d => Py.is_digit d = true) (Py.str_of_int z).
Proof.
  intros Hz. unfold Py.str_of_int.
  replace (z <? 0) with false by (symmetry; apply Z.ltb_ge; lia).
  rewrite Z.abs_eq by done. simpl.
  destruct (digits_of_spec z Hz) as (H1 & H2 & H3). done.
Qed.

(** ** The timestamp codec *)

Lemma format_ms_fields k hours_flag :
  format_ms k hours_flag
  = (if hours_flag || (0 <? field_hours k)
     then Py.format_d 2 (field_hours k) ++ py ":" else [])
    ++ Py.format_d 2 (field_minutes k) ++ py ":"
    ++ Py.format_d 2 (field_seconds k) ++ py ","
    ++ Py.format_d 3 (field_ms k).
Proof.
  unfold format_ms, field_hours, field_minutes, field_seconds, field_ms.
  assert (E1 : k - k / 3600000 * 3600000 = k mod 3600000).
  { Z.to_euclidean_division_equations. lia. }
  rewrite E1.
  assert (E2 : k mod 3600000 - k mod 3600000 / 60000 * 60000 = k mod 60000).
  { Z.to_euclidean_division_equations. lia. }
  rewrite E2.
  assert (E3 : k mod 60000 - k mod 60000 / 1000 * 1000 = k mod 1000).
  { Z.to_euclidean_division_equations. lia. }
  rewrite E3. done.
Qed.

Lemma fields_nonneg k :
  0 <= k ->
  0 <= field_hours k /\ 0 <= field_minutes k /\ 0 <= field_seconds k
  /\ 0 <= field_ms k.
Proof.
  intros H. unfold field_hours, field_minutes, field_seconds, field_ms.
  repeat split.
  - apply Z.div_pos; lia.
  - apply Z.div_pos; [apply Z.mod_pos_bound|]; lia.
  - apply Z.div_pos; [apply Z.mod_pos_bound|]; lia.
  - apply Z.mod_pos_bound. lia.
Qed.

Lemma fields_total k :
  field_hours k * 3600 + field_minutes k * 60 + field_seconds k = k / 1000.
Proof.
  unfold field_hours, field_minutes, field_seconds.
  Z.to_euclidean_division_equations. lia.
Qed.

Ltac absent_from_digits :=
  repeat (rewrite ?not_elem_of_app, ?not_elem_of_cons);
  repeat split;
  try (by apply digits_absent); try discriminate; try apply not_elem_of_nil.

Lemma int_fields k :
  0 <= k < 3600000 * 10 ^ Py.int_max_str_digits ->
  Py.int (Py.format_d 2 (field_hours k)) = Ok (field_hours k)
  /\ Py.int (Py.format_d 2 (field_minutes k)) = Ok (field_minutes k)
  /\ Py.int (Py.format_d 2 (field_seconds k)) = Ok (field_seconds k)
  /\ Py.int (Py.format_d 3 (field_ms k)) = Ok (field_ms k).
Proof.
  intros Hk. destruct (fields_short k Hk) as (Hh & Hm & Hs & Hms).
  unfold Py.int_max_str_digits in *.
  split; [|split; [|split]].
  - apply (int_format_d 2 _ 4300); [done|done|lia].
  - apply (int_format_d 2 _ 2); [done|done|lia].
  - apply (int_format_d 2 _ 2); [done|done|lia].
  - apply (int_format_d 3 _ 3); [done|done|lia].
Qed.

(** Decoding the hour-included encoding of a millisecond count gets its
    four fields back, for the counts whose hour field [int] reads. *)
Lemma parse_format_ms k :
  0 <= k < 3600000 * 10 ^ Py.int_max_str_digits ->
  parse_timestamp (format_ms k true)
  = seconds_of_fields (field_hours k) (field_minutes k) (field_seconds k)
      (field_ms k).
Proof.
  intros Hkb. assert (0 <= k) as Hk by lia.
  destruct (int_fields k Hkb) as (Ih & Im & Is & Ims).
  rewrite format_ms_fields. simpl orb. cbv iota.
  destruct (fields_nonneg k Hk) as (Hh & Hm & Hs & Hms).
  destruct (format_d_spec 2 (field_hours k) Hh) as (_ & Dh & _).
  destruct (format_d_spec 2 (field_minutes k) Hm) as (_ & Dm & _).
  destruct (format_d_spec 2 (field_seconds k) Hs) as (_ & Ds & _).
  destruct (format_d_spec 3 (field_ms k) Hms) as (_ & Dms & _).
  unfold parse_timestamp.
  set (H := Py.format_d 2 (field_hours k)) in *.
  set (Mi := Py.format_d 2 (field_minutes k)) in *.
  set (S := Py.format_d 2 (field_seconds k)) in *.
  set (Ms := Py.format_d 3 (field_ms k)) in *.
  replace ((H ++ py ":") ++ Mi ++ py ":" ++ S ++ py "," ++ Ms)
    with ((H ++ py ":" ++ Mi ++ py ":" ++ S) ++ py "," ++ Ms)
    by (by rewrite <- !app_assoc).
  change (py ",") with ("," :: [])%char.
  rewrite split_first.
  2:{ simpl. absent_from_digits. }
  rewrite split_absent by (by apply digits_absent).
  change (py ":") with (":" :: [])%char.
  rewrite split_first by (by apply digits_absent).
  rewrite split_first by (by apply digits_absent).
  rewrite split_absent by (by apply digits_absent).
  by rewrite Ih, Im, Is, Ims.
Qed.

Lemma round_half_even_nonneg m e : 0 <= m -> 0 <= Py.round_half_even m e.
Proof.
  intros Hm. unfold Py.round_half_even. destruct e as [|p|p].
  - lia.
  - apply Z.mul_nonneg_nonneg; [done|]. apply Z.pow_nonneg. lia.
  - assert (0 < 2 ^ Z.pos p) by (apply Z.pow_pos_nonneg; lia).
    assert (0 <= m / 2 ^ Z.pos p) by (apply Z.div_pos; lia).
    repeat case_match; lia.
Qed.

Lemma round_scaled_nonneg seconds k :
  Py.ge_zero seconds = true ->
  Py.round (Py.fmul seconds Py.f1000) = Ok k -> 0 <= k.
Proof.
  intros Hge Hr. destruct seconds as [s|s| |s m e]; simpl in *.
  - injection Hr as <-. lia.
  - discriminate.
  - discriminate.
  - destruct s; [discriminate|].
    unfold Py.fmul, SFmul, Py.f1000, binary_round_aux in Hr.
    destruct (shr_fexp _ _ _ _ _) as [mrs' e'].
    destruct (shr_fexp _ _ _ _ _) as [mrs'' e''].
    destruct (shr_m mrs'') as [|m'|m']; simpl in Hr.
    + injection Hr as <-. lia.
    + destruct (e'' <=? 1024 - 53); simpl in Hr; [|discriminate].
      injection Hr as <-. by apply round_half_even_nonneg.
    + discriminate.
Qed.

(** ** Integers that convert to a double without rounding *)

Lemma digits2_pos_iter_xO m p :
  digits2_pos (Pos.iter xO m p) = (digits2_pos m + p)%positive.
Proof.
  induction p as [|p IH] using Pos.peano_ind.
  - simpl. by rewrite Pos.add_1_r.
  - rewrite Pos.iter_succ. simpl. rewrite IH. by rewrite Pos.add_succ_r.
Qed.

Lemma digits2_pos_spec m :
  2 ^ (Zpos (digits2_pos m) - 1) <= Zpos m < 2 ^ Zpos (digits2_pos m).
Proof.
  induction m as [m IH|m IH|]; cbn [digits2_pos].
  - rewrite Pos2Z.inj_succ.
    replace (Z.succ (Z.pos (digits2_pos m)) - 1)
      with (Z.succ (Z.pos (digits2_pos m) - 1)) by lia.
    rewrite !Z.pow_succ_r by lia. lia.
  - rewrite Pos2Z.inj_succ.
    replace (Z.succ (Z.pos (digits2_pos m)) - 1)
      with (Z.succ (Z.pos (digits2_pos m) - 1)) by lia.
    rewrite !Z.pow_succ_r by lia. lia.
  - by vm_compute.
Qed.

Lemma digits2_pos_le m n :
  0 <= n -> Zpos m < 2 ^ n -> Zpos (digits2_pos m) <= n.
Proof.
  intros Hn Hm. destruct (digits2_pos_spec m) as [Hlo _].
  destruct (Z_le_gt_dec (Zpos (digits2_pos m)) n) as [?|Hgt]; [done|].
  assert (2 ^ n <= 2 ^ (Zpos (digits2_pos m) - 1))
    by (apply Z.pow_le_mono_r; lia).
  lia.
Qed.

(** A mantissa of 53 bits with an exponent in range is already rounded. *)
Lemma binary_round_aux_exact s mz ez :
  Zpos (digits2_pos mz) = 53 -> -1074 <= ez <= 971 ->
  binary_round_aux 53 1024 s (Zpos mz) ez loc_Exact = S754_finite s mz ez.
Proof.
  intros Hd He. unfold binary_round_aux.
  assert (Hs : shr_fexp 53 1024 (Zpos mz) ez loc_Exact
               = (Build_shr_record (Zpos mz) false false, ez)).
  { unfold shr_fexp, fexp, emin. cbn [Zdigits2]. rewrite Hd.
    replace (Z.max (53 + ez - 53) (3 - 1024 - 53) - ez) with 0 by lia.
    done. }
  rewrite Hs. cbn [shr_m loc_of_shr_record round_nearest_even].
  rewrite Hs. cbn [shr_m].
  replace (ez <=? 1024 - 53) with true by (symmetry; apply Z.leb_le; lia).
  done.
Qed.

Lemma float_of_int_small z :
  0 <= z < 2 ^ 53 -> exists x, Py.float_of_int z = Ok x.
Proof.
  intros Hz. unfold Py.float_of_int, binary_normalize.
  destruct z as [|m|m]; [by eexists| |lia].
  unfold binary_round.
  pose proof (digits2_pos_le m 53 ltac:(lia) ltac:(lia)) as Hd.
  assert (Hd1 : 1 <= Zpos (digits2_pos m)) by lia.
  unfold shl_align, fexp, emin.
  replace (Z.max (Z.pos (digits2_pos m) + 0 - 53) (3 - 1024 - 53) - 0)
    with (Z.pos (digits2_pos m) - 53) by lia.
  destruct (Z.pos (digits2_pos m) - 53) as [|p|p] eqn:E; [|lia|].
  - rewrite binary_round_aux_exact by lia. by eexists.
  - replace (Z.max (Z.pos (digits2_pos m) + 0 - 53) (3 - 1024 - 53))
      with (Z.neg p) by lia.
    rewrite binary_round_aux_exact; [by eexists| |lia].
    rewrite digits2_pos_iter_xO. lia.
Qed.

(** ** The size of a rounded double *)

Lemma iter_pos_invariant {A} (f : A -> A) (P : Z -> A -> Prop) :
  (forall n x, 0 <= n -> P n x -> P (n + 1) (f x)) ->
  forall p n x, 0 <= n -> P n x -> P (n + Zpos p) (SpecFloat.iter_pos f p x).
Proof.
  intros Hstep. induction p as [p IH|p IH|]; intros n x Hn Hx; cbn [SpecFloat.iter_pos].
  - replace (n + Z.pos p~1) with (n + 1 + Z.pos p + Z.pos p) by lia.
    apply IH; [lia|]. apply IH; [lia|]. by apply Hstep.
  - replace (n + Z.pos p~0) with (n + Z.pos p + Z.pos p) by lia.
    apply IH; [lia|]. by apply IH.
  - by apply Hstep.
Qed.

Lemma shr_1_nonneg (mrs : shr_record) :
  0 <= shr_m mrs ->
  shr_1 mrs
  = Build_shr_record (Z.div2 (shr_m mrs)) (Z.odd (shr_m mrs))
      (shr_r mrs || shr_s mrs).
Proof.
  destruct mrs as [m r s]. cbn [shr_m shr_r shr_s]. intros Hm.
  destruct m as [|[p|p|]|]; try done; lia.
Qed.

Lemma shr_m_iter (p : positive) (mrs : shr_record) :
  0 <= shr_m mrs ->
  shr_m (SpecFloat.iter_pos shr_1 p mrs) = shr_m mrs / 2 ^ Zpos p.
Proof.
  intros Hm.
  assert (forall n x, 0 <= n -> shr_m x = shr_m mrs / 2 ^ n ->
            shr_m (shr_1 x) = shr_m mrs / 2 ^ (n + 1)) as Hstep.
  { intros n x Hn Hx.
    assert (0 < 2 ^ n) as Hp by (apply Z.pow_pos_nonneg; lia).
    assert (0 <= shr_m x) as Hx0 by (rewrite Hx; apply Z.div_pos; lia).
    rewrite shr_1_nonneg by done. cbn [shr_m].
    rewrite Z.div2_div, Hx, Z.div_div, Z.pow_add_r by lia. done. }
  apply (iter_pos_invariant shr_1 (fun n x => shr_m x = shr_m mrs / 2 ^ n)
           Hstep p 0 mrs); [done|].
  by rewrite Z.pow_0_r, Z.div_1_r.
Qed.

(** Shifting to the exponent of the format leaves at most 53 bits. *)
Lemma shr_fexp_bound (m e : Z) :
  0 <= m -> 0 <= shr_m (shr_fexp 53 1024 m e loc_Exact).1 < 2 ^ 53.
Proof.
  intros Hm.
  assert (0 <= Zdigits2 m /\ m < 2 ^ Zdigits2 m) as [Hd0 Hd].
  { destruct m as [|p|p]; [done| |lia]. cbn [Zdigits2].
    destruct (digits2_pos_spec p). lia. }
  unfold shr_fexp, shr, fexp, emin. cbn [shr_record_of_loc].
  set (d := Zdigits2 m) in *.
  assert (0 < 2 ^ d) as Hpd by (apply Z.pow_pos_nonneg; lia).
  destruct (Z.max (d + e - 53) (3 - 1024 - 53) - e) as [|p|p] eqn:En;
    cbn [fst shr_m].
  - assert (2 ^ d <= 2 ^ 53) by (apply Z.pow_le_mono_r; lia). lia.
  - rewrite shr_m_iter by done. cbn [shr_m].
    assert (0 < 2 ^ Z.pos p) as Hpp by (apply Z.pow_pos_nonneg; lia).
    split; [apply Z.div_pos; lia|].
    apply Z.div_lt_upper_bound; [done|].
    rewrite <- Z.pow_add_r by lia.
    assert (2 ^ d <= 2 ^ (Z.pos p + 53)) by (apply Z.pow_le_mono_r; lia).
    lia.
  - assert (2 ^ d <= 2 ^ 53) by (apply Z.pow_le_mono_r; lia). lia.
Qed.

Lemma round_nearest_even_nonneg (mrs : shr_record) :
  0 <= shr_m mrs ->
  0 <= round_nearest_even (shr_m mrs) (loc_of_shr_record mrs).
Proof.
  destruct mrs as [m [] []]; cbn [shr_m loc_of_shr_record round_nearest_even];
    intros H; try destruct (Z.even m); lia.
Qed.

(** A double that comes out of a rounding has a mantissa below [2^53] and an
    exponent of at most 971. *)
Lemma binary_round_aux_bound (s s' : bool) (M m : positive) (E e : Z) :
  binary_round_aux 53 1024 s (Zpos M) E loc_Exact = S754_finite s' m e ->
  Zpos m < 2 ^ 53 /\ e <= 971.
Proof.
  unfold binary_round_aux.
  pose proof (shr_fexp_bound (Zpos M) E ltac:(lia)) as [H1 _].
  destruct (shr_fexp 53 1024 (Zpos M) E loc_Exact) as [mrs e'].
  cbn [fst] in H1. apply round_nearest_even_nonneg in H1.
  pose proof (shr_fexp_bound _ e' H1) as H2.
  destruct (shr_fexp 53 1024 _ e' loc_Exact) as [mrs' e''].
  cbn [fst] in H2.
  destruct (shr_m mrs') as [|p|p]; [done| |done].
  destruct (e'' <=? 1024 - 53) eqn:Ee; [|done].
  intros [= _ <- <-]. apply Z.leb_le in Ee. lia.
Qed.

(** The millisecond count of a double is below [2^1024]. *)
Lemma round_scaled_bound seconds k :
  Py.round (Py.fmul seconds Py.f1000) = Ok k -> k < 2 ^ 1024.
Proof.
  assert (0 < 2 ^ 1024) as H0 by (by apply Z.pow_pos_nonneg).
  destruct seconds as [s|s| |s m e]; cbn; try done.
  - intros [= <-]. done.
  - unfold Py.fmul, SFmul, Py.f1000.
    destruct (binary_round_aux _ _ _ _ _ _) as [s'|s'| |s' m' e'] eqn:Er;
      cbn [Py.round]; try done.
    + intros [= <-]. done.
    + apply binary_round_aux_bound in Er as [Hm He]. intros [= <-].
      pose proof (round_half_even_nonneg (Zpos m') e' ltac:(lia)) as Hr.
      destruct s'; cbn [cond_Zopp]; [lia|].
      unfold Py.round_half_even. destruct e' as [|p|p].
      * assert (2 ^ 53 <= 2 ^ 1024) by (apply Z.pow_le_mono_r; lia). lia.
      * assert (2 ^ Z.pos p <= 2 ^ 971) by (apply Z.pow_le_mono_r; lia).
        assert (0 < 2 ^ Z.pos p) by (apply Z.pow_pos_nonneg; lia).
        replace (2 ^ 1024) with (2 ^ 53 * 2 ^ 971)
          by (by rewrite <- Z.pow_add_r).
        nia.
      * assert (0 < 2 ^ Z.pos p) as Hp by (apply Z.pow_pos_nonneg; lia).
        assert (Z.pos m' / 2 ^ Z.pos p <= Z.pos m').
        { apply Z.div_le_upper_bound; [done|]. nia. }
        assert (2 ^ 53 + 1 < 2 ^ 1024).
        { assert (2 ^ 54 <= 2 ^ 1024) by (apply Z.pow_le_mono_r; lia).
          change (2 ^ 54) with (2 * 2 ^ 53) in *. lia. }
        repeat case_match; lia.
Qed.

(** Every millisecond count of a double has an hour field that [int]
    reads. *)
Lemma count_short k :
  0 <= k < 2 ^ 1024 -> 0 <= k < 3600000 * 10 ^ Py.int_max_str_digits.
Proof.
  intros Hr. split; [lia|].
  assert (2 ^ 1024 <= 10 ^ 1024) by (apply Z.pow_le_mono_l; lia).
  assert (10 ^ 1024 <= 10 ^ Py.int_max_str_digits)
    by (apply Z.pow_le_mono_r; unfold Py.int_max_str_digits; lia).
  assert (0 < 10 ^ Py.int_max_str_digits)
    by (apply Z.pow_pos_nonneg; unfold Py.int_max_str_digits; lia).
  lia.
Qed.

Lemma round_scaled_short seconds k :
  Py.ge_zero seconds = true ->
  Py.round (Py.fmul seconds Py.f1000) = Ok k ->
  0 <= k < 3600000 * 10 ^ Py.int_max_str_digits.
Proof.
  intros Hge Hr. apply count_short.
  split; [by apply (round_scaled_nonneg seconds)|].
  by apply round_scaled_bound in Hr.
Qed.

Lemma seconds_of_ms_count_ok k :
  0 <= k < 1000 * 2 ^ 53 -> exists x, seconds_of_ms_count k = Ok x.
Proof.
  intros Hk. unfold seconds_of_ms_count, Py.int_truediv, Py.int_add.
  destruct (float_of_int_small (k mod 1000)) as [x ->].
  { pose proof (Z.mod_pos_bound k 1000). lia. }
  destruct (float_of_int_small (k / 1000)) as [y ->].
  { split; [apply Z.div_pos; lia|]. apply Z.div_lt_upper_bound; lia. }
  by eexists.
Qed.

(** Encoding and decoding a non-negative time returns the double of its
    millisecond count. *)
Lemma roundtrip_ms_count seconds k :
  Py.ge_zero seconds = true ->
  Py.round (Py.fmul seconds Py.f1000) = Ok k ->
  0 <= k
  /\ format_timestamp seconds true = Ok (format_ms k true)
  /\ parse_timestamp (format_ms k true) = seconds_of_ms_count k
  /\ roundtrip seconds = seconds_of_ms_count k.
Proof.
  intros Hge Hr.
  assert (Hk : 0 <= k) by (by apply (round_scaled_nonneg seconds)).
  assert (Hf : format_timestamp seconds true = Ok (format_ms k true)).
  { unfold format_timestamp. rewrite Hge, Hr. done. }
  assert (Hp : parse_timestamp (format_ms k true) = seconds_of_ms_count k).
  { rewrite parse_format_ms by (by apply (round_scaled_short seconds)).
    unfold seconds_of_fields, seconds_of_ms_count.
    by rewrite fields_total. }
  repeat split; try done.
  unfold roundtrip. rewrite Hf. exact Hp.
Qed.

Lemma roundtrip_in_range t :
  time_in_range t -> exists x, roundtrip t = Ok x.
Proof.
  intros (k & Hge & Hr & Hk).
  destruct (roundtrip_ms_count t k Hge Hr) as (Hk0 & _ & _ & ->).
  by apply seconds_of_ms_count_ok.
Qed.

(** C6, the exact law fails: the double nearest to 1.118 is encoded as
    00:00:01,118, and decoding adds 1 and 118/1000.0, which is the next
    double below. *)
Lemma timestamp_roundtrip_inexact :
  Py.ge_zero (seconds_of_ms 1118) = true
  /\ format_timestamp (seconds_of_ms 1118) true = Ok (py "00:00:01,118")
  /\ ~ roundtrip_exact (seconds_of_ms 1118).
Proof.
  split; [by vm_compute|]. split; [by vm_compute|].
  intros (x & Hx & Heq). vm_compute in Hx. injection Hx as <-.
  vm_compute in Heq. discriminate.
Qed.

(** C6, amended: the encoding of a non-negative [seconds] carries its
    millisecond count [k = round(seconds * 1000.0)] exactly, and decoding
    the hour-included encoding returns the double computed from that count,
    [k // 1000 + (k % 1000) / 1000.0]; below [2^53] seconds the decoder does
    return a value. *)
Theorem timestamp_roundtrip_ms (seconds : spec_float) (k : Z) :
  Py.ge_zero seconds = true ->
  Py.round (Py.fmul seconds Py.f1000) = Ok k ->
  0 <= k
  /\ format_timestamp seconds true = Ok (format_ms k true)
  /\ parse_timestamp (format_ms k true) = seconds_of_ms_count k
  /\ roundtrip seconds = seconds_of_ms_count k
  /\ (k < 1000 * 2 ^ 53 -> exists x, roundtrip seconds = Ok x).
Proof.
  intros Hge Hr.
  destruct (roundtrip_ms_count seconds k Hge Hr) as (H1 & H2 & H3 & H4).
  repeat split; try done.
  intros Hk. apply roundtrip_in_range. by exists k.
Qed.

Lemma timestamp_roundtrip_ms_witness :
  format_timestamp (seconds_of_ms 3725400) true = Ok (py "01:02:05,400")
  /\ roundtrip (seconds_of_ms 3725400) = seconds_of_ms_count 3725400.
Proof.
  destruct (timestamp_roundtrip_ms (seconds_of_ms 3725400) 3725400)
    as (_ & H1 & _ & H2 & _); [by vm_compute | by vm_compute |].
  split; [exact H1 | exact H2].
Defined.

(** *** What [int] accepts *)

Lemma digits_acc_chars s :
  forall acc n, Py.digits_acc acc s = Some n ->
  Forall (fun c => int_char c = true) s.
Proof.
  induction s as [|c s IH]; intros acc n H; [done|].
  cbn [Py.digits_acc] in H.
  destruct (Py.is_digit c) eqn:Hc.
  - constructor; [unfold int_char; rewrite Hc; by rewrite orb_true_r|].
    by eapply IH.
  - destruct (Py.ascii_eqb c "_") eqn:Hu; [|done].
    constructor; [unfold int_char; rewrite Hu; by rewrite !orb_true_r|].
    destruct s as [|d s']; [done|].
    destruct (Py.is_digit d) eqn:Hd; [|done].
    apply (IH acc n). cbn [Py.digits_acc]. rewrite Hd. exact H.
Qed.

Lemma int_ok_chars s z :
  Py.int s = Ok z -> Forall (fun c => int_char c = true) s.
Proof.
  unfold Py.int. intros H.
  destruct (strip_with_split Py.int_space s) as (l & r & E & Hl & Hr).
  set (t := Py.strip_with Py.int_space s) in *.
  assert (Ht : Forall (fun c => int_char c = true) t).
  { destruct t as [|c t'].
    - done.
    - assert (Hbody : forall body, Py.parse_digits body <> None ->
                Forall (fun c => int_char c = true) body).
      { intros body Hb. destruct body as [|d body]; [done|].
        simpl in Hb. destruct (Py.is_digit d) eqn:Hd; [|done].
        constructor; [unfold int_char; rewrite Hd; by rewrite orb_true_r|].
        destruct (Py.digits_acc (Py.digit_val d) body) eqn:Ea; [|done].
        by eapply digits_acc_chars. }
      destruct (Py.ascii_eqb c "-") eqn:E1.
      { constructor; [unfold int_char; rewrite E1; by rewrite !orb_true_r|].
        apply Hbody. by destruct (Py.parse_digits t'). }
      destruct (Py.ascii_eqb c "+") eqn:E2.
      { constructor; [unfold int_char; rewrite E2; by rewrite !orb_true_r|].
        apply Hbody. by destruct (Py.parse_digits t'). }
      apply Hbody. by destruct (Py.parse_digits (c :: t')). }
  rewrite E. apply Forall_app. split.
  - eapply Forall_impl; [exact Hl|]. intros c Hc. unfold int_char. by rewrite Hc.
  - apply Forall_app. split; [done|].
    eapply Forall_impl; [exact Hr|]. intros c Hc. unfold int_char. by rewrite Hc.
Qed.

Lemma int_raises s e : Py.int s = Raise e -> e = ValueError.
Proof. unfold Py.int. repeat case_match; congruence. Qed.

Lemma int_ok_absent (c : ascii) s z :
  int_char c = false -> Py.int s = Ok z -> c ∉ s.
Proof.
  intros Hc Hs Hin. apply int_ok_chars in Hs.
  rewrite Forall_forall in Hs. apply Hs in Hin. congruence.
Qed.

Lemma seconds_of_fields_no_ValueError h m s ms :
  seconds_of_fields h m s ms <> Raise ValueError.
Proof.
  unfold seconds_of_fields, Py.int_truediv, Py.int_add, Py.float_of_int.
  destruct (binary_normalize 53 1024 ms 0 false); simpl; try done;
    destruct (binary_normalize 53 1024 _ 0 false); simpl; done.
Qed.

Lemma parse_timestamp_shape ts h m s ms :
  timestamp_shape ts h m s ms ->
  parse_timestamp ts = seconds_of_fields h m s ms.
Proof.
  intros (hs & mins & ss & mss & -> & Hh & Hm & Hs & Hms).
  unfold parse_timestamp.
  replace (hs ++ py ":" ++ mins ++ py ":" ++ ss ++ py "," ++ mss)
    with ((hs ++ py ":" ++ mins ++ py ":" ++ ss) ++ py "," ++ mss)
    by (by rewrite <- !app_assoc).
  change (py ",") with ("," :: [])%char.
  rewrite split_first.
  2:{ simpl. repeat (rewrite ?not_elem_of_app, ?not_elem_of_cons).
      repeat split; try discriminate;
        try (by eapply (int_ok_absent ","%char); eauto). }
  rewrite split_absent by (by eapply (int_ok_absent ","%char); eauto).
  change (py ":") with (":" :: [])%char.
  rewrite split_first by (by eapply (int_ok_absent ":"%char); eauto).
  rewrite split_first by (by eapply (int_ok_absent ":"%char); eauto).
  rewrite split_absent by (by eapply (int_ok_absent ":"%char); eauto).
  rewrite Hh, Hm, Hs, Hms. done.
Qed.

Lemma parse_timestamp_inv ts :
  parse_timestamp ts <> Raise ValueError ->
  exists h m s ms, timestamp_shape ts h m s ms.
Proof.
  unfold parse_timestamp. intros H.
  pose proof (join_split "," [] ts) as Ej.
  change ("," :: [])%char with (py ",") in Ej.
  destruct (Py.split (py ",") ts) as [|hms [|mss [|? ?]]]; try done.
  pose proof (join_split ":" [] hms) as Ec.
  change (":" :: [])%char with (py ":") in Ec.
  destruct (Py.split (py ":") hms) as [|hs [|mins [|ss [|? ?]]]]; try done.
  destruct (Py.int hs) as [h|] eqn:Hh;
    [|by apply int_raises in Hh as ->].
  destruct (Py.int mins) as [m|] eqn:Hm;
    [|by apply int_raises in Hm as ->].
  destruct (Py.int ss) as [s|] eqn:Hs;
    [|by apply int_raises in Hs as ->].
  destruct (Py.int mss) as [ms|] eqn:Hms;
    [|by apply int_raises in Hms as ->].
  exists h, m, s, ms, hs, mins, ss, mss. split; [|done].
  rewrite <- Ej, <- Ec. simpl. repeat (rewrite <- app_assoc; simpl). done.
Qed.

Lemma format_ms_shape k :
  0 <= k < 3600000 * 10 ^ Py.int_max_str_digits ->
  timestamp_shape (format_ms k true) (field_hours k) (field_minutes k)
    (field_seconds k) (field_ms k).
Proof.
  intros Hk. destruct (int_fields k Hk) as (Ih & Im & Is & Ims).
  exists (Py.format_d 2 (field_hours k)), (Py.format_d 2 (field_minutes k)),
    (Py.format_d 2 (field_seconds k)), (Py.format_d 3 (field_ms k)).
  split; [|done].
  rewrite format_ms_fields. simpl. by rewrite <- app_assoc.
Qed.

(** Below one hour the encoding without the hour field is [MM:SS,mmm], and
    the decoder refuses it. *)
Lemma parse_hour_omitted k :
  0 <= k < 3600000 ->
  parse_timestamp (format_ms k false) = Raise ValueError.
Proof.
  intros Hk. rewrite format_ms_fields.
  assert (Hh : field_hours k = 0).
  { unfold field_hours. apply Z.div_small. lia. }
  rewrite Hh. change (false || (0 <? 0)) with false. cbv iota.
  destruct (fields_nonneg k) as (_ & Hm & Hs & Hms); [lia|].
  destruct (format_d_spec 2 (field_minutes k) Hm) as (_ & Dm & _).
  destruct (format_d_spec 2 (field_seconds k) Hs) as (_ & Ds & _).
  destruct (format_d_spec 3 (field_ms k) Hms) as (_ & Dms & _).
  unfold parse_timestamp.
  set (Mi := Py.format_d 2 (field_minutes k)) in *.
  set (S := Py.format_d 2 (field_seconds k)) in *.
  set (Ms := Py.format_d 3 (field_ms k)) in *.
  replace ([] ++ Mi ++ py ":" ++ S ++ py "," ++ Ms)
    with ((Mi ++ py ":" ++ S) ++ py "," ++ Ms)
    by (by rewrite <- !app_assoc).
  change (py ",") with ("," :: [])%char.
  rewrite split_first by (simpl; absent_from_digits).
  rewrite split_absent by (by apply digits_absent).
  change (py ":") with (":" :: [])%char.
  rewrite split_first by (by apply digits_absent).
  rewrite split_absent by (by apply digits_absent).
  done.
Qed.

(** C8, the claim fails on the hour-omitted form: [encode(125.4, false)] is
    02:05,400 and [decode] raises on it. *)
Lemma parse_timestamp_rejects_hour_omitted :
  format_timestamp (seconds_of_ms 125400) false = Ok (py "02:05,400")
  /\ parse_timestamp (py "02:05,400") = Raise ValueError.
Proof. split; by vm_compute. Qed.

Lemma int_too_long s :
  Py.int_max_str_digits < Z.of_nat (length (List.filter Py.is_digit s)) ->
  Py.int s = Raise ValueError.
Proof.
  intros H. destruct (Py.int s) as [z|e] eqn:E; [|by apply int_raises in E as ->].
  exfalso. unfold Py.int in E.
  destruct (strip_with_split Py.int_space s) as (l & r & Es & Hl & Hr).
  set (t := Py.strip_with Py.int_space s) in *.
  assert (forall body,
            (Z.of_nat (length (List.filter Py.is_digit t))
             <= Z.of_nat (length (List.filter Py.is_digit body))) ->
            match Py.parse_digits body with
            | Some n =>
              if Py.int_max_str_digits
                 <? Z.of_nat (length (List.filter Py.is_digit body))
              then Raise ValueError else Ok n
            | None => Raise ValueError
            end = Raise ValueError) as Hbody.
  { intros body Hb. destruct (Py.parse_digits body); [|done].
    replace (_ <? _) with true; [done|]. symmetry. apply Z.ltb_lt.
    assert (List.filter Py.is_digit s = List.filter Py.is_digit t) as Ef.
    { rewrite Es, !List.filter_app.
      assert (forall u, Forall (fun c => Py.int_space c = true) u ->
                List.filter Py.is_digit u = []) as Hsp.
      { induction u as [|c u IH]; intros Hu; [done|].
        apply Forall_cons in Hu as [Hc Hu]. cbn [List.filter].
        destruct (Py.is_digit c) eqn:Hd; [|by apply IH].
        apply is_digit_not_int_space in Hd. congruence. }
      by rewrite (Hsp l Hl), (Hsp r Hr), app_nil_r. }
    rewrite Ef in H. lia. }
  destruct t as [|c t'].
  - by specialize (Hbody [] ltac:(done)).
  - destruct (Py.ascii_eqb c "-") eqn:E1.
    { apply ascii_eqb_eq in E1 as ->.
      specialize (Hbody t' ltac:(done)).
      destruct (Py.parse_digits t'); [|done].
      by destruct (_ <? _). }
    destruct (Py.ascii_eqb c "+") eqn:E2.
    { apply ascii_eqb_eq in E2 as ->.
      specialize (Hbody t' ltac:(done)).
      destruct (Py.parse_digits t'); [|done].
      by destruct (_ <? _). }
    specialize (Hbody (c :: t') ltac:(done)).
    destruct (Py.parse_digits (c :: t')); [|done].
    by destruct (_ <? _).
Qed.

Lemma format_timestamp_shape seconds ts :
  format_timestamp seconds true = Ok ts ->
  exists h m s ms, timestamp_shape ts h m s ms.
Proof.
  unfold format_timestamp. intros H.
  destruct (Py.ge_zero seconds) eqn:Hge; [|done]. simpl in H.
  destruct (Py.round _) as [k|] eqn:Hr; [|done]. simpl in H.
  injection H as <-.
  exists (field_hours k), (field_minutes k), (field_seconds k), (field_ms k).
  apply format_ms_shape. by apply (round_scaled_short seconds).
Qed.

(** C8, amended: [decode] accepts exactly the texts [H:M:S,ms] whose four
    components are integer literals in the sense of [int()], the
    hour-included form; a run of more digits than the interpreter's cap is
    no such literal.  On the hour-included encoding of a millisecond count
    it finds the four fields again, as long as the hour field is within the
    cap, which it is for everything the encoder returns.  It raises
    [ValueError] exactly on the texts that are not of that shape, the
    hour-omitted form [MM:SS,mmm] among them. *)
Theorem parse_timestamp_accepts :
  (forall ts h m s ms,
     timestamp_shape ts h m s ms ->
     parse_timestamp ts = seconds_of_fields h m s ms)
  /\ (forall ts,
        parse_timestamp ts = Raise ValueError
        <-> ~ exists h m s ms, timestamp_shape ts h m s ms)
  /\ (forall k, 0 <= k < 3600000 * 10 ^ Py.int_max_str_digits ->
        timestamp_shape (format_ms k true) (field_hours k) (field_minutes k)
          (field_seconds k) (field_ms k))
  /\ (forall seconds ts,
        format_timestamp seconds true = Ok ts ->
        exists h m s ms, timestamp_shape ts h m s ms)
  /\ (forall k, 0 <= k < 3600000 ->
        parse_timestamp (format_ms k false) = Raise ValueError)
  /\ (forall s,
        Py.int_max_str_digits < Z.of_nat (length (List.filter Py.is_digit s)) ->
        Py.int s = Raise ValueError).
Proof.
  split; [exact parse_timestamp_shape|].
  split; [|split; [exact format_ms_shape|
           split; [exact format_timestamp_shape|
           split; [exact parse_hour_omitted | exact int_too_long]]]].
  intros ts. split.
  - intros H (h & m & s & ms & Hs).
    apply parse_timestamp_shape in Hs. rewrite H in Hs.
    symmetry in Hs. by apply seconds_of_fields_no_ValueError in Hs.
  - intros H. destruct (parse_timestamp ts) as [x|e] eqn:E.
    + destruct H. apply parse_timestamp_inv. by rewrite E.
    + destruct e; try done; destruct H; apply parse_timestamp_inv;
        by rewrite E.
Qed.

Lemma parse_timestamp_accepts_witness :
  parse_timestamp (py "01:02:05,400") = seconds_of_fields 1 2 5 400
  /\ parse_timestamp (format_ms 125400 false) = Raise ValueError
  /\ Py.int (repeat "9"%char 4301) = Raise ValueError.
Proof.
  destruct parse_timestamp_accepts as (H1 & _ & _ & _ & H4 & H5).
  split; [|split].
  - apply H1. exists (py "01"), (py "02"), (py "05"), (py "400").
    repeat split; by vm_compute.
  - apply H4. lia.
  - apply H5. vm_compute. reflexivity.
Defined.

(** ** The reader *)

Section Reader.

Variable translator : str -> str -> result str.
Variable target_lang : str.

Lemma text_lines_join (blk : list str) :
  Py.join (py " ") (if (2 <? length blk)%nat then drop 2 blk else [[]])
  = Py.join (py " ") (drop 2 blk).
Proof.
  destruct (2 <? length blk)%nat eqn:E; [done|].
  apply Nat.ltb_ge in E. rewrite drop_ge by done. done.
Qed.

Lemma parse_blocks_spec (blocks : list (list str)) (acc : list segment) :
  parse_blocks translator target_lang blocks acc
  = (segs ← map_result (parse_block translator target_lang)
           (List.filter kept blocks);
     Ok (acc ++ segs)).
Proof.
  revert acc. induction blocks as [|blk blocks IH]; intros acc.
  - simpl. by rewrite app_nil_r.
  - cbn [parse_blocks List.filter]. unfold kept at 1.
    destruct (length blk <? 2)%nat eqn:E1.
    { apply Nat.ltb_lt in E1.
      replace (2 <=? length blk)%nat with false
        by (symmetry; apply Nat.leb_gt; lia).
      simpl. apply IH. }
    apply Nat.ltb_ge in E1.
    replace (2 <=? length blk)%nat with true
      by (symmetry; apply Nat.leb_le; lia).
    destruct (Py.contains (py "-->") (nth 1 blk [])) eqn:E2;
      cbn [negb andb]; [|apply IH].
    cbn [map_result].
    remember (map_result (parse_block translator target_lang)
           (List.filter kept blocks)) as R eqn:ER.
    clear ER. unfold parse_block. rewrite text_lines_join.
    destruct (map Py.strip (Py.split (py "-->") (nth 1 blk [])))
      as [|s1 [|s2 [|? ?]]]; try reflexivity.
    destruct (parse_timestamp s1) as [x1|]; [|done].
    destruct (parse_timestamp s2) as [x2|]; [|done].
    destruct (translate_text _ _ _) as [t|]; [|done].
    cbn [mbind result_bind]. rewrite IH.
    destruct R as [segs|]; [|done].
    cbn [mbind result_bind]. by rewrite <- app_assoc.
Qed.

End Reader.

Lemma translate_text_echo text lang : translate_text echo text lang = Ok text.
Proof. unfold translate_text, echo. by destruct (_ || _). Qed.

Lemma map_result_app {A B} (f : A -> result B) xs ys :
  map_result f (xs ++ ys)
  = (l ← map_result f xs; r ← map_result f ys; Ok (l ++ r)).
Proof.
  induction xs as [|x xs IH]; simpl.
  - by destruct (map_result f ys).
  - destruct (f x); [|done]. simpl. rewrite IH.
    destruct (map_result f xs); [|done]. simpl.
    by destruct (map_result f ys).
Qed.

Lemma map_result_ok {A B} (f : A -> result B) xs :
  Forall (fun x => exists y, f x = Ok y) xs ->
  exists ys, map_result f xs = Ok ys.
Proof.
  induction xs as [|x xs IH]; intros H; [by eexists|].
  apply Forall_cons in H as [[y Hy] H].
  destruct (IH H) as [ys Hys]. simpl. rewrite Hy, Hys. by eexists.
Qed.

Lemma map_result_Forall2 {A B} (f : A -> result B) xs ys :
  map_result f xs = Ok ys -> Forall2 (fun x y => f x = Ok y) xs ys.
Proof.
  revert ys. induction xs as [|x xs IH]; intros ys H; simpl in H.
  - injection H as <-. constructor.
  - destruct (f x) as [y|] eqn:E; [|done]. simpl in H.
    destruct (map_result f xs) as [ys'|]; [|done]. simpl in H.
    injection H as <-. constructor; [done|]. by apply IH.
Qed.

(** C9, the claim fails: a block whose timing line holds an arrow but no
    timestamps makes the whole read raise, it is not dropped; and the text
    of a kept block is trimmed after the lines are joined. *)
Lemma read_srt_unparseable_timing_raises :
  read_srt (py "1" ++ [nl] ++ py "soon --> later" ++ [nl] ++ py "hello"
            ++ [nl] ++ [nl])
  = Raise ValueError
  /\ read_srt (py "1" ++ [nl] ++ py "00:00:01,000 --> 00:00:02,000" ++ [nl]
               ++ py " hi " ++ [nl] ++ py "you" ++ [nl] ++ [nl])
     = Ok [Segment (seconds_of_ms 1000) (seconds_of_ms 2000) (py "hi  you")]
  /\ Py.join (py " ") [py " hi "; py "you"] <> py "hi  you".
Proof. split; [by vm_compute|]. split; [by vm_compute|]. by vm_compute. Qed.

(** C9, amended: the reader drops, without raising, every block of fewer
    than two lines and every block whose second line holds no arrow; each
    other block yields one segment, in source order, whose text is the
    lines from index 2 on joined by spaces and then trimmed (empty when
    there are none); a kept block whose timing line cannot be parsed is
    fatal: the read raises. *)
Theorem read_srt_blocks (content : str) :
  let blocks := group_blocks (file_lines content) [] [] in
  read_srt content = map_result (parse_block echo []) (List.filter kept blocks)
  /\ (forall blk, (length blk < 2)%nat -> kept blk = false)
  /\ (forall blk, Py.contains (py "-->") (nth 1 blk []) = false ->
        kept blk = false)
  /\ (forall blk seg, parse_block echo [] blk = Ok seg ->
        seg_text seg = Py.strip (Py.join (py " ") (drop 2 blk))
        /\ ((length blk <= 2)%nat -> seg_text seg = []))
  /\ (forall before blk after e,
        blocks = before ++ blk :: after ->
        Forall (fun b => kept b = true -> is_ok (parse_block echo [] b) = true)
          before ->
        kept blk = true -> parse_block echo [] blk = Raise e ->
        read_srt content = Raise e).
Proof.
  intros blocks.
  assert (E : read_srt content
              = map_result (parse_block echo []) (List.filter kept blocks)).
  { unfold read_srt. fold echo. rewrite parse_blocks_spec. fold blocks.
    by destruct (map_result _ _). }
  split; [exact E|]. split; [|split; [|split]].
  - intros blk H. unfold kept.
    replace (2 <=? length blk)%nat with false
      by (symmetry; apply Nat.leb_gt; lia). done.
  - intros blk H. unfold kept. rewrite H. apply andb_false_r.
  - intros blk seg H. unfold parse_block in H.
    destruct (map Py.strip _) as [|s1 [|s2 [|? ?]]]; try done.
    simpl in H.
    destruct (parse_timestamp s1) as [x1|]; [|done]. simpl in H.
    destruct (parse_timestamp s2) as [x2|]; [|done]. simpl in H.
    rewrite translate_text_echo in H. simpl in H. injection H as <-.
    split; [done|]. intros Hl. simpl. by rewrite drop_ge.
  - intros before blk after e Hb Hbefore Hk Hblk.
    rewrite E, Hb, List.filter_app. cbn [List.filter]. rewrite Hk.
    rewrite map_result_app.
    assert (Hok : exists l,
              map_result (parse_block echo []) (List.filter kept before)
              = Ok l).
    { clear Hb. induction before as [|b before IH]; [by exists []|].
      apply Forall_cons in Hbefore as [Hb' Hbefore].
      cbn [List.filter]. destruct (kept b) eqn:Ekb; [|by apply IH].
      cbn [map_result]. destruct (parse_block echo [] b) as [y|] eqn:Ey.
      - destruct (IH Hbefore) as [l ->]. by eexists.
      - by specialize (Hb' eq_refl). }
    destruct Hok as [l ->]. simpl. by rewrite Hblk.
Qed.

Lemma read_srt_blocks_witness :
  read_srt (py "orphan" ++ [nl] ++ [nl]
            ++ py "1" ++ [nl] ++ py "00:00:01,000 --> 00:00:02,000" ++ [nl]
            ++ py "hi" ++ [nl] ++ py "you" ++ [nl] ++ [nl]
            ++ py "2" ++ [nl] ++ py "no arrow" ++ [nl] ++ [nl])
  = Ok [Segment (seconds_of_ms 1000) (seconds_of_ms 2000) (py "hi you")]
  /\ kept [py "orphan"] = false.
Proof.
  split.
  - etransitivity; [apply read_srt_blocks|]. by vm_compute.
  - apply read_srt_blocks; [exact [] | simpl; lia].
Defined.

(** ** The writer, read back *)

Lemma chars_absent (P : ascii -> bool) (x : ascii) (s : str) :
  P x = false -> Forall (fun c => P c = true) s -> x ∉ s.
Proof.
  intros Hx Hs Hin. rewrite Forall_forall in Hs.
  apply Hs in Hin. congruence.
Qed.

Lemma lstrip_with_none p s :
  Forall (fun c => p c = false) s -> Py.lstrip_with p s = s.
Proof.
  destruct s as [|c s]; [done|]. intros H.
  apply Forall_cons in H as [H _]. by apply lstrip_with_id.
Qed.

Lemma lstrip_with_drop p l s :
  Forall (fun c => p c = true) l ->
  Py.lstrip_with p (l ++ s) = Py.lstrip_with p s.
Proof.
  induction l as [|c l IH]; intros H; [done|].
  apply Forall_cons in H as [Hc H]. simpl. rewrite Hc. by apply IH.
Qed.

Lemma rstrip_with_drop p s r :
  Forall (fun c => p c = true) r ->
  Py.rstrip_with p (s ++ r) = Py.rstrip_with p s.
Proof.
  intros H. unfold Py.rstrip_with. rewrite rev_app_distr.
  rewrite lstrip_with_drop; [done|]. by apply Forall_rev.
Qed.

(** Padding with stripped characters does not change what [strip] finds. *)
Lemma strip_with_pad p l s r c t :
  s = c :: t -> p c = false ->
  Forall (fun c => p c = true) l -> Forall (fun c => p c = true) r ->
  Py.strip_with p (l ++ s ++ r) = Py.strip_with p s.
Proof.
  intros -> Hc Hl Hr. unfold Py.strip_with.
  rewrite lstrip_with_drop by done.
  change ((c :: t) ++ r) with (c :: (t ++ r)).
  rewrite !lstrip_with_id by done.
  change (c :: t ++ r) with ((c :: t) ++ r).
  by apply rstrip_with_drop.
Qed.

Lemma strip_nonblank c t : Py.isspace c = false -> Py.strip (c :: t) <> [].
Proof.
  intros H. unfold Py.strip, Py.strip_with. rewrite lstrip_with_id by done.
  destruct (rstrip_with_head Py.isspace c t H) as [s' ->]. done.
Qed.

Lemma universal_newlines_nocr s : cr ∉ s -> universal_newlines s = s.
Proof.
  induction s as [|c s IH]; intros H; [done|].
  apply not_elem_of_cons in H as [Hc H].
  cbn [universal_newlines].
  replace (Py.ascii_eqb c cr) with false
    by (symmetry; apply ascii_eqb_neq; congruence).
  by rewrite IH.
Qed.

Lemma iter_lines_line l rest :
  nl ∉ l -> iter_lines (l ++ nl :: rest) = (l ++ [nl]) :: iter_lines rest.
Proof.
  induction l as [|c l IH]; intros H.
  - done.
  - apply not_elem_of_cons in H as [Hc H].
    change ((c :: l) ++ nl :: rest) with (c :: (l ++ nl :: rest)).
    cbn [iter_lines].
    replace (Py.ascii_eqb c nl) with false
      by (symmetry; apply ascii_eqb_neq; congruence).
    by rewrite IH.
Qed.

Lemma rstrip_nl_line l : nl ∉ l -> Py.rstrip_char nl (l ++ [nl]) = l.
Proof.
  intros H. unfold Py.rstrip_char.
  rewrite rstrip_with_drop.
  2:{ constructor; [apply ascii_eqb_refl|done]. }
  unfold Py.rstrip_with. rewrite lstrip_with_none.
  - apply rev_involutive.
  - apply Forall_rev, Forall_forall. intros c Hc.
    apply ascii_eqb_neq. intros ->. done.
Qed.

Lemma group_blocks_acc lines acc block :
  group_blocks lines acc block = acc ++ group_blocks lines [] block.
Proof.
  revert acc block. induction lines as [|line lines IH]; intros acc block.
  - simpl. destruct block; [by rewrite app_nil_r|done].
  - cbn [group_blocks].
    destruct (Py.strip (Py.rstrip_char nl line)); [|apply IH].
    destruct block; [apply IH|].
    rewrite IH, (IH ([] ++ _)). by rewrite app_assoc.
Qed.

Lemma group_blocks_text_line l lines acc block :
  nl ∉ l -> Py.strip l <> [] ->
  group_blocks ((l ++ [nl]) :: lines) acc block
  = group_blocks lines acc (block ++ [l]).
Proof.
  intros Hn Hs. cbn [group_blocks]. rewrite rstrip_nl_line by done.
  destruct (Py.strip l); done.
Qed.

(** The four lines of one written entry come back as one block. *)
Lemma group_blocks_entry a b c lines :
  nl ∉ a -> nl ∉ b -> nl ∉ c ->
  Py.strip a <> [] -> Py.strip b <> [] -> Py.strip c <> [] ->
  group_blocks ((a ++ [nl]) :: (b ++ [nl]) :: (c ++ [nl]) :: [nl] :: lines)
    [] []
  = [a; b; c] :: group_blocks lines [] [].
Proof.
  intros. rewrite !group_blocks_text_line by done.
  cbn [group_blocks app].
  change (Py.strip (Py.rstrip_char nl [nl])) with (@nil ascii).
  cbv iota. by rewrite group_blocks_acc.
Qed.

Lemma digits_ts_chars s :
  Forall (fun d => Py.is_digit d = true) s ->
  Forall (fun c => ts_char c = true) s.
Proof.
  intros Hs. eapply Forall_impl; [exact Hs|].
  intros c H. unfold ts_char. by rewrite H.
Qed.

(** An encoded timestamp is made of digits, colons and a comma, and starts
    and ends with a digit. *)
Lemma format_ms_chars k :
  0 <= k ->
  Forall (fun c => ts_char c = true) (format_ms k true)
  /\ (exists c t, format_ms k true = c :: t /\ Py.is_digit c = true)
  /\ (exists s d, format_ms k true = s ++ [d] /\ Py.is_digit d = true).
Proof.
  intros Hk. rewrite format_ms_fields. simpl orb. cbv iota.
  destruct (fields_nonneg k Hk) as (Hh & Hm & Hs & Hms).
  destruct (format_d_spec 2 (field_hours k) Hh) as (Nh & Dh & _).
  destruct (format_d_spec 2 (field_minutes k) Hm) as (_ & Dm & _).
  destruct (format_d_spec 2 (field_seconds k) Hs) as (_ & Ds & _).
  destruct (format_d_spec 3 (field_ms k) Hms) as (Nms & Dms & _).
  set (H := Py.format_d 2 (field_hours k)) in *.
  set (Mi := Py.format_d 2 (field_minutes k)) in *.
  set (S := Py.format_d 2 (field_seconds k)) in *.
  set (Ms := Py.format_d 3 (field_ms k)) in *.
  split; [|split].
  - rewrite !Forall_app. repeat split; try (by apply digits_ts_chars);
      by apply Forall_singleton.
  - destruct H as [|c t]; [done|]. exists c. eexists. split; [reflexivity|].
    by apply Forall_cons in Dh as [? _].
  - destruct (exists_last (l := Ms)) as (s & d & E); [done|].
    exists ((H ++ py ":") ++ Mi ++ py ":" ++ S ++ py "," ++ s), d.
    split; [rewrite E; by rewrite <- !app_assoc|].
    rewrite E in Dms. apply Forall_app in Dms as [_ Dms].
    by apply Forall_cons in Dms as [? _].
Qed.

Lemma format_timestamp_inv seconds ts :
  format_timestamp seconds true = Ok ts ->
  exists k, 0 <= k /\ ts = format_ms k true.
Proof.
  unfold format_timestamp. intros H.
  destruct (Py.ge_zero seconds) eqn:Hge; [|done]. simpl in H.
  destruct (Py.round _) as [k|] eqn:Hr; [|done]. simpl in H.
  injection H as <-. exists k. split; [|done].
  by apply (round_scaled_nonneg seconds).
Qed.

(** The timing line: an arrow between two encoded timestamps. *)
Lemma timing_line ks ke :
  0 <= ks -> 0 <= ke ->
  let line := format_ms ks true ++ py " --> " ++ format_ms ke true in
  (nl ∉ line) /\ (cr ∉ line) /\ Py.strip line <> []
  /\ Py.contains (py "-->") line = true
  /\ map Py.strip (Py.split (py "-->") line)
     = [format_ms ks true; format_ms ke true].
Proof.
  intros Hks Hke line. unfold line.
  destruct (format_ms_chars ks Hks) as (Cs & (cs & ts & Es & Hcs) & (ss & ds & Es' & Hds)).
  destruct (format_ms_chars ke Hke) as (Ce & (ce & te & Ee & Hce) & (se & de & Ee' & Hde)).
  set (S := format_ms ks true) in *. set (E := format_ms ke true) in *.
  assert (Habs : forall x, ts_char x = false -> x <> " "%char ->
            x <> "-"%char -> x <> ">"%char -> x ∉ S ++ py " --> " ++ E).
  { intros x Hx H1 H2 H3. simpl.
    repeat (rewrite ?not_elem_of_app, ?not_elem_of_cons).
    repeat split; try done; by apply (chars_absent ts_char). }
  split; [by apply Habs|]. split; [by apply Habs|].
  split.
  { rewrite Es. apply strip_nonblank. by apply is_digit_not_isspace. }
  split.
  { change (py " --> ") with (py " " ++ py "-->" ++ py " ").
    rewrite !app_assoc. rewrite <- (app_assoc _ (py "-->")).
    rewrite <- (app_assoc _ (py "-->" ++ py " ")).
    apply contains_app_r. rewrite <- app_assoc. apply contains_here. }
  change (py " --> ") with (py " " ++ py "-->" ++ py " ").
  replace (S ++ (py " " ++ py "-->" ++ py " ") ++ E)
    with ((S ++ py " ") ++ py "-->" ++ (py " " ++ E))
    by (by rewrite <- !app_assoc).
  change (py "-->") with ("-" :: py "->")%char.
  rewrite split_first.
  2:{ simpl. rewrite not_elem_of_app, not_elem_of_cons.
      repeat split; try done; by apply (chars_absent ts_char). }
  rewrite split_absent.
  2:{ simpl. rewrite not_elem_of_cons.
      repeat split; try done; by apply (chars_absent ts_char). }
  cbn [map]. f_equal; [|f_equal].
  - unfold Py.strip.
    rewrite <- (app_nil_l (S ++ py " ")).
    rewrite (strip_with_pad Py.isspace [] S (py " ") cs ts); try done.
    + apply (strip_with_id Py.isspace cs ts ds); try done.
      * by apply is_digit_not_isspace.
      * by apply is_digit_not_isspace.
      * by exists ss.
    + by apply is_digit_not_isspace.
    + by repeat constructor.
  - unfold Py.strip.
    rewrite <- (app_nil_r E) at 1.
    rewrite (strip_with_pad Py.isspace (py " ") E [] ce te); try done.
    + apply (strip_with_id Py.isspace ce te de); try done.
      * by apply is_digit_not_isspace.
      * by apply is_digit_not_isspace.
      * by exists se.
    + by apply is_digit_not_isspace.
    + by repeat constructor.
Qed.

Lemma srt_entry_read i seg entry :
  1 <= i -> text_ok (seg_text seg) -> srt_entry i seg = Ok entry ->
  exists a b c,
    entry = a ++ nl :: b ++ nl :: c ++ nl :: [nl]
    /\ (nl ∉ a) /\ (nl ∉ b) /\ (nl ∉ c)
    /\ (cr ∉ a) /\ (cr ∉ b) /\ (cr ∉ c)
    /\ Py.strip a <> [] /\ Py.strip b <> [] /\ Py.strip c <> []
    /\ kept [a; b; c] = true
    /\ parse_block echo [] [a; b; c] = reread seg.
Proof.
  intros Hi (Hne & Harrow & Hnl & Hcr) H. unfold srt_entry in H.
  destruct (format_timestamp (seg_start seg) true) as [ts|] eqn:Es; [|done].
  destruct (format_timestamp (seg_end seg) true) as [te|] eqn:Ee; [|done].
  simpl in H. injection H as <-.
  destruct (format_timestamp_inv _ _ Es) as (ks & Hks & ->).
  destruct (format_timestamp_inv _ _ Ee) as (ke & Hke & ->).
  destruct (timing_line ks ke Hks Hke) as (T1 & T2 & T3 & T4 & T5).
  destruct (str_of_int_digits i) as [I1 I2]; [lia|].
  assert (Hrep : Py.replace ["-"; "-"; ">"]%char ["-"; ">"]%char
                   (Py.strip (seg_text seg)) = Py.strip (seg_text seg)).
  { apply replace_absent.
    destruct (Py.contains _ (Py.strip (seg_text seg))) eqn:E; [|done].
    apply contains_strip in E. change (py "-->") with ["-"; "-"; ">"]%char in Harrow.
    congruence. }
  rewrite Hrep.
  exists (Py.str_of_int i),
    (format_ms ks true ++ py " --> " ++ format_ms ke true),
    (Py.strip (seg_text seg)).
  split; [by rewrite <- !app_assoc|].
  split; [by apply (digits_absent nl)|]. split; [done|].
  split; [intros ?%elem_of_strip; done|].
  split; [by apply (digits_absent cr)|]. split; [done|].
  split; [intros ?%elem_of_strip; done|].
  split.
  { destruct (Py.str_of_int i) as [|c t]; [done|].
    apply strip_nonblank, is_digit_not_isspace.
    by apply Forall_cons in I2 as [? _]. }
  split; [done|].
  split; [unfold Py.strip; by rewrite strip_with_idem|].
  split; [unfold kept; cbn [nth]; by rewrite T4|].
  unfold parse_block. cbn [nth]. rewrite T5. cbn [skipn].
  cbn [Py.join]. unfold Py.strip at 1. rewrite strip_with_idem.
  rewrite translate_text_echo.
  unfold reread, roundtrip. rewrite Es, Ee. simpl.
  destruct (parse_timestamp (format_ms ks true)); [|done]. simpl.
  by destruct (parse_timestamp (format_ms ke true)).
Qed.

Lemma srt_text_read segs :
  forall i out,
    1 <= i -> Forall (fun seg => text_ok (seg_text seg)) segs ->
    srt_text_from i segs = Ok out ->
    (cr ∉ out)
    /\ exists blocks,
         group_blocks (iter_lines out) [] [] = blocks
         /\ List.filter kept blocks = blocks
         /\ map_result (parse_block echo []) blocks = map_result reread segs.
Proof.
  induction segs as [|seg segs IH]; intros i out Hi Hok H.
  - simpl in H. injection H as <-. split; [apply not_elem_of_nil|].
    by exists [].
  - apply Forall_cons in Hok as [Hseg Hok]. cbn [srt_text_from] in H.
    destruct (srt_entry i seg) as [entry|] eqn:Ee; [|done].
    destruct (srt_text_from (i + 1) segs) as [more|] eqn:Em; [|done].
    simpl in H. injection H as <-.
    destruct (IH (i + 1) more) as (Hcr & blocks & Hb & Hf & Hp);
      [lia|done|done|].
    destruct (srt_entry_read i seg entry Hi Hseg Ee)
      as (a & b & c & -> & Na & Nb & Nc & Ca & Cb & Cc & Sa & Sb & Sc
          & Hk & Hblk).
    split.
    { repeat (rewrite ?not_elem_of_app, ?not_elem_of_cons).
      repeat split; try done; apply not_elem_of_nil. }
    exists ([a; b; c] :: blocks).
    split.
    { replace ((a ++ nl :: b ++ nl :: c ++ nl :: [nl]) ++ more)
        with (a ++ nl :: (b ++ nl :: (c ++ nl :: (nl :: more)))).
      2:{ rewrite <- !app_assoc. simpl. rewrite <- !app_assoc. simpl.
          by rewrite <- !app_assoc. }
      rewrite !iter_lines_line by done.
      change (iter_lines (nl :: more)) with ([nl] :: iter_lines more).
      rewrite group_blocks_entry by done. by rewrite Hb. }
    split.
    { cbn [List.filter]. by rewrite Hk, Hf. }
    cbn [map_result]. by rewrite Hblk, Hp.
Qed.

(** Reading back what the writer wrote. *)
Lemma read_written segs out :
  Forall (fun seg => text_ok (seg_text seg)) segs ->
  srt_text_from 1 segs = Ok out ->
  read_srt out = map_result reread segs.
Proof.
  intros Hok H.
  destruct (srt_text_read segs 1 out) as (Hcr & blocks & Hb & Hf & Hp);
    [lia|done|done|].
  unfold read_srt. fold echo. rewrite parse_blocks_spec.
  unfold file_lines. rewrite universal_newlines_nocr by done.
  rewrite Hb, Hf, Hp. by destruct (map_result reread segs).
Qed.

(** The writer on the file system: the entries are appended to the file. *)
Lemma write_srt_from_ok p segs :
  forall i out w d,
    srt_text_from i segs = Ok out ->
    files w !! p = Some (File (clock w) d) ->
    write_srt_from i segs p w
    = (World (<[p := File (clock w) (d ++ out)]> (files w)) (clock w)
         (console w), Ok tt).
Proof.
  induction segs as [|seg segs IH]; intros i out w d H Hp.
  - simpl in H. injection H as <-. simpl. unfold mret, M_ret.
    rewrite app_nil_r, insert_id by done. by destruct w.
  - cbn [srt_text_from] in H.
    destruct (srt_entry i seg) as [entry|] eqn:Ee; [|done].
    destruct (srt_text_from (i + 1) segs) as [more|] eqn:Em; [|done].
    simpl in H. injection H as <-.
    cbn [write_srt_from]. unfold mbind, M_bind, lift. rewrite Ee.
    unfold fwrite at 1. rewrite Hp. cbn [data].
    erewrite IH; [|exact Em|simpl; by rewrite lookup_insert_eq].
    simpl. by rewrite insert_insert_eq, app_assoc.
Qed.

Lemma write_srt_from_raise p segs :
  forall i e w,
    srt_text_from i segs = Raise e ->
    exists w', write_srt_from i segs p w = (w', Raise e).
Proof.
  induction segs as [|seg segs IH]; intros i e w H; [done|].
  cbn [srt_text_from] in H. cbn [write_srt_from].
  unfold mbind, M_bind, lift.
  destruct (srt_entry i seg) as [entry|] eqn:Ee.
  - destruct (srt_text_from (i + 1) segs) as [more|] eqn:Em; [done|].
    simpl in H. injection H as <-.
    destruct (fwrite p entry w) as [w1 [[]|]] eqn:Ew; [|done].
    by apply IH.
  - simpl in H. injection H as <-. by eexists.
Qed.

(** C7, the claim fails twice: a text with a line break inside is written
    on two lines and read back joined by a space; and the start time 1.118
    comes back as the double below it. *)
Lemma serializer_roundtrip_fails :
  Forall valid_segment segs_line_break
  /\ ~ serializer_roundtrip segs_line_break
  /\ Forall valid_segment segs_1118
  /\ ~ serializer_roundtrip segs_1118.
Proof.
  split; [|split; [|split]].
  - apply Forall_singleton. split; [|split; by vm_compute].
    exists 1500, 2250. split; [lia|done].
  - intros (out & segs' & H1 & H2 & H3).
    vm_compute in H1. injection H1 as <-.
    vm_compute in H2. injection H2 as <-.
    apply Forall2_cons in H3 as [(_ & _ & H) _].
    vm_compute in H. discriminate.
  - apply Forall_singleton. split; [|split; by vm_compute].
    exists 1118, 2000. split; [lia|done].
  - intros (out & segs' & H1 & H2 & H3).
    vm_compute in H1. injection H1 as <-.
    vm_compute in H2. injection H2 as <-.
    apply Forall2_cons in H3 as [(H & _) _].
    vm_compute in H. discriminate.
Qed.

(** C7, amended: for segments whose texts are not blank and hold no arrow
    and no line break (neither [\n] nor [\r]), reading back the file the
    serializer wrote yields the segments in the same number and order, each
    with its text trimmed and with each time passed through the codec,
    [decode(encode(t, true))], the double of the same millisecond count. *)
Theorem serializer_roundtrip_ms (segs : list segment) (p : str) (w w' : world) :
  Forall (fun seg => text_ok (seg_text seg)) segs ->
  (open_w p ≫= fun _ => write_srt segs p) w = (w', Ok tt) ->
  exists out,
    open_r p w' = (w', Ok out)
    /\ srt_text_from 1 segs = Ok out
    /\ read_srt out = map_result reread segs
    /\ (forall segs', read_srt out = Ok segs' ->
          Forall2 (fun seg seg' =>
                     roundtrip (seg_start seg) = Ok (seg_start seg')
                     /\ roundtrip (seg_end seg) = Ok (seg_end seg')
                     /\ seg_text seg' = Py.strip (seg_text seg)) segs segs')
    /\ (Forall (fun seg => time_in_range (seg_start seg)
                           /\ time_in_range (seg_end seg)) segs ->
         exists segs', read_srt out = Ok segs').
Proof.
  intros Hok Hw. unfold mbind, M_bind, open_w, write_srt in Hw.
  destruct (srt_text_from 1 segs) as [out|e] eqn:Et.
  - rewrite (write_srt_from_ok p segs 1 out _ []) in Hw.
    2:{ exact Et. }
    2:{ simpl. by rewrite lookup_insert_eq. }
    injection Hw as <-. exists out.
    split; [unfold open_r; simpl; by rewrite lookup_insert_eq|].
    split; [done|].
    pose proof (read_written segs out Hok Et) as Hr.
    split; [exact Hr|]. split.
    + intros segs' Hs. rewrite Hr in Hs.
      apply map_result_Forall2 in Hs.
      eapply Forall2_impl; [exact Hs|].
      intros seg seg' H. unfold reread in H.
      destruct (roundtrip (seg_start seg)) as [s|]; [|done].
      destruct (roundtrip (seg_end seg)) as [e|]; [|done].
      simpl in H. injection H as <-. done.
    + intros Hrange. rewrite Hr. apply map_result_ok.
      eapply Forall_impl; [exact Hrange|].
      intros seg [Hs He]. unfold reread.
      destruct (roundtrip_in_range _ Hs) as [x ->].
      destruct (roundtrip_in_range _ He) as [y ->]. by eexists.
  - destruct (write_srt_from_raise p segs 1 e
                (World (<[p := File (clock w) []]> (files w)) (clock w)
                   (console w)) Et) as [w1 E1].
    rewrite E1 in Hw. done.
Qed.

Lemma serializer_roundtrip_ms_witness :
  exists w' out,
    (open_w (py "out/a.srt") ≫= fun _ => write_srt segs_plain (py "out/a.srt"))
      (World ∅ 7 []) = (w', Ok tt)
    /\ open_r (py "out/a.srt") w' = (w', Ok out)
    /\ read_srt out
       = Ok [Segment (seconds_of_ms 1500) (seconds_of_ms 2250) (py "hello");
             Segment (seconds_of_ms 3000) (seconds_of_ms 4125) (py "a -> b")].
Proof.
  eexists. 
  destruct (serializer_roundtrip_ms segs_plain (py "out/a.srt") (World ∅ 7 [])
              (fst ((open_w (py "out/a.srt")
                     ≫= fun _ => write_srt segs_plain (py "out/a.srt"))
                      (World ∅ 7 []))))
    as (out & H1 & _ & H2 & _ & _).
  - apply Forall_cons; split; [|apply Forall_singleton];
      (split; [by vm_compute|]; split; [by vm_compute|]);
      split; apply (bool_decide_unpack _); by vm_compute.
  - by vm_compute.
  - exists out. split; [by vm_compute|]. split; [exact H1|].
    rewrite H2. by vm_compute.
Defined.

(** ** The pipeline *)

Lemma bind_ok_inv {A B} (m : M A) (f : A -> M B) w w' y :
  (m ≫= f) w = (w', Ok y) ->
  exists w1 x, m w = (w1, Ok x) /\ f x w1 = (w', Ok y).
Proof.
  unfold mbind, M_bind. destruct (m w) as [w1 [x|e]]; [|done]. eauto.
Qed.

(** An invariant of a [for] loop, indexed by the items still to come. *)
Lemma for_each_inv {A S} (I : list A -> S -> Prop) (body : S -> A -> M S) :
  (forall x rest st w w' st',
     I (x :: rest) st -> body st x w = (w', Ok st') -> I rest st') ->
  forall xs st w w' st',
    I xs st -> for_each body st xs w = (w', Ok st') -> I [] st'.
Proof.
  intros Hstep xs. induction xs as [|x xs IH]; intros st w w' st' HI H.
  - simpl in H. injection H as _ <-. done.
  - cbn [for_each] in H.
    apply bind_ok_inv in H as (w1 & st1 & H1 & H2).
    eapply IH; [|exact H2]. eapply Hstep; eauto.
Qed.

Section PipelineProofs.

Variable tempdir : str.
Variable translator : str -> str -> result str.
Variable load_model : str -> result unit.
Variable transcribe : str -> option str -> str -> result (list segment).
Variable extract_audio : str -> str -> result unit.
Variable mux : str -> str -> str -> result unit.

Lemma embed_loop_app a st xs ys w :
  embed_loop mux a st (xs ++ ys) w
  = (embed_loop mux a st xs ≫= fun _ => embed_loop mux a st ys) w.
Proof.
  revert w. induction xs as [|x xs IH]; intros w; [done|].
  cbn [app embed_loop]. unfold mbind, M_bind, lift, print in *.
  destruct (negb (truthy_opt (srt_to_embed st x))).
  - apply IH.
  - destruct (mux x _ _) as [[]|e]; [|done]. apply IH.
Qed.

(** A video without any subtitle is reported and skipped; the loop goes
    on with the next one. *)
Lemma embed_loop_skip a st path rest w :
  truthy_opt (srt_to_embed st path) = false ->
  embed_loop mux a st (path :: rest) w
  = embed_loop mux a st rest (log w [MsgNoSubtitle (filename path)]).
Proof. intros H. cbn [embed_loop]. rewrite H. done. Qed.

Lemma embed_loop_mux_error a st path rest w srt e :
  srt_to_embed st path = Some srt -> truthy srt = true ->
  mux path srt (posixpath.join (output_dir a) (filename path ++ py ".mp4"))
  = Raise e ->
  embed_loop mux a st (path :: rest) w
  = (log w [MsgAdding (filename path)], Raise e).
Proof.
  intros Hs Ht Hm. cbn [embed_loop]. rewrite Hs. cbn [truthy_opt].
  rewrite Ht. cbn [negb]. unfold mbind, M_bind, lift.
  change (default [] (Some srt)) with srt.
  rewrite print_eq, Hm. done.
Qed.

(** C5, amended: a muxing error is not isolated.  When the muxing
    collaborator raises for a video, the videos before it have been
    processed, the exception leaves the embedding loop at once, and no
    later video is looked at: the outcome does not depend on them. *)
Theorem embed_loop_aborts_on_mux_error a st before path after w w1 srt e :
  embed_loop mux a st before w = (w1, Ok tt) ->
  srt_to_embed st path = Some srt -> truthy srt = true ->
  mux path srt (posixpath.join (output_dir a) (filename path ++ py ".mp4"))
  = Raise e ->
  embed_loop mux a st (before ++ path :: after) w
  = (log w1 [MsgAdding (filename path)], Raise e).
Proof.
  intros Hb Hs Ht Hm. rewrite embed_loop_app.
  rewrite (bind_eq _ _ _ _ _ Hb).
  by apply (embed_loop_mux_error a st path after w1 srt e).
Qed.

End PipelineProofs.

(** C5, the claim fails: the muxing error on a.mp4 ends the run with the
    exception, and b.mp4, which has a subtitle file and which the muxing
    collaborator would have handled, is never reached. *)
Lemma mux_error_aborts_batch :
  let run := main (py "/tmp") makedirs_ok translator_ok load_model_ok
               transcribe_two extract_audio_ok mux_fails_on_a args_two
               world_two in
  run.2 = Raise FFmpegError
  /\ console run.1
     = [MsgCachedOriginal (py "a") (py "out/a.srt");
        MsgCachedOriginal (py "b") (py "out/b.srt");
        MsgAdding (py "a")]
  /\ ~ processed run.1 (py "b.mp4")
  /\ mux_fails_on_a (py "b.mp4") (py "out/b.srt") (py "out/b.mp4") = Ok tt.
Proof.
  cbv zeta. split; [by vm_compute|]. split; [by vm_compute|].
  split; [|by vm_compute].
  unfold processed. apply (bool_decide_unpack _). by vm_compute.
Qed.

Lemma embed_loop_aborts_on_mux_error_witness :
  exists st w1,
    assemble (py "/tmp") translator_ok load_model_ok transcribe_two
      extract_audio_ok args_two world_two = (w1, Ok st)
    /\ embed_loop mux_fails_on_a args_two st ([] ++ py "a.mp4" :: [py "b.mp4"])
         w1
       = (log w1 [MsgAdding (py "a")], Raise FFmpegError).
Proof.
  eexists _, _. split; [by vm_compute|].
  apply (embed_loop_aborts_on_mux_error mux_fails_on_a args_two _ []
           (py "a.mp4") [py "b.mp4"] _ _ (py "out/a.srt") FFmpegError);
    by vm_compute.
Defined.

Section TranslateExisting.

Variable translator : str -> str -> result str.

(** A failure while the existing file is read and translated leaves the
    file system as it was: the destination is opened only afterwards. *)
Lemma translate_srt_file_raise src dst lang w content e :
  open_r src w = (w, Ok content) ->
  parse_blocks translator lang (group_blocks (file_lines content) [] []) []
  = Raise e ->
  translate_srt_file translator src dst lang w = (w, Raise e).
Proof.
  intros Ho Hp. unfold translate_srt_file.
  rewrite (bind_eq _ _ _ _ _ Ho). unfold mbind, M_bind, lift.
  by rewrite Hp.
Qed.

(** The failure is not caught in the translate-existing loop either. *)
Lemma translate_one_raise a st path src dst lang w content e :
  translate_to a = Some lang ->
  open_r src w = (w, Ok content) ->
  parse_blocks translator lang (group_blocks (file_lines content) [] []) []
  = Raise e ->
  translate_one translator a st (path, src, Some dst) w = (w, Raise e).
Proof.
  intros Ht Ho Hp. unfold translate_one. rewrite Ht.
  unfold mbind, M_bind.
  by rewrite (translate_srt_file_raise src dst lang w content e).
Qed.

Lemma translate_srt_file_returns src dst lang w w' path :
  translate_srt_file translator src dst lang w = (w', Ok path) ->
  path = dst.
Proof.
  unfold translate_srt_file. intros H.
  apply bind_ok_inv in H as (w1 & content & _ & H).
  apply bind_ok_inv in H as (w2 & parsed & _ & H).
  apply bind_ok_inv in H as (w3 & [] & _ & H).
  apply bind_ok_inv in H as (w4 & [] & _ & H).
  apply bind_ok_inv in H as (w5 & [] & _ & H).
  by injection H as _ <-.
Qed.

End TranslateExisting.

(** C3, the fallback is never taken: with a fresh original subtitle file, a
    target language and a translation collaborator that raises, the video is
    classified TranslateExisting, the exception leaves [translate_srt_file]
    and [main], nothing is written, and neither a transcription nor a
    warning follows. *)
Theorem translate_failure_aborts_run :
  classification_of (py "/tmp") args_es (files world_fresh_original)
    (py "a.mp4") = TranslateExisting
  /\ main (py "/tmp") makedirs_ok translator_down load_model_ok
       transcribe_two extract_audio_ok mux_ok args_es world_fresh_original
     = (log world_fresh_original
          [MsgCachedOriginal (py "a") (py "out/a.srt")],
        Raise TranslationError).
Proof. split; by vm_compute. Qed.

(** ** The embed map *)

Lemma target_translate_to (a : args) lang :
  target a = Some lang -> translate_to a = Some lang /\ truthy lang = true.
Proof.
  unfold target. destruct (translate_to a) as [l|]; [|done].
  destruct (truthy l) eqn:E; [|done]. by intros [= <-].
Qed.

Lemma target_None (a : args) :
  target a = None ->
  translate_to a = None
  \/ exists lang, translate_to a = Some lang /\ truthy lang = false.
Proof.
  unfold target. destruct (translate_to a) as [l|]; [|by left].
  destruct (truthy l) eqn:E; [done|]. right. eauto.
Qed.

Section EmbedMap.

Variable tempdir : str.
Variable a : args.

Local Abbreviation base := (srt_base_dir tempdir a).

Lemma classified_canonical fs l :
  let st := fold_left (classify_pure tempdir a fs) l initial_state in
  canonical tempdir a st
  /\ forall p, p ∈ l ->
       covered (map (fun e => e.1.1) (translate_existing st)) st p.
Proof.
  intros st.
  assert (Hc : forall p,
    match classification_of tempdir a fs p with
    | ReuseOriginal =>
      target a = None /\ original_fresh tempdir a fs p = true
    | ReuseTranslated =>
      exists lang, target a = Some lang
        /\ translated_fresh tempdir a fs p = true
    | TranslateExisting => exists lang, target a = Some lang
    | TranscribeFresh => True
    end).
  { intros p.
    pose proof (classify_cases (bool_decide (is_Some (target a)))
                  (original_fresh tempdir a fs p)
                  (translated_fresh tempdir a fs p)) as H.
    fold (classification_of tempdir a fs p) in H.
    destruct (classification_of tempdir a fs p); try done.
    - destruct H as [H1 H2]. by apply target_is_None in H1.
    - destruct H as [H1 H2]. apply target_is_Some in H1 as [lang H1]. eauto.
    - destruct H as [H1 _]. by apply target_is_Some in H1. }
  split; [split; [|split; [|split]]|].
  - intros p v. unfold st. rewrite fold_subtitles_original.
    destruct (_ && _); [by intros [= <-]|done].
  - intros p v. unfold st. rewrite fold_subtitles_translated.
    destruct (target a) as [lang|]; [|done].
    destruct (_ && _); [|done]. intros [= <-]. eauto.
  - intros p v. unfold st. rewrite fold_embed_map.
    destruct (bool_decide (p ∈ l)) eqn:Hin; [|done].
    unfold reusable. specialize (Hc p). simpl.
    destruct (classification_of tempdir a fs p); try done.
    + destruct Hc as [Ht Hf]. intros [= <-]. rewrite Ht.
      unfold reused_srt. rewrite Ht. split; [done|].
      by rewrite fold_subtitles_original, Hin, Hf.
    + destruct Hc as (lang & Ht & Hf). intros [= <-]. rewrite Ht.
      unfold reused_srt. rewrite Ht. split; [done|].
      by rewrite fold_subtitles_translated, Ht, Hin, Hf.
  - intros p s d. unfold st. rewrite fold_translate_existing. simpl.
    intros H. apply list_elem_of_In, in_map_iff in H as (x & E & H).
    apply list_elem_of_In, list_elem_of_filter in H as [H _].
    specialize (Hc x). rewrite H in Hc. destruct Hc as [lang Ht].
    unfold translate_entry in E. rewrite Ht in E.
    injection E as <- <- <-. eauto.
  - intros p Hp. unfold covered, st.
    rewrite fold_embed_map, fold_videos_to_transcribe,
      fold_translate_existing. simpl.
    rewrite bool_decide_true by done. unfold reusable. simpl.
    destruct (classification_of tempdir a fs p) eqn:E.
    + left. eauto.
    + left. eauto.
    + right. right. rewrite map_map. simpl.
      apply list_elem_of_In, in_map_iff. exists p. split; [done|].
      apply list_elem_of_In, list_elem_of_filter. done.
    + right. left. apply list_elem_of_filter. done.
Qed.

End EmbedMap.

Lemma odict_set_keys (d : list (str * str)) (k v q : str) :
  q ∈ map fst (odict_set d k v) <-> q = k \/ q ∈ map fst d.
Proof.
  induction d as [|[k' v'] d IH]; simpl.
  - rewrite list_elem_of_singleton, elem_of_nil. tauto.
  - case_bool_decide; simpl; rewrite !elem_of_cons.
    + subst. tauto.
    + rewrite IH. tauto.
Qed.

Section Assemble.

Variable tempdir : str.
Variable translator : str -> str -> result str.
Variable load_model : str -> result unit.
Variable transcribe : str -> option str -> str -> result (list segment).
Variable extract_audio : str -> str -> result unit.
Variable a : args.

Local Abbreviation base := (srt_base_dir tempdir a).

(** One iteration of the translate-existing loop that returns. *)
Lemma translate_one_step st p s d w w' st' :
  canonical tempdir a st -> (p, s, d) ∈ translate_existing st ->
  translate_one translator a st (p, s, d) w = (w', Ok st') ->
  canonical tempdir a st'
  /\ translate_existing st' = translate_existing st
  /\ (forall q, q ∈ videos_to_transcribe st -> q ∈ videos_to_transcribe st')
  /\ (forall q, is_Some (embed_map st !! q) -> is_Some (embed_map st' !! q))
  /\ is_Some (embed_map st' !! p).
Proof.
  intros (C1 & C2 & C3 & C4) Hin H.
  destruct (C4 p s d Hin) as (lang & Ht & ->).
  destruct (target_translate_to a lang Ht) as [Htt Htr].
  unfold translate_one in H. rewrite Htt in H.
  apply bind_ok_inv in H as (w1 & tp & Hf & H).
  apply translate_srt_file_returns in Hf as ->.
  rewrite translated_srt_truthy in H. injection H as <- <-.
  split; [split; [|split; [|split]]|]; simpl.
  - done.
  - intros q v. destruct (decide (p = q)) as [->|Hne].
    + rewrite lookup_insert_eq. intros [= <-]. eauto.
    + rewrite lookup_insert_ne by done. apply C2.
  - intros q v. rewrite Ht. destruct (decide (p = q)) as [->|Hne].
    + rewrite !lookup_insert_eq. by intros [= <-].
    + rewrite !lookup_insert_ne by done. intros Hq.
      specialize (C3 q v Hq). by rewrite Ht in C3.
  - done.
  - split; [done|]. split; [done|]. split.
    + intros q Hq. destruct (decide (p = q)) as [->|Hne].
      * rewrite lookup_insert_eq. eauto.
      * by rewrite lookup_insert_ne.
    + rewrite lookup_insert_eq. eauto.
Qed.

Lemma translate_loop_spec (vs : list str) st w w' st' :
  canonical tempdir a st ->
  (forall p, p ∈ vs ->
     covered (map (fun e => e.1.1) (translate_existing st)) st p) ->
  for_each (translate_one translator a) st (translate_existing st) w
  = (w', Ok st') ->
  canonical tempdir a st' /\ forall p, p ∈ vs -> covered [] st' p.
Proof.
  intros Hc Hcov H.
  set (te := translate_existing st) in *.
  pose (I := fun (rem : list (str * str * option str)) (s : state) =>
               canonical tempdir a s /\ translate_existing s = te
               /\ (forall e, e ∈ rem -> e ∈ te)
               /\ forall p, p ∈ vs ->
                    covered (map (fun e => e.1.1) rem) s p).
  assert (HI : I [] st').
  { apply (for_each_inv I (translate_one translator a))
      with (xs := te) (st := st) (w := w) (w' := w'); [|done|exact H].
    clear. intros [[p s] d] rest s0 w0 w1 s1 (Hc & Hte & Hsub & Hcov) H.
    destruct (translate_one_step s0 p s d w0 w1 s1 Hc)
      as (Hc' & Hte' & Hv & He & Hp);
      [rewrite Hte; apply Hsub, elem_of_cons; auto | exact H |].
    split; [done|]. split; [congruence|].
    split; [intros e He'; apply Hsub, elem_of_cons; auto|].
    intros q Hq. destruct (Hcov q Hq) as [Hq1|[Hq2|Hq3]].
    - left. auto.
    - right. left. auto.
    - simpl in Hq3. apply elem_of_cons in Hq3 as [->|Hq3].
      + by left.
      + right. right. done. }
  destruct HI as (Hc' & _ & _ & Hcov'). done.
Qed.

(** [get_audio] hands back an entry for every path it was given. *)
Lemma get_audio_keys paths w w' audios :
  get_audio tempdir extract_audio paths w = (w', Ok audios) ->
  forall p, p ∈ paths -> p ∈ map fst audios.
Proof.
  intros H.
  pose (I := fun (rem : list str) (d : list (str * str)) =>
               forall p, p ∈ paths -> p ∈ map fst d \/ p ∈ rem).
  assert (HI : I [] audios).
  { unfold get_audio in H.
    eapply (for_each_inv I); [|exact (fun p Hp => or_intror Hp)|exact H].
    clear. intros x rest d w0 w9 d' HI H.
    apply bind_ok_inv in H as (w1 & [] & _ & H).
    apply bind_ok_inv in H as (w2 & [] & _ & H).
    injection H as _ <-. intros p Hp.
    rewrite odict_set_keys. destruct (HI p Hp) as [?|Hr]; [auto|].
    apply elem_of_cons in Hr as [->|?]; auto. }
  intros p Hp. destruct (HI p Hp) as [?|Hr]; [done|].
  by apply elem_of_nil in Hr.
Qed.

(** One iteration of [get_subtitles] that returns. *)
Lemma get_subtitles_body tr no nt p ap w w' no' nt' :
  get_subtitles_step tempdir translator (output_srt a || srt_only a)
    (output_dir a) tr (translate_to a) (no, nt) (p, ap) w
  = (w', Ok (no', nt')) ->
  no' = <[p := original_srt base p]> no
  /\ nt' = match target a with
           | Some lang => <[p := translated_srt base p lang]> nt
           | None => nt
           end.
Proof.
  intros H. unfold get_subtitles_step in H. cbv zeta in H.
  apply bind_ok_inv in H as (w1 & [] & _ & H).
  apply bind_ok_inv in H as (w2 & segments & _ & H).
  apply bind_ok_inv in H as (w3 & [] & _ & H).
  apply bind_ok_inv in H as (w4 & [] & _ & H).
  apply bind_ok_inv in H as (w5 & [] & _ & H).
  unfold target. destruct (translate_to a) as [lang|].
  - destruct (truthy lang).
    + apply bind_ok_inv in H as (w6 & [] & _ & H).
      apply bind_ok_inv in H as (w7 & translated & _ & H).
      apply bind_ok_inv in H as (w8 & [] & _ & H).
      apply bind_ok_inv in H as (w9 & [] & _ & H).
      apply bind_ok_inv in H as (w10 & [] & _ & H).
      by injection H as _ <- <-.
    + by injection H as _ <- <-.
  - by injection H as _ <- <-.
Qed.

Lemma get_subtitles_spec audios tr w w' no nt :
  get_subtitles tempdir translator audios (output_srt a || srt_only a)
    (output_dir a) tr (translate_to a) w = (w', Ok (no, nt)) ->
  (forall p v, no !! p = Some v -> v = original_srt base p)
  /\ (forall p v, nt !! p = Some v ->
        exists lang, target a = Some lang /\ v = translated_srt base p lang)
  /\ (forall p, p ∈ map fst audios ->
        no !! p = Some (original_srt base p)
        /\ forall lang, target a = Some lang ->
             nt !! p = Some (translated_srt base p lang)).
Proof.
  intros H.
  pose (I := fun (rem : list (str * str)) (m : gmap str str * gmap str str) =>
    (forall p v, m.1 !! p = Some v -> v = original_srt base p)
    /\ (forall p v, m.2 !! p = Some v ->
          exists lang, target a = Some lang
            /\ v = translated_srt base p lang)
    /\ (forall p, p ∈ map fst audios ->
          (m.1 !! p = Some (original_srt base p)
           /\ forall lang, target a = Some lang ->
                m.2 !! p = Some (translated_srt base p lang))
          \/ p ∈ map fst rem)).
  assert (HI : I [] (no, nt)).
  { unfold get_subtitles in H.
    eapply (for_each_inv I); [| |exact H].
    - clear. intros [p ap] rest [no0 nt0] w0 w1 [no' nt'] (H1 & H2 & H3) H.
      apply get_subtitles_body in H as [-> ->].
      split; [|split]; cbn [fst snd] in *.
      + intros q v. destruct (decide (p = q)) as [->|Hne].
        * rewrite lookup_insert_eq. by intros [= <-].
        * rewrite lookup_insert_ne by done. apply H1.
      + intros q v. destruct (target a) as [lang|] eqn:Ht; [|apply H2].
        destruct (decide (p = q)) as [->|Hne].
        * rewrite lookup_insert_eq. intros [= <-]. eauto.
        * rewrite lookup_insert_ne by done. apply H2.
      + intros q Hq. destruct (decide (p = q)) as [->|Hne].
        * left. rewrite lookup_insert_eq. split; [done|].
          intros lang Ht. by rewrite Ht, lookup_insert_eq.
        * destruct (H3 q Hq) as [[Ho Htr]|Hr].
          -- left. rewrite lookup_insert_ne by done. split; [done|].
             intros lang Ht. rewrite Ht, lookup_insert_ne by done. auto.
          -- right. simpl in Hr.
             apply elem_of_cons in Hr as [?|?]; [congruence|done].
    - split; [|split]; simpl.
      + intros p v. by rewrite lookup_empty.
      + intros p v. by rewrite lookup_empty.
      + auto. }
  destruct HI as (H1 & H2 & H3). split; [done|]. split; [done|].
  intros p Hp. destruct (H3 p Hp) as [?|Hr]; [done|].
  by apply elem_of_nil in Hr.
Qed.

End Assemble.

Section AssembleProofs.

Variable tempdir : str.
Variable translator : str -> str -> result str.
Variable load_model : str -> result unit.
Variable transcribe : str -> option str -> str -> result (list segment).
Variable extract_audio : str -> str -> result unit.
Variable a : args.

Local Abbreviation base := (srt_base_dir tempdir a).

Lemma artifact_valid_ok srt path w w' b :
  artifact_valid srt path w = (w', Ok b) ->
  w' = w /\ b = fresh (files w) srt path.
Proof.
  unfold artifact_valid, path_exists, getmtime, fresh, mbind, M_bind.
  destruct (files w !! srt) as [fa|] eqn:Ea; simpl.
  - rewrite Ea. destruct (files w !! path) as [fv|] eqn:Ev; simpl.
    + by intros [= <- <-].
    + done.
  - by intros [= <- <-].
Qed.

(** An iteration of the classification loop that returns did what the
    classification of the specification says. *)
Lemma classify_video_ok st path w w' st' :
  classify_video tempdir a st path w = (w', Ok st') ->
  st' = classify_pure tempdir a (files w) st path /\ files w' = files w.
Proof.
  unfold classify_video. intros H.
  apply bind_ok_inv in H as (w1 & ov & H1 & H).
  apply artifact_valid_ok in H1 as [-> ->].
  apply bind_ok_inv in H as (w2 & st2 & H2 & H).
  apply bind_ok_inv in H as (w3 & [[tv sx] st3] & H3 & H).
  unfold classify_pure, record_cached, classification_of, classify,
    reused_srt, translate_entry, translated_fresh, original_fresh.
  set (so := original_srt base path) in *.
  assert (E2 : files w2 = files w
               /\ st2 = if fresh (files w) so path
                        then set_subtitles_original st path so else st).
  { destruct (fresh (files w) so path).
    - apply bind_ok_inv in H2 as (w2' & [] & Hp & H2).
      injection Hp as <-. by injection H2 as <- <-.
    - by injection H2 as <- <-. }
  destruct E2 as [Ef2 ->].
  destruct (target a) as [lang|] eqn:Et.
  - apply bind_ok_inv in H3 as (w4 & tv' & H4 & H3).
    apply artifact_valid_ok in H4 as [-> ->].
    apply bind_ok_inv in H3 as (w5 & st5 & H5 & H3).
    injection H3 as <- <- <- <-.
    rewrite Ef2 in *.
    set (sx := translated_srt base path lang) in *.
    rewrite bool_decide_true by eauto. cbn [negb].
    destruct (fresh (files w) sx path).
    + apply bind_ok_inv in H5 as (w6 & [] & Hp & H5).
      injection Hp as <-. injection H5 as <- <-.
      by injection H as <- <-.
    + injection H5 as <- <-.
      destruct (fresh (files w) so path); by injection H as <- <-.
  - injection H3 as <- <- <- <-.
    rewrite bool_decide_false by (by intros [? ?]). cbn [negb].
    destruct (fresh (files w) so path); by injection H as <- <-.
Qed.

Lemma classify_loop_ok l st w w' st' :
  for_each (classify_video tempdir a) st l w = (w', Ok st') ->
  st' = fold_left (classify_pure tempdir a (files w)) l st
  /\ files w' = files w.
Proof.
  revert st w. induction l as [|p l IH]; intros st w H.
  - simpl in H. by injection H as <- <-.
  - cbn [for_each] in H. apply bind_ok_inv in H as (w1 & st1 & H1 & H).
    apply classify_video_ok in H1 as [-> Hf].
    apply IH in H as [-> Hf']. simpl. rewrite Hf. split; [done|congruence].
Qed.

(** The transcription stage, when it returns, maps every queued video and
    keeps the maps canonical. *)
Lemma transcribe_stage_spec st w w' st' :
  canonical tempdir a st ->
  transcribe_stage tempdir translator load_model transcribe extract_audio
    a st w = (w', Ok st') ->
  canonical tempdir a st'
  /\ (forall q, is_Some (embed_map st !! q) -> is_Some (embed_map st' !! q))
  /\ forall q, q ∈ videos_to_transcribe st -> is_Some (embed_map st' !! q).
Proof.
  intros (C1 & C2 & C3 & C4) H. unfold transcribe_stage in H.
  apply bind_ok_inv in H as (w1 & language_arg & _ & H).
  apply bind_ok_inv in H as (w2 & [] & _ & H).
  apply bind_ok_inv in H as (w3 & audios & Ha & H).
  apply bind_ok_inv in H as (w4 & [no nt] & Hs & H).
  pose proof (get_audio_keys _ _ _ _ _ _ Ha) as Hkeys.
  apply get_subtitles_spec in Hs as (N1 & N2 & N3).
  set (st1 := State (no ∪ subtitles_original st)
                (nt ∪ subtitles_translated st) (embed_map st)
                (videos_to_transcribe st) (translate_existing st)) in *.
  assert (Hc1 : canonical tempdir a st1).
  { split; [|split; [|split]]; simpl.
    - intros p v Hp. apply lookup_union_Some_raw in Hp as [Hp|[_ Hp]]; eauto.
    - intros p v Hp. apply lookup_union_Some_raw in Hp as [Hp|[_ Hp]]; eauto.
    - intros p v Hp. specialize (C3 p v Hp).
      destruct (target a) as [lang|] eqn:Et.
      + destruct C3 as [-> C3]. split; [done|].
        destruct (nt !! p) as [x|] eqn:Ex.
        * destruct (N2 p x Ex) as (lang' & [= <-] & ->).
          by apply lookup_union_Some_l.
        * rewrite lookup_union_r by done. done.
      + destruct C3 as [-> C3]. split; [done|].
        destruct (no !! p) as [x|] eqn:Ex.
        * rewrite (N1 p x Ex) in Ex. by apply lookup_union_Some_l.
        * rewrite lookup_union_r by done. done.
    - done. }
  pose (I := fun (rem : list str) (s : state) =>
    canonical tempdir a s
    /\ subtitles_original s = no ∪ subtitles_original st
    /\ subtitles_translated s = nt ∪ subtitles_translated st
    /\ (forall q, is_Some (embed_map st !! q) -> is_Some (embed_map s !! q))
    /\ (forall q, q ∈ videos_to_transcribe st ->
          is_Some (embed_map s !! q) \/ q ∈ rem)
    /\ (forall q, q ∈ rem -> q ∈ videos_to_transcribe st)).
  assert (HI : I [] st').
  { eapply (for_each_inv I); [| |exact H].
    - clear H. intros x rest s w5 w6 s' (Hc & Ho & Hx & Hm & Hcov & Hsub) H.
      assert (Hxin : x ∈ map fst audios).
      { apply Hkeys, Hsub, elem_of_cons. auto. }
      destruct (N3 x Hxin) as [Hno Hnt].
      destruct Hc as (D1 & D2 & D3 & D4).
      assert (Hs' : exists v, s' = set_embed_map s x (Some v)
                /\ match target a with
                   | Some lang => v = translated_srt base x lang
                   | None => v = original_srt base x
                   end).
      { destruct (target a) as [lang|] eqn:Et.
        - rewrite (Hnt lang eq_refl) in H. injection H as _ <-. eauto.
        - rewrite Hno in H. destruct (nt !! x); injection H as _ <-; eauto. }
      destruct Hs' as (v & -> & Hv).
      split; [split; [|split; [|split]]|]; simpl.
      + done.
      + done.
      + intros q u. destruct (decide (x = q)) as [->|Hne].
        * rewrite lookup_insert_eq. intros [= <-].
          destruct (target a) as [lang|] eqn:Et; subst v.
          -- split; [done|]. rewrite Hx. apply lookup_union_Some_l. auto.
          -- split; [done|]. rewrite Ho. by apply lookup_union_Some_l.
        * rewrite lookup_insert_ne by done. apply D3.
      + done.
      + split; [done|]. split; [done|]. split; [|split].
        * intros q Hq. destruct (decide (x = q)) as [->|Hne].
          -- rewrite lookup_insert_eq. eauto.
          -- rewrite lookup_insert_ne by done. auto.
        * intros q Hq. destruct (decide (x = q)) as [->|Hne].
          -- left. rewrite lookup_insert_eq. eauto.
          -- rewrite lookup_insert_ne by done.
             destruct (Hcov q Hq) as [?|Hr]; [auto|].
             apply elem_of_cons in Hr as [?|?]; [congruence|auto].
        * intros q Hq. apply Hsub, elem_of_cons. auto.
    - unfold I. split; [exact Hc1|]. simpl.
      split; [done|]. split; [done|]. split; [done|]. split; auto. }
  destruct HI as (Hc' & _ & _ & Hm & Hcov & _).
  split; [done|]. split; [done|].
  intros q Hq. destruct (Hcov q Hq) as [?|Hr]; [done|].
  by apply elem_of_nil in Hr.
Qed.

(** When the stages before the embedding return, the maps are canonical
    and every input video has its entry in the embed map. *)
Lemma assemble_spec w w' st :
  assemble tempdir translator load_model transcribe extract_audio a w
  = (w', Ok st) ->
  canonical tempdir a st
  /\ forall p, p ∈ videos a -> is_Some (embed_map st !! p).
Proof.
  unfold assemble. intros H.
  apply bind_ok_inv in H as (w1 & st1 & H1 & H).
  apply bind_ok_inv in H as (w2 & st2 & H2 & H).
  apply classify_loop_ok in H1 as [-> _].
  destruct (classified_canonical tempdir a (files w) (videos a))
    as [Hc1 Hcov1].
  destruct (translate_loop_spec tempdir translator a (videos a) _ _ _ _
              Hc1 Hcov1 H2) as [Hc2 Hcov2].
  destruct (videos_to_transcribe st2) as [|v vs] eqn:Ev.
  - injection H as _ <-. split; [done|].
    intros p Hp. destruct (Hcov2 p Hp) as [?|[Hq|Hq]]; [done| |].
    + rewrite Ev in Hq. by apply elem_of_nil in Hq.
    + by apply elem_of_nil in Hq.
  - apply transcribe_stage_spec in H as (Hc3 & Hm & Hq); [|done].
    split; [done|].
    intros p Hp. destruct (Hcov2 p Hp) as [?|[Hq'|Hq']]; [auto|auto|].
    by apply elem_of_nil in Hq'.
Qed.

End AssembleProofs.

(** C4: when the stages before the embedding have run, for every input
    video the subtitle to embed is the translated artifact if a target
    language was requested and a translated artifact is recorded for the
    video, and the original artifact otherwise (with a target language every
    video has its translated artifact by then, without one its original);
    a video for which the selection finds nothing is reported and skipped,
    and the loop goes on with the remaining videos. *)
Theorem embed_map_precedence
    (tempdir : str) (translator : str -> str -> result str)
    (load_model : str -> result unit)
    (transcribe : str -> option str -> str -> result (list segment))
    (extract_audio : str -> str -> result unit)
    (mux : str -> str -> str -> result unit)
    (a : args) (w w' : world) (st : state) :
  assemble tempdir translator load_model transcribe extract_audio a w
  = (w', Ok st) ->
  (forall path, path ∈ videos a ->
     (forall t, is_Some (target a) ->
        subtitles_translated st !! path = Some t ->
        srt_to_embed st path = Some t)
     /\ (~ (is_Some (target a)
            /\ is_Some (subtitles_translated st !! path)) ->
         is_Some (subtitles_original st !! path)
         /\ srt_to_embed st path = subtitles_original st !! path)
     /\ srt_to_embed st path
        = Some (match target a with
                | Some lang => translated_srt (srt_base_dir tempdir a) path lang
                | None => original_srt (srt_base_dir tempdir a) path
                end))
  /\ (forall path rest w0,
        truthy_opt (srt_to_embed st path) = false ->
        embed_loop mux a st (path :: rest) w0
        = embed_loop mux a st rest (log w0 [MsgNoSubtitle (filename path)])).
Proof.
  intros H. apply assemble_spec in H as [(C1 & C2 & C3 & C4) Hcov].
  split; [|intros path rest w0; apply embed_loop_skip].
  intros path Hp. destruct (Hcov path Hp) as [v Hv].
  specialize (C3 path v Hv). unfold srt_to_embed, dict_get. rewrite Hv.
  destruct (target a) as [lang|] eqn:Et.
  - destruct C3 as [-> Hx].
    assert (E : py_or (py_or (Some (translated_srt (srt_base_dir tempdir a)
                                      path lang))
                         (subtitles_translated st !! path))
                  (subtitles_original st !! path)
                = Some (translated_srt (srt_base_dir tempdir a) path lang)).
    { unfold py_or. cbn [truthy_opt]. rewrite translated_srt_truthy.
      cbn [truthy_opt]. by rewrite translated_srt_truthy. }
    rewrite E. split; [|split; [|done]].
    + intros t _ Ht. rewrite Hx in Ht. by injection Ht as <-.
    + intros Hn. destruct Hn. split; eauto.
  - destruct C3 as [-> Ho].
    assert (E : py_or (py_or (Some (original_srt (srt_base_dir tempdir a)
                                      path))
                         (subtitles_translated st !! path))
                  (subtitles_original st !! path)
                = Some (original_srt (srt_base_dir tempdir a) path)).
    { unfold py_or. cbn [truthy_opt]. rewrite original_srt_truthy.
      cbn [truthy_opt]. by rewrite original_srt_truthy. }
    rewrite E. split; [|split; [|done]].
    + by intros t [? ?].
    + intros _. split; [eauto|]. by rewrite Ho.
Qed.

Lemma embed_map_precedence_witness :
  exists w' st,
    assemble (py "/tmp") translator_ok load_model_ok transcribe_two
      extract_audio_ok args_es world_scenario = (w', Ok st)
    /\ is_Some (files w' !! py "out/a.srt")
    /\ is_Some (files w' !! py "out/a_es.srt")
    /\ subtitles_translated st !! py "a.mp4" = Some (py "out/a_es.srt")
    /\ srt_to_embed st (py "a.mp4") = Some (py "out/a_es.srt").
Proof.
  eexists _, _. split; [by vm_compute|].
  split; [eexists; by vm_compute|]. split; [eexists; by vm_compute|].
  split; [by vm_compute|].
  refine (proj1 (proj1 (embed_map_precedence (py "/tmp") translator_ok
            load_model_ok transcribe_two extract_audio_ok mux_ok args_es
            world_scenario _ _ _) (py "a.mp4") _) (py "out/a_es.srt") _ _).
  - by vm_compute.
  - apply elem_of_cons. left. reflexivity.
  - by eexists.
  - by vm_compute.
Defined.

(** * Further properties *)

(** ** The command-line booleans *)

Lemma lower_char_letter (c d : ascii) :
  (97 <= nat_of_ascii d <= 122)%nat ->
  Py.lower_char c = d
  <-> c = d \/ nat_of_ascii d = (nat_of_ascii c + 32)%nat.
Proof.
  intros Hd. unfold Py.lower_char.
  pose proof (nat_ascii_bounded c) as Hc.
  destruct (_ || _) eqn:E.
  - assert ((65 <= nat_of_ascii c <= 90)%nat
            \/ (192 <= nat_of_ascii c <= 222)%nat) as Hn.
    { apply orb_true_iff in E as [E|E].
      - apply andb_true_iff in E as [?%Nat.leb_le ?%Nat.leb_le]. lia.
      - apply andb_true_iff in E as [E _].
        apply andb_true_iff in E as [?%Nat.leb_le ?%Nat.leb_le]. lia. }
    split.
    + intros <-. right. rewrite nat_ascii_embedding; lia.
    + intros [->|H]; [lia|]. rewrite <- H. apply ascii_nat_embedding.
  - split; [auto|]. intros [H|H]; [done|].
    exfalso. apply orb_false_iff in E as [E _].
    apply andb_false_iff in E as [E%Nat.leb_gt|E%Nat.leb_gt]; lia.
Qed.

Lemma lower_letters (s t : str) :
  Forall (fun d => (97 <= nat_of_ascii d <= 122)%nat) t ->
  Py.lower s = t <-> case_variant s t.
Proof.
  intros Ht. revert s. induction Ht as [|d t Hd Ht IH]; intros [|c s].
  - split; [constructor|done].
  - split; [done|]. intros H. inversion H.
  - split; [done|]. intros H. inversion H.
  - unfold case_variant. cbn [Py.lower map]. split.
    + intros [= H1 H2]. constructor.
      * by apply lower_char_letter.
      * by apply IH.
    + intros H. inversion H as [|? ? ? ? H1 H2]; subst.
      f_equal; [by apply lower_char_letter|by apply IH].
Qed.

Lemma lower_char_idem (c : ascii) :
  Py.lower_char (Py.lower_char c) = Py.lower_char c.
Proof. ascii_cases c. Qed.

Lemma lower_idem (s : str) : Py.lower (Py.lower s) = Py.lower s.
Proof.
  unfold Py.lower. rewrite map_map. apply map_ext. intros. apply lower_char_idem.
Qed.

Lemma str2val_lookup (x : str) (b : bool) :
  str2val !! x = Some b
  <-> (x = py "true" /\ b = true) \/ (x = py "false" /\ b = false).
Proof.
  unfold str2val. rewrite lookup_insert_Some, lookup_insert_Some, lookup_empty.
  split.
  - intros [[<- <-]|[_ [[<- <-]|[_ ?]]]]; auto. done.
  - intros [[-> ->]|[-> ->]]; [right|left]; split; try done. left. done.
Qed.

(** X1: [str2bool] accepts exactly the spellings of [true] and [false] in
    any mix of upper and lower case, raises [ValueError] on every other
    string and nothing else, and reads a string as it reads its lower-case
    form. *)
Theorem str2bool_case_insensitive (s : str) :
  (str2bool s = Ok true <-> case_variant s (py "true"))
  /\ (str2bool s = Ok false <-> case_variant s (py "false"))
  /\ (forall e, str2bool s = Raise e -> e = ValueError)
  /\ str2bool (Py.lower s) = str2bool s.
Proof.
  assert (forall b, str2bool s = Ok b <-> str2val !! Py.lower s = Some b) as H.
  { intros b. unfold str2bool. destruct (str2val !! Py.lower s); split; congruence. }
  split; [|split; [|split]].
  - rewrite H, str2val_lookup, <- lower_letters.
    + split; [intros [[? _]|[_ ?]]; done|auto].
    + cbn. repeat constructor; cbn; lia.
  - rewrite H, str2val_lookup, <- lower_letters.
    + split; [intros [[_ ?]|[? _]]; done|auto].
    + cbn. repeat constructor; cbn; lia.
  - unfold str2bool. destruct (str2val !! Py.lower s); congruence.
  - unfold str2bool. by rewrite lower_idem.
Qed.

(** ** Stems and artifact paths *)

Lemma last_occurrence (c : ascii) (s : str) :
  (c ∉ s) \/ exists x y, s = x ++ c :: y /\ c ∉ y.
Proof.
  induction s as [|d s IH].
  - left. apply not_elem_of_nil.
  - destruct IH as [IH|(x & y & -> & Hy)].
    + destruct (decide (d = c)) as [->|Hd].
      * right. exists [], s. done.
      * left. apply not_elem_of_cons. done.
    + right. exists (d :: x), y. done.
Qed.

Lemma basename_spec (p : str) :
  ("/"%char ∉ posixpath.basename p)
  /\ exists d, p = d ++ posixpath.basename p.
Proof.
  destruct (last_occurrence "/" p) as [H|(x & y & -> & Hy)].
  - rewrite basename_plain by done. split; [done|]. by exists [].
  - pose proof (basename_dir x y Hy) as E. cbn [py list_ascii_of_string app] in E.
    rewrite E. split; [done|]. exists (x ++ py "/"). by rewrite <- app_assoc.
Qed.

Lemma splitext_spec (b : str) :
  "/"%char ∉ b ->
  exists stem ext,
    posixpath.splitext b = (stem, ext) /\ b = stem ++ ext
    /\ (ext = [] \/ exists e, ext = "."%char :: e /\ "."%char ∉ e)
    /\ (stem = [] <-> b = []).
Proof.
  intros Hb. unfold posixpath.splitext. rewrite (rfind_absent _ _ Hb).
  destruct (last_occurrence "." b) as [H|(x & y & -> & Hy)].
  - rewrite (rfind_absent _ _ H). cbn [Z.ltb Z.compare andb].
    exists b, []. rewrite app_nil_r. auto.
  - rewrite (rfind_last _ _ _ Hy).
    assert (posixpath.slice (x ++ "."%char :: y) (-1 + 1) (Z.of_nat (length x))
            = x) as ->.
    { unfold posixpath.slice.
      replace (Z.to_nat (Z.of_nat (length x) - (-1 + 1))) with (length x)
        by lia.
      replace (Z.to_nat (-1 + 1)) with 0%nat by lia.
      rewrite drop_0. by rewrite take_app_length. }
    assert ((-1 <? Z.of_nat (length x)) = true) as -> by (apply Z.ltb_lt; lia).
    cbn [andb]. destruct (existsb _ x) eqn:E.
    + rewrite Nat2Z.id, take_app_length, drop_app_length.
      exists x, ("."%char :: y). split; [done|]. split; [done|].
      split; [right; eauto|]. split; [intros ->; done|]. by destruct x.
    + exists (x ++ "."%char :: y), []. rewrite app_nil_r. auto.
Qed.

Lemma filename_spec (path : str) :
  exists ext,
    posixpath.basename path = filename path ++ ext
    /\ (ext = [] \/ exists e, ext = "."%char :: e /\ "."%char ∉ e)
    /\ (filename path = [] <-> posixpath.basename path = []).
Proof.
  destruct (basename_spec path) as [Hb _].
  destruct (splitext_spec _ Hb) as (stem & ext & E & Hdec & Hext & Hnil).
  exists ext. unfold filename. rewrite E. done.
Qed.

Lemma filename_no_sep (path : str) : "/"%char ∉ filename path.
Proof.
  destruct (basename_spec path) as [Hb _].
  destruct (filename_spec path) as (ext & E & _).
  rewrite E in Hb. apply not_elem_of_app in Hb. tauto.
Qed.

Lemma nondot_some (x : str) :
  existsb (fun c => negb (Py.ascii_eqb c ".")) x = true
  <-> exists c, c ∈ x /\ c <> "."%char.
Proof.
  rewrite existsb_exists. split.
  - intros (c & Hin & Hc). exists c. split; [by apply list_elem_of_In|].
    apply negb_true_iff in Hc. by apply ascii_eqb_neq in Hc.
  - intros (c & Hin & Hc). exists c. split; [by apply list_elem_of_In|].
    apply negb_true_iff. by apply ascii_eqb_neq.
Qed.

Lemma nondot_none (x : str) :
  existsb (fun c => negb (Py.ascii_eqb c ".")) x = false
  <-> Forall (fun c => c = "."%char) x.
Proof.
  induction x as [|c x IH]; cbn [existsb]; [done|].
  rewrite orb_false_iff, IH, Forall_cons, negb_false_iff, ascii_eqb_eq.
  done.
Qed.

Lemma splitext_extension (b : str) :
  "/"%char ∉ b ->
  exists stem ext,
    posixpath.splitext b = (stem, ext) /\ b = stem ++ ext
    /\ extension_of stem ext.
Proof.
  intros Hb. unfold posixpath.splitext. rewrite (rfind_absent _ _ Hb).
  destruct (last_occurrence "." b) as [H|(x & y & -> & Hy)].
  - rewrite (rfind_absent _ _ H). cbn [Z.ltb Z.compare andb].
    exists b, []. rewrite app_nil_r. split; [done|]. split; [done|].
    left. split; [done|]. by exists [], b.
  - rewrite (rfind_last _ _ _ Hy).
    assert (posixpath.slice (x ++ "."%char :: y) (-1 + 1) (Z.of_nat (length x))
            = x) as ->.
    { unfold posixpath.slice.
      replace (Z.to_nat (Z.of_nat (length x) - (-1 + 1))) with (length x)
        by lia.
      replace (Z.to_nat (-1 + 1)) with 0%nat by lia.
      rewrite drop_0. by rewrite take_app_length. }
    assert ((-1 <? Z.of_nat (length x)) = true) as -> by (apply Z.ltb_lt; lia).
    cbn [andb]. destruct (existsb _ x) eqn:E.
    + rewrite Nat2Z.id, take_app_length, drop_app_length.
      exists x, ("."%char :: y). split; [done|]. split; [done|].
      right. split; [eauto|]. by apply nondot_some.
    + exists (x ++ "."%char :: y), []. rewrite app_nil_r.
      split; [done|]. split; [done|]. left. split; [done|].
      exists (x ++ ["."%char]), y. rewrite <- app_assoc. split; [done|].
      split; [|done]. apply Forall_app. split; [by apply nondot_none|].
      by constructor.
Qed.

Lemma extension_splitext (stem ext : str) :
  "/"%char ∉ stem ++ ext -> extension_of stem ext ->
  posixpath.splitext (stem ++ ext) = (stem, ext).
Proof.
  intros Hsep [[-> (dots & rest & -> & Hdots & Hrest)]
              |[(e & -> & He) Hc]].
  - rewrite app_nil_r in *. unfold posixpath.splitext.
    rewrite (rfind_absent _ _ Hsep).
    destruct dots as [|c dots _] using rev_ind.
    + cbn [app]. by rewrite (rfind_absent _ _ Hrest).
    + apply Forall_app in Hdots as [Hdots Hc].
      apply Forall_cons in Hc as [-> _].
      rewrite <- app_assoc. cbn [app]. rewrite (rfind_last _ _ _ Hrest).
      assert (posixpath.slice (dots ++ "."%char :: rest) (-1 + 1)
                (Z.of_nat (length dots)) = dots) as ->.
      { unfold posixpath.slice.
        replace (Z.to_nat (Z.of_nat (length dots) - (-1 + 1)))
          with (length dots) by lia.
        replace (Z.to_nat (-1 + 1)) with 0%nat by lia.
        rewrite drop_0. by rewrite take_app_length. }
      apply nondot_none in Hdots. rewrite Hdots. by rewrite andb_false_r.
  - apply not_elem_of_app in Hsep as [Hs Hx].
    apply not_elem_of_cons in Hx as [_ Hx].
    apply (splitext_stem_ext stem e); try done. by apply nondot_some.
Qed.

(** X7: [filename] returns the last component of the path without its
    extension, and nothing else does.  A string is the stem of a path
    exactly when the path is a directory part, empty or ending in [/], then
    the stem, then an extension, the two holding no [/], where the
    extension is what [os.path.splitext] cuts off: from the last dot on, or
    nothing when the component has no dot or only dots before its last
    one.  The stem is empty exactly when the path is empty or ends in
    [/]. *)
Theorem filename_stem_ext (path stem : str) :
  (filename path = stem
   <-> exists dir ext,
         path = dir ++ stem ++ ext
         /\ (dir = [] \/ exists d, dir = d ++ py "/")
         /\ ("/"%char ∉ stem ++ ext)
         /\ extension_of stem ext)
  /\ (filename path = [] <-> path = [] \/ exists d, path = d ++ py "/").
Proof.
  assert (exists dir, path = dir ++ posixpath.basename path
                      /\ (dir = [] \/ exists d, dir = d ++ py "/"))
    as (dir & Hd & Hdir).
  { destruct (last_occurrence "/" path) as [H|(x & y & -> & Hy)].
    - rewrite basename_plain by done. exists []. auto.
    - pose proof (basename_dir x y Hy) as E'.
      cbn [py list_ascii_of_string app] in E'. rewrite E'.
      exists (x ++ py "/"). rewrite <- app_assoc. eauto. }
  destruct (basename_spec path) as [Hb _].
  split.
  - split.
    + intros <-.
      destruct (splitext_extension _ Hb) as (s & ext & E & Hdec & Hext).
      exists dir, ext. unfold filename. rewrite E. cbn [fst].
      rewrite <- Hdec. split; [exact Hd|]. split; [exact Hdir|].
      split; [exact Hb|exact Hext].
    + intros (dir' & ext & -> & Hdir' & Hsep & Hext). unfold filename.
      assert (posixpath.basename (dir' ++ stem ++ ext) = stem ++ ext) as ->.
      { destruct Hdir' as [->|[d ->]].
        - by apply basename_plain.
        - rewrite <- app_assoc. by apply basename_dir. }
      by rewrite extension_splitext.
  - destruct (filename_spec path) as (ext & E & Hext & Hnil).
    rewrite Hnil. split.
    + intros H. rewrite H, app_nil_r in Hd. subst dir.
      destruct Hdir as [->|?]; auto.
    + intros [->|[d ->]]; [done|].
      rewrite <- (app_nil_r (py "/")). apply basename_dir, not_elem_of_nil.
Qed.

Lemma join_relative (base x : str) :
  Py.startswith (py "/") x = false ->
  exists sep, (forall y, Py.startswith (py "/") y = false ->
                 posixpath.join base y = base ++ sep ++ y)
              /\ posixpath.join base x = base ++ sep ++ x.
Proof.
  intros Hx. unfold posixpath.join.
  destruct (negb (truthy base) || Py.endswith (py "/") base).
  - exists []. split; [|by rewrite Hx]. intros y ->. done.
  - exists (py "/"). split; [|by rewrite Hx]. intros y ->. done.
Qed.

Lemma stem_relative (path suffix : str) :
  Py.startswith (py "/") (filename path ++ py "." ++ suffix) = false
  /\ Py.startswith (py "/") (filename path ++ py "_" ++ suffix) = false.
Proof.
  pose proof (filename_no_sep path) as H.
  destruct (filename path) as [|c t]; [done|].
  apply not_elem_of_cons in H as [H _].
  split; apply startswith_head_differs; congruence.
Qed.

(** X8: for a given base directory, the original artifact path determines
    the stem of the video and so does the translated one for a given
    language; the original and the translated artifact of a video differ;
    and the original artifact of one video is the translated artifact of
    another exactly when its stem is the other stem followed by [_] and the
    language. *)
Theorem artifact_path_determines_stem (base lang p1 p2 : str) :
  (original_srt base p1 = original_srt base p2 <-> filename p1 = filename p2)
  /\ (translated_srt base p1 lang = translated_srt base p2 lang
      <-> filename p1 = filename p2)
  /\ original_srt base p1 <> translated_srt base p1 lang
  /\ (original_srt base p2 = translated_srt base p1 lang
      <-> filename p2 = filename p1 ++ py "_" ++ lang).
Proof.
  unfold original_srt, translated_srt.
  destruct (stem_relative p1 (py "srt")) as [H1 _].
  destruct (stem_relative p2 (py "srt")) as [H2 _].
  destruct (stem_relative p1 (lang ++ py ".srt")) as [_ H3].
  destruct (stem_relative p2 (lang ++ py ".srt")) as [_ H4].
  destruct (join_relative base _ H1) as (sep & Hj & _).
  cbn [py list_ascii_of_string app] in *.
  rewrite !Hj by done.
  split; [|split; [|split]].
  - split; [|by intros ->]. intros H. apply app_inv_head in H.
    apply app_inv_head in H. by apply app_inv_tail in H.
  - split; [|by intros ->]. intros H. do 2 apply app_inv_head in H.
    by apply (app_inv_tail ("_"%char :: lang ++ py ".srt")) in H.
  - intros H. do 3 apply app_inv_head in H. done.
  - split.
    + intros H. do 2 apply app_inv_head in H.
      change ("_"%char :: lang ++ ?x) with (("_"%char :: lang) ++ x) in H.
      rewrite app_assoc in H. by apply app_inv_tail in H.
    + intros ->. by rewrite <- app_assoc.
Qed.

(** ** Rounding to 53 bits *)

Lemma shifted_step (M n : Z) (mrs : shr_record) :
  0 <= M -> 0 <= n -> shifted M n mrs -> shifted M (n + 1) (shr_1 mrs).
Proof.
  intros HM Hn (Hm & Hr & Hs).
  assert (0 < 2 ^ n) as Hp by (apply Z.pow_pos_nonneg; lia).
  assert (0 <= shr_m mrs) as Hm0 by (rewrite Hm; apply Z.div_pos; lia).
  rewrite shr_1_nonneg by done. unfold shifted. cbn [shr_m shr_r shr_s].
  rewrite Z.pow_add_r, Z.pow_1_r by lia.
  assert (M mod (2 ^ n * 2) = 2 ^ n * (shr_m mrs mod 2) + M mod 2 ^ n) as Hrem.
  { rewrite Hm. rewrite Z.rem_mul_r by lia. lia. }
  assert (M / (2 ^ n * 2) = shr_m mrs / 2) as Hquo.
  { rewrite Hm. by rewrite Z.div_div by lia. }
  rewrite Hrem, Hquo, Z.div2_div.
  pose proof (Z.mod_pos_bound M (2 ^ n) Hp) as Hb.
  split; [done|].
  rewrite Zmod_odd. destruct (Z.odd (shr_m mrs)).
  - split; [lia|].
    intros [Hr' Hs']%orb_false_iff. rewrite Hr' in Hs. specialize (Hs Hs'). lia.
  - split; [lia|].
    intros [Hr' Hs']%orb_false_iff. rewrite Hr' in Hs. specialize (Hs Hs'). lia.
Qed.

Lemma shifted_iter (M : Z) (p : positive) :
  0 <= M ->
  shifted M (Zpos p) (SpecFloat.iter_pos shr_1 p (Build_shr_record M false false)).
Proof.
  intros HM.
  apply (iter_pos_invariant shr_1 (shifted M)
           (fun n x Hn => shifted_step M n x HM Hn) p 0); [done|].
  unfold shifted. cbn [shr_m shr_r shr_s]. rewrite Z.pow_0_r, Z.div_1_r, Z.mod_1_r.
  split; [done|]. split; [lia|done].
Qed.

(** Rounding the shifted mantissa to nearest, ties to even, lands within
    half a unit of the last kept bit. *)
Lemma round_nearest_even_shifted (M n : Z) (mrs : shr_record) :
  0 <= M -> 0 <= n -> shifted M n mrs ->
  let m1 := round_nearest_even (shr_m mrs) (loc_of_shr_record mrs) in
  M / 2 ^ n <= m1 <= M / 2 ^ n + 1
  /\ Z.abs (2 * (m1 * 2 ^ n - M)) <= 2 ^ n.
Proof.
  intros HM Hn (Hm & Hr & Hs).
  assert (0 < 2 ^ n) as Hp by (apply Z.pow_pos_nonneg; lia).
  pose proof (Z.mod_pos_bound M (2 ^ n) Hp) as Hb.
  pose proof (Z.div_mod M (2 ^ n) ltac:(lia)) as Hdm.
  destruct mrs as [m r s]. cbn [shr_m shr_r shr_s] in *. subst m.
  destruct r, s; cbn [loc_of_shr_record round_nearest_even];
    try specialize (Hs eq_refl).
  - nia.
  - destruct (Z.even _); nia.
  - nia.
  - nia.
Qed.

Lemma digits2_pos_ge m n : 2 ^ n <= Zpos m -> n < Zpos (digits2_pos m).
Proof.
  intros Hm. destruct (digits2_pos_spec m) as [_ Hhi].
  destruct (Z_lt_ge_dec n (Zpos (digits2_pos m))) as [?|Hge]; [done|].
  assert (2 ^ Zpos (digits2_pos m) <= 2 ^ n) by (apply Z.pow_le_mono_r; lia).
  lia.
Qed.

Lemma digits2_pos_eq m n :
  0 < n -> 2 ^ (n - 1) <= Zpos m < 2 ^ n -> Zpos (digits2_pos m) = n.
Proof.
  intros Hn [Hlo Hhi].
  pose proof (digits2_pos_ge m (n - 1) Hlo).
  pose proof (digits2_pos_le m n ltac:(lia) Hhi). lia.
Qed.

(** [binary_round_aux] on a mantissa [M] of more than 53 bits, [n] bits too
    many: the result is within half a unit in the last place of [M * 2^E]. *)
Lemma binary_round_aux_nearest (M : positive) (E n : Z) :
  0 < n -> Zpos (digits2_pos M) = 53 + n ->
  -1074 <= E + n <= 970 ->
  exists m e,
    normal (binary_round_aux 53 1024 false (Zpos M) E loc_Exact) m e
    /\ E + n <= e <= E + n + 1
    /\ Z.abs (2 * (Zpos m * 2 ^ (e - E) - Zpos M)) <= 2 ^ n.
Proof.
  intros Hn Hd He. unfold binary_round_aux.
  destruct n as [|p|p]; try lia.
  assert (Hs : shr_fexp 53 1024 (Zpos M) E loc_Exact
               = (SpecFloat.iter_pos shr_1 p (Build_shr_record (Zpos M) false false),
                  E + Zpos p)).
  { unfold shr_fexp, fexp, emin. cbn [Zdigits2]. rewrite Hd.
    replace (Z.max (53 + Z.pos p + E - 53) (3 - 1024 - 53) - E)
      with (Z.pos p) by lia.
    done. }
  rewrite Hs.
  pose proof (shifted_iter (Zpos M) p ltac:(lia)) as Hsh.
  destruct (round_nearest_even_shifted (Zpos M) (Zpos p) _ ltac:(lia) ltac:(lia) Hsh)
    as [Hm1 Herr].
  set (r1 := round_nearest_even _ _) in *.
  destruct (digits2_pos_spec M) as [Hlo Hhi]. rewrite Hd in Hlo, Hhi.
  replace (53 + Z.pos p - 1) with (52 + Z.pos p) in Hlo by lia.
  rewrite Z.pow_add_r in Hlo, Hhi by lia.
  assert (0 < 2 ^ Z.pos p) as Hp by (apply Z.pow_pos_nonneg; lia).
  assert (2 ^ 52 <= Z.pos M / 2 ^ Z.pos p) as Hq1
    by (apply Z.div_le_lower_bound; lia).
  assert (Z.pos M / 2 ^ Z.pos p < 2 ^ 53) as Hq2
    by (apply Z.div_lt_upper_bound; lia).
  destruct r1 as [|m1|m1] eqn:Em1; try lia.
  destruct (Z_lt_ge_dec (Zpos m1) (2 ^ 53)) as [Hlt|Hge].
  - assert (Hs2 : shr_fexp 53 1024 (Zpos m1) (E + Zpos p) loc_Exact
                  = (Build_shr_record (Zpos m1) false false, E + Zpos p)).
    { unfold shr_fexp, fexp, emin. cbn [Zdigits2].
      rewrite (digits2_pos_eq m1 53 ltac:(lia)
                 ltac:(change (53 - 1) with 52; lia)).
      replace (Z.max (53 + (E + Z.pos p) - 53) (3 - 1024 - 53) - (E + Z.pos p))
        with 0 by lia.
      done. }
    rewrite Hs2. cbn [shr_m].
    replace (E + Z.pos p <=? 1024 - 53) with true
      by (symmetry; apply Z.leb_le; lia).
    exists m1, (E + Zpos p). split; [split; [done|lia]|]. split; [lia|].
    replace (E + Z.pos p - E) with (Z.pos p) by lia. done.
  - assert (Zpos m1 = 2 ^ 53) as E53 by lia.
    assert (Hs2 : shr_fexp 53 1024 (Zpos m1) (E + Zpos p) loc_Exact
                  = (Build_shr_record (2 ^ 52) false false, E + Zpos p + 1)).
    { unfold shr_fexp, fexp, emin. cbn [Zdigits2].
      rewrite (digits2_pos_eq m1 54 ltac:(lia)
                 ltac:(change (54 - 1) with 53; lia)).
      replace (Z.max (54 + (E + Z.pos p) - 53) (3 - 1024 - 53) - (E + Z.pos p))
        with 1 by lia.
      injection E53 as ->. done. }
    rewrite Hs2. cbn [shr_m].
    replace (E + Z.pos p + 1 <=? 1024 - 53) with true
      by (symmetry; apply Z.leb_le; lia).
    change (2 ^ 52) with (Zpos 4503599627370496).
    exists 4503599627370496%positive, (E + Zpos p + 1).
    split; [split; [done|lia]|]. split; [lia|].
    replace (E + Z.pos p + 1 - E) with (Z.pos p + 1) by lia.
    rewrite Z.pow_add_r, Z.pow_1_r by lia.
    replace (Z.pos 4503599627370496 * (2 ^ Z.pos p * 2))
      with (2 ^ 53 * 2 ^ Z.pos p) by lia.
    rewrite <- E53. done.
Qed.

Lemma pos_iter_xO (m p : positive) : Zpos (Pos.iter xO m p) = Zpos m * 2 ^ Zpos p.
Proof.
  induction p as [|p IH] using Pos.peano_ind.
  - cbn [Pos.iter]. lia.
  - rewrite Pos.iter_succ, Pos2Z.inj_xO, IH, Pos2Z.inj_succ, Z.pow_succ_r by lia.
    lia.
Qed.

(** [float(q)] for a positive [q] below [2^53] is [q] itself, with a full
    mantissa. *)
Lemma float_of_int_normal (q : Z) :
  1 <= q < 2 ^ 53 ->
  exists m e,
    Py.float_of_int q = Ok (S754_finite false m e)
    /\ 2 ^ 52 <= Zpos m < 2 ^ 53 /\ -52 <= e <= 0 /\ Zpos m = q * 2 ^ (- e).
Proof.
  intros Hq. unfold Py.float_of_int, binary_normalize.
  destruct q as [|mq|mq]; try lia.
  unfold binary_round.
  pose proof (digits2_pos_le mq 53 ltac:(lia) ltac:(lia)) as Hd.
  pose proof (digits2_pos_spec mq) as Hspec.
  assert (Hd1 : 1 <= Zpos (digits2_pos mq)) by lia.
  unfold shl_align, fexp, emin.
  replace (Z.max (Z.pos (digits2_pos mq) + 0 - 53) (3 - 1024 - 53) - 0)
    with (Z.pos (digits2_pos mq) - 53) by lia.
  destruct (Z.pos (digits2_pos mq) - 53) as [|p|p] eqn:E; [|lia|].
  - assert (Zpos (digits2_pos mq) = 53) as E53 by lia.
    rewrite binary_round_aux_exact by lia.
    rewrite E53 in Hspec. change (53 - 1) with 52 in Hspec.
    exists mq, 0. split; [done|]. split; [done|]. split; [lia|].
    cbn [Z.opp]. rewrite Z.pow_0_r. lia.
  - replace (Z.max (Z.pos (digits2_pos mq) + 0 - 53) (3 - 1024 - 53))
      with (Z.neg p) by lia.
    assert (Zpos (digits2_pos (Pos.iter xO mq p)) = 53) as E53
      by (rewrite digits2_pos_iter_xO; lia).
    rewrite binary_round_aux_exact by lia.
    pose proof (digits2_pos_spec (Pos.iter xO mq p)) as Hspec'.
    rewrite E53 in Hspec'. change (53 - 1) with 52 in Hspec'.
    exists (Pos.iter xO mq p), (Z.neg p). split; [done|]. split; [done|].
    split; [lia|]. cbn [Z.opp]. apply pos_iter_xO.
Qed.

(** An integer within half a unit of [m * 2^e] is what [round] returns. *)
Lemma round_half_even_near (m e E k : Z) :
  E <= e -> 0 <= - E ->
  Z.abs (2 * (m * 2 ^ (e - E) - k * 2 ^ (- E))) < 2 ^ (- E) ->
  Py.round_half_even m e = k.
Proof.
  intros He HE H. unfold Py.round_half_even.
  assert (0 < 2 ^ (e - E)) as HU by (apply Z.pow_pos_nonneg; lia).
  destruct e as [|p|p].
  - rewrite Z.pow_0_r. replace (0 - E) with (- E) in * by lia. nia.
  - assert (2 ^ (Z.pos p - E) = 2 ^ Z.pos p * 2 ^ (- E)) as E2
      by (rewrite <- Z.pow_add_r by lia; f_equal; lia).
    rewrite E2 in H.
    assert (0 < 2 ^ (- E)) by (apply Z.pow_pos_nonneg; lia).
    set (P := 2 ^ Z.pos p) in *. set (V := 2 ^ (- E)) in *.
    replace (2 * (m * (P * V) - k * V)) with (2 * (m * P - k) * V) in H by ring.
    rewrite Z.abs_mul, (Z.abs_eq V) in H by lia. nia.
  - assert (2 ^ (- E) = 2 ^ (Z.neg p - E) * 2 ^ Z.pos p) as E2
      by (rewrite <- Z.pow_add_r by lia; f_equal; lia).
    assert (0 < 2 ^ Z.pos p) as HD by (apply Z.pow_pos_nonneg; lia).
    rewrite E2 in H.
    set (D := 2 ^ Z.pos p) in *. set (U := 2 ^ (Z.neg p - E)) in *.
    assert (Z.abs (2 * (m - k * D)) < D) as H'.
    { replace (2 * (m * U - k * (U * D))) with (2 * (m - k * D) * U) in H by ring.
      rewrite Z.abs_mul, (Z.abs_eq U) in H by lia. nia. }
    pose proof (Z.div_mod m D ltac:(lia)) as Hdm.
    pose proof (Z.mod_pos_bound m D HD) as Hb.
    assert (m / D = k \/ m / D = k - 1) as [Hq|Hq] by nia.
    + destruct (Z.compare_spec (2 * (m mod D)) D); try lia; nia.
    + destruct (Z.compare_spec (2 * (m mod D)) D); try lia; nia.
Qed.

(** Scaling a double by [1000.0] and rounding to an integer gives [k]
    when the double is close enough to [k / 1000]. *)
Lemma round_scaled (m : positive) (e k : Z) :
  2 ^ 52 <= Zpos m < 2 ^ 53 -> -1000 <= e <= -11 ->
  2 ^ 44 * Z.abs (1000 * Zpos m - k * 2 ^ (- e)) + 2 ^ 53 < 2 ^ (43 - e) ->
  Py.round (Py.fmul (S754_finite false m e) Py.f1000) = Ok k.
Proof.
  intros Hm He H. unfold Py.fmul, Py.f1000, SFmul. cbn [xorb].
  set (M := (m * 8796093022208000)%positive).
  assert (Zpos M = Zpos m * (1000 * 2 ^ 43)) as HM by (subst M; lia).
  assert (2 ^ 104 <= Zpos M < 2 ^ 106) as HMb by lia.
  pose proof (digits2_pos_ge M 104 ltac:(lia)) as Hd1.
  pose proof (digits2_pos_le M 106 ltac:(lia) ltac:(lia)) as Hd2.
  destruct (binary_round_aux_nearest M (e + -43) (Zpos (digits2_pos M) - 53))
    as (m' & e' & [-> Hm'] & He' & Herr); [lia|lia|lia|].
  cbn [Py.round cond_Zopp]. f_equal.
  apply (round_half_even_near _ _ (e + -43)); [lia|lia|].
  replace (- (e + -43)) with (43 - e) by lia.
  assert (2 ^ (Zpos (digits2_pos M) - 53) <= 2 ^ 53) as Hn
    by (apply Z.pow_le_mono_r; lia).
  assert (2 ^ (43 - e) = 2 ^ 43 * 2 ^ (- e)) as E2
    by (rewrite <- Z.pow_add_r by lia; f_equal; lia).
  assert (Zpos M - k * 2 ^ (43 - e)
          = 2 ^ 43 * (1000 * Zpos m - k * 2 ^ (- e))) as E3
    by (rewrite HM, E2; ring).
  replace (2 * (Z.pos m' * 2 ^ (e' - (e + -43)) - k * 2 ^ (43 - e)))
    with (2 * (Z.pos m' * 2 ^ (e' - (e + -43)) - Zpos M)
          + 2 * (Zpos M - k * 2 ^ (43 - e))) by ring.
  rewrite E3.
  assert (Z.abs (2 * (2 ^ 43 * (1000 * Z.pos m - k * 2 ^ (- e))))
          = 2 ^ 44 * Z.abs (1000 * Z.pos m - k * 2 ^ (- e))) as E4.
  { rewrite !Z.abs_mul. change (Z.abs 2) with 2.
    rewrite (Z.abs_eq (2 ^ 43)) by lia. lia. }
  pose proof (Z.abs_triangle
                (2 * (Z.pos m' * 2 ^ (e' - (e + -43)) - Zpos M))
                (2 * (2 ^ 43 * (1000 * Z.pos m - k * 2 ^ (- e))))).
  lia.
Qed.

(** The sum of a whole number of seconds and a fraction of a second is
    rounded to a full mantissa, within half a unit in the last place. *)
Lemma fadd_int_fraction (q : Z) (mq md : positive) (eq ed : Z) :
  1 <= q < 2 ^ 41 ->
  -52 <= eq <= 0 -> Zpos mq = q * 2 ^ (- eq) ->
  2 ^ 52 <= Zpos md < 2 ^ 53 -> -63 <= ed <= -53 ->
  exists m e n,
    Py.fadd (S754_finite false mq eq) (S754_finite false md ed)
    = S754_finite false m e
    /\ 2 ^ 52 <= Zpos m < 2 ^ 53
    /\ 1 <= n <= - ed - 12 /\ ed + n <= e <= ed + n + 1
    /\ Z.abs (2 * (Zpos m * 2 ^ (e - ed) - (q * 2 ^ (- ed) + Zpos md)))
       <= 2 ^ n.
Proof.
  intros Hq Heq Hmq Hmd Hed. unfold Py.fadd, SFadd.
  rewrite Z.min_r by lia. unfold shl_align at 1 2.
  rewrite Z.sub_diag.
  destruct (ed - eq) as [|p|p] eqn:Ep; try lia.
  cbn [fst cond_Zopp].
  set (M := (Pos.iter xO mq p + md)%positive).
  change (Z.pos (Pos.iter xO mq p) + Z.pos md) with (Zpos M).
  cbn [binary_normalize].
  assert (Zpos M = q * 2 ^ (- ed) + Zpos md) as HM.
  { subst M. rewrite Pos2Z.inj_add, pos_iter_xO, Hmq.
    rewrite <- Z.mul_assoc, <- Z.pow_add_r by lia.
    do 3 f_equal. lia. }
  assert (2 ^ 53 <= 2 ^ (- ed)) as Ha by (apply Z.pow_le_mono_r; lia).
  assert (2 ^ (41 + - ed) = 2 ^ 41 * 2 ^ (- ed)) as Hp
    by (rewrite Z.pow_add_r by lia; done).
  pose proof (digits2_pos_ge M 53 ltac:(nia)) as Hd1.
  pose proof (digits2_pos_le M (41 + - ed) ltac:(lia) ltac:(nia)) as Hd2.
  unfold binary_round, shl_align, fexp, emin.
  replace (Z.max (Z.pos (digits2_pos M) + ed - 53) (3 - 1024 - 53) - ed)
    with (Z.pos (digits2_pos M) - 53) by lia.
  destruct (Z.pos (digits2_pos M) - 53) as [|n|n] eqn:En; try lia.
  destruct (binary_round_aux_nearest M ed (Zpos n))
    as (m & e & [-> Hm] & He & Herr); [lia|lia|lia|].
  exists m, e, (Zpos n). rewrite <- HM. split; [done|]. split; [done|].
  split; [lia|]. split; [lia|]. done.
Qed.

(** The quotient of a millisecond field by [1000.0]. *)
Lemma quotient_table (r : Z) :
  1 <= r <= 999 ->
  exists m e,
    Py.int_truediv r Py.f1000 = Ok (S754_finite false m e)
    /\ 2 ^ 52 <= Zpos m < 2 ^ 53 /\ -63 <= e <= -53
    /\ Z.abs (1000 * Zpos m - r * 2 ^ (- e)) <= 500.
Proof.
  intros Hr.
  pose (chk := fun r : Z =>
    match Py.int_truediv r Py.f1000 with
    | Ok (S754_finite false m e) =>
      (2 ^ 52 <=? Zpos m) && (Zpos m <? 2 ^ 53) && (-63 <=? e) && (e <=? -53)
      && (Z.abs (1000 * Zpos m - r * 2 ^ (- e)) <=? 500)
    | _ => false
    end).
  assert (forallb chk (map Z.of_nat (seq 1 999)) = true) as Hall
    by (vm_compute; reflexivity).
  rewrite forallb_forall in Hall.
  assert (chk r = true) as Hc.
  { apply Hall. apply in_map_iff. exists (Z.to_nat r). split; [lia|].
    apply in_seq. lia. }
  unfold chk in Hc.
  destruct (Py.int_truediv r Py.f1000) as [[| | |[] m e]|]; try discriminate.
  apply andb_true_iff in Hc as [Hc H5]. apply andb_true_iff in Hc as [Hc H4].
  apply andb_true_iff in Hc as [Hc H3]. apply andb_true_iff in Hc as [H1 H2].
  exists m, e. split; [done|]. lia.
Qed.

(** Decoding the millisecond count [k] and encoding the result gives [k]
    back. *)
Lemma encode_decoded (k : Z) :
  0 <= k < 1000 * 2 ^ 41 ->
  exists x,
    seconds_of_ms_count k = Ok x /\ Py.ge_zero x = true
    /\ Py.round (Py.fmul x Py.f1000) = Ok k.
Proof.
  intros Hk. unfold seconds_of_ms_count.
  pose proof (Z.div_mod k 1000 ltac:(lia)) as Hdm.
  pose proof (Z.mod_pos_bound k 1000 ltac:(lia)) as Hr.
  assert (0 <= k / 1000 < 2 ^ 41) as Hq.
  { split; [apply Z.div_pos; lia|apply Z.div_lt_upper_bound; lia]. }
  set (q := k / 1000) in *. set (r := k mod 1000) in *.
  destruct (Z.eq_dec r 0) as [Hr0|Hr0].
  - rewrite Hr0. cbn [Py.int_truediv Py.float_of_int binary_normalize
                      mbind result_bind Py.fdiv SFdiv Py.f1000 xorb].
    unfold Py.int_add. destruct (Z.eq_dec q 0) as [Hq0|Hq0].
    + rewrite Hq0. exists (S754_zero false). replace k with 0 by lia. done.
    + destruct (float_of_int_normal q ltac:(lia))
        as (mq & eq & -> & Hmq & Heq & Emq).
      cbn [mbind result_bind Py.fadd SFadd].
      exists (S754_finite false mq eq). split; [done|]. split; [done|].
      assert (12 <= - eq) as Heq'.
      { destruct (Z_le_gt_dec 12 (- eq)) as [?|Hgt]; [done|].
        assert (2 ^ (- eq) <= 2 ^ 11) by (apply Z.pow_le_mono_r; lia). nia. }
      apply round_scaled; [done|lia|].
      replace (1000 * Z.pos mq - k * 2 ^ (- eq)) with 0 by (rewrite Emq; nia).
      assert (2 ^ 53 < 2 ^ (43 - eq)) by (apply Z.pow_lt_mono_r; lia).
      cbn [Z.abs]. lia.
  - destruct (quotient_table r ltac:(lia))
      as (md & ed & -> & Hmd & Hed & Herr).
    cbn [mbind result_bind]. unfold Py.int_add.
    assert (2 ^ 96 <= 2 ^ (43 - ed)) as Hbig by (apply Z.pow_le_mono_r; lia).
    destruct (Z.eq_dec q 0) as [Hq0|Hq0].
    + rewrite Hq0.
      cbn [Py.float_of_int binary_normalize mbind result_bind Py.fadd SFadd].
      exists (S754_finite false md ed). split; [done|]. split; [done|].
      apply round_scaled; [done|lia|]. replace k with r by lia. lia.
    + destruct (float_of_int_normal q ltac:(lia))
        as (mq & eq & -> & Hmq & Heq & Emq).
      cbn [mbind result_bind].
      destruct (fadd_int_fraction q mq md eq ed ltac:(lia) Heq Emq Hmd Hed)
        as (m & e & n & -> & Hm & Hn & He & Hx).
      exists (S754_finite false m e). split; [done|]. split; [done|].
      apply round_scaled; [done|lia|].
      assert (0 < 2 ^ (e - ed)) as HU by (apply Z.pow_pos_nonneg; lia).
      assert (2 ^ (e - ed) <= 2 * 2 ^ n) as HU2.
      { replace (2 * 2 ^ n) with (2 ^ (n + 1))
          by (rewrite Z.pow_add_r by lia; lia).
        apply Z.pow_le_mono_r; lia. }
      assert (4096 * 2 ^ n <= 2 ^ (- ed)) as HN.
      { replace (4096 * 2 ^ n) with (2 ^ (n + 12))
          by (rewrite Z.pow_add_r by lia; lia).
        apply Z.pow_le_mono_r; lia. }
      assert (2 ^ 53 <= 2 ^ (- ed)) as HA by (apply Z.pow_le_mono_r; lia).
      assert (2 ^ (- e) * 2 ^ (e - ed) = 2 ^ (- ed)) as E1
        by (rewrite <- Z.pow_add_r by lia; f_equal; lia).
      assert (2 ^ (43 - e) * 2 ^ (e - ed) = 2 ^ 43 * 2 ^ (- ed)) as E2.
      { rewrite <- !Z.pow_add_r by lia. f_equal. lia. }
      set (U := 2 ^ (e - ed)) in *. set (A := 2 ^ (- ed)) in *.
      set (N := 2 ^ n) in *. set (Y := 1000 * Z.pos m - k * 2 ^ (- e)).
      assert (Y * U
              = 1000 * (Z.pos m * U - (q * A + Z.pos md))
                + (1000 * Z.pos md - r * A)) as EY.
      { subst Y. replace k with (1000 * q + r) by lia.
        rewrite Z.mul_sub_distr_r, <- (Z.mul_assoc (1000 * q + r)), E1. ring. }
      assert (Z.abs Y * U <= 500 * N + 500) as HY.
      { rewrite <- (Z.abs_eq U) at 1 by lia. rewrite <- Z.abs_mul, EY. lia. }
      apply (Z.mul_lt_mono_pos_r U); [done|]. rewrite E2. nia.
Qed.

Lemma parse_format_ms_count (k : Z) :
  0 <= k < 2 ^ 1024 ->
  parse_timestamp (format_ms k true) = seconds_of_ms_count k.
Proof.
  intros Hk. rewrite parse_format_ms by (by apply count_short).
  unfold seconds_of_fields, seconds_of_ms_count. by rewrite fields_total.
Qed.

(** X4: below [1000 * 2^41] milliseconds, decoding an hour-included
    timestamp and encoding the result gives the same timestamp back, with
    or without the hour field: what the decoder loses with respect to the
    double that was encoded never shows in the text. *)
Theorem timestamp_text_stable (k : Z) (always_include_hours : bool) :
  0 <= k < 1000 * 2 ^ 41 ->
  exists x,
    parse_timestamp (format_ms k true) = Ok x
    /\ format_timestamp x always_include_hours
       = Ok (format_ms k always_include_hours).
Proof.
  intros Hk. destruct (encode_decoded k Hk) as (x & Hx & Hge & Hr).
  exists x. rewrite parse_format_ms_count by lia. split; [done|].
  unfold format_timestamp. by rewrite Hge, Hr.
Qed.

Lemma timestamp_text_stable_witness :
  exists x,
    parse_timestamp (py "01:02:05,400") = Ok x
    /\ format_timestamp x false = Ok (py "01:02:05,400").
Proof. apply (timestamp_text_stable 3725400 false). lia. Defined.

Lemma roundtrip_stable (t : spec_float) :
  time_stable t ->
  exists x,
    roundtrip t = Ok x
    /\ format_timestamp x true = format_timestamp t true
    /\ roundtrip x = Ok x /\ time_stable x.
Proof.
  intros (k & Hge & Hr & Hk).
  assert (0 <= k) as Hk0 by (by apply (round_scaled_nonneg t)).
  destruct (encode_decoded k ltac:(lia)) as (x & Hx & Hgx & Hrx).
  exists x. unfold roundtrip, format_timestamp.
  rewrite Hge, Hr, Hgx, Hrx. cbn [negb mbind result_bind].
  rewrite parse_format_ms_count, Hx by lia.
  split; [done|]. split; [done|]. split; [done|]. by exists k.
Qed.

Lemma text_ok_strip (t : str) : text_ok t -> text_ok (Py.strip t).
Proof.
  intros (H1 & H2 & H3 & H4). unfold text_ok, Py.strip.
  rewrite strip_with_idem. split; [done|]. split.
  - destruct (Py.contains (py "-->") (Py.strip_with Py.isspace t)) eqn:E;
      [|done].
    apply contains_strip in E. congruence.
  - split; intros H%elem_of_strip; done.
Qed.

Lemma reread_stable (seg : segment) :
  text_ok (seg_text seg) ->
  time_stable (seg_start seg) -> time_stable (seg_end seg) ->
  exists seg',
    reread seg = Ok seg'
    /\ (forall i, srt_entry i seg' = srt_entry i seg)
    /\ reread seg' = Ok seg'
    /\ text_ok (seg_text seg')
    /\ time_stable (seg_start seg') /\ time_stable (seg_end seg').
Proof.
  intros Ht Hs He.
  destruct (roundtrip_stable _ Hs) as (s & Hs1 & Hs2 & Hs3 & Hs4).
  destruct (roundtrip_stable _ He) as (e & He1 & He2 & He3 & He4).
  exists (Segment s e (Py.strip (seg_text seg))).
  unfold reread, srt_entry. cbn [seg_start seg_end seg_text].
  rewrite Hs1, He1, Hs2, He2, Hs3, He3. cbn [mbind result_bind].
  unfold Py.strip. rewrite strip_with_idem.
  split; [done|]. split; [done|]. split; [done|].
  split; [by apply text_ok_strip|]. done.
Qed.

Lemma reread_all_stable (segs : list segment) :
  Forall (fun seg => text_ok (seg_text seg)
                     /\ time_stable (seg_start seg)
                     /\ time_stable (seg_end seg)) segs ->
  exists segs',
    map_result reread segs = Ok segs'
    /\ (forall i, srt_text_from i segs' = srt_text_from i segs)
    /\ map_result reread segs' = Ok segs'
    /\ Forall (fun seg => text_ok (seg_text seg)
                          /\ time_stable (seg_start seg)
                          /\ time_stable (seg_end seg)) segs'.
Proof.
  induction 1 as [|seg segs (Ht & Hs & He) _ (segs' & H1 & H2 & H3 & H4)].
  - exists []. done.
  - destruct (reread_stable seg Ht Hs He) as (seg' & R1 & R2 & R3 & R4).
    exists (seg' :: segs'). cbn [map_result srt_text_from].
    rewrite R1, H1, R3, H3. cbn [mbind result_bind].
    split; [done|]. split; [|split; [done|by constructor]].
    intros i. by rewrite R2, H2.
Qed.

Lemma time_stable_encodes (t : spec_float) :
  time_stable t -> exists ts, format_timestamp t true = Ok ts.
Proof.
  intros (k & Hge & Hr & _). unfold format_timestamp. rewrite Hge, Hr.
  by eexists.
Qed.

Lemma srt_text_from_stable (segs : list segment) (i : Z) :
  Forall (fun seg => time_stable (seg_start seg)
                     /\ time_stable (seg_end seg)) segs ->
  exists out, srt_text_from i segs = Ok out.
Proof.
  intros H. revert i. induction H as [|seg segs [Hs He] _ IH]; intros i.
  - by eexists.
  - cbn [srt_text_from]. unfold srt_entry.
    destruct (time_stable_encodes _ Hs) as [s ->].
    destruct (time_stable_encodes _ He) as [e ->].
    cbn [mbind result_bind]. destruct (IH (i + 1)) as [out ->]. by eexists.
Qed.

(** X6: for segments with times below [1000 * 2^41] milliseconds and
    texts that are not blank and hold no arrow and no line break, what the
    reader returns from the written file is a fixed point of the round trip:
    writing it gives the same file, character for character, and reading
    that file gives the same segments again. *)
Theorem reread_is_fixed_point (segs : list segment) :
  Forall (fun seg => text_ok (seg_text seg)
                     /\ time_stable (seg_start seg)
                     /\ time_stable (seg_end seg)) segs ->
  exists out segs',
    srt_text_from 1 segs = Ok out
    /\ read_srt out = Ok segs'
    /\ srt_text_from 1 segs' = Ok out
    /\ map_result reread segs' = Ok segs'
    /\ length segs' = length segs.
Proof.
  intros H.
  destruct (srt_text_from_stable segs 1) as [out Hout].
  { eapply Forall_impl; [exact H|]. cbn. tauto. }
  destruct (reread_all_stable segs H) as (segs' & H1 & H2 & H3 & _).
  exists out, segs'. split; [done|].
  rewrite (read_written segs out); [|eapply Forall_impl; [exact H|]; cbn; tauto|done].
  rewrite H2. split; [done|]. split; [done|]. split; [done|].
  apply map_result_Forall2 in H1. symmetry. by eapply Forall2_length.
Qed.

Lemma reread_is_fixed_point_witness :
  exists out segs',
    srt_text_from 1 segs_1118 = Ok out
    /\ read_srt out = Ok segs'
    /\ srt_text_from 1 segs' = Ok out
    /\ map_result reread segs' = Ok segs'
    /\ length segs' = length segs_1118.
Proof.
  apply reread_is_fixed_point. apply Forall_singleton.
  split; [|split].
  - split; [by vm_compute|]. split; [by vm_compute|].
    split; apply (bool_decide_unpack _); by vm_compute.
  - exists 1118. split; [by vm_compute|]. split; [by vm_compute|]. lia.
  - exists 2000. split; [by vm_compute|]. split; [by vm_compute|]. lia.
Defined.

(** ** The grouping of lines into blocks *)

Lemma group_blocks_blank (b : str) (lines : list str) (block : list str) :
  blank b = true ->
  group_blocks (b :: lines) [] block
  = match block with [] => [] | _ :: _ => [block] end
    ++ group_blocks lines [] [].
Proof.
  unfold blank, chomp. intros H. cbn [group_blocks].
  destruct (Py.strip (Py.rstrip_char nl b)); [|done].
  destruct block; [done|]. by rewrite group_blocks_acc.
Qed.

Lemma group_blocks_text (l : str) (lines : list str) (block : list str) :
  blank l = false ->
  group_blocks (l :: lines) [] block
  = group_blocks lines [] (block ++ [chomp l]).
Proof.
  unfold blank, chomp. intros H. cbn [group_blocks].
  by destruct (Py.strip (Py.rstrip_char nl l)).
Qed.

Lemma group_blocks_concat (lines : list str) (block : list str) :
  concat (group_blocks lines [] block)
  = block ++ map chomp (List.filter (fun l => negb (blank l)) lines).
Proof.
  revert block. induction lines as [|l lines IH]; intros block.
  - cbn. destruct block; cbn; by rewrite ?app_nil_r.
  - cbn [List.filter]. destruct (blank l) eqn:E; cbn [negb].
    + rewrite group_blocks_blank by done. rewrite concat_app, IH.
      destruct block; cbn; by rewrite ?app_nil_r.
    + rewrite group_blocks_text by done. rewrite IH. cbn [map].
      by rewrite <- app_assoc.
Qed.

Lemma group_blocks_nonempty (lines : list str) (block : list str) :
  Forall (fun blk => blk <> []) (group_blocks lines [] block).
Proof.
  revert block. induction lines as [|l lines IH]; intros block.
  - cbn. destruct block; by repeat constructor.
  - destruct (blank l) eqn:E.
    + rewrite group_blocks_blank by done. apply Forall_app. split; [|apply IH].
      destruct block; by repeat constructor.
    + rewrite group_blocks_text by done. apply IH.
Qed.

Lemma group_blocks_split (l1 : list str) (b : str) (l2 : list str)
    (block : list str) :
  blank b = true ->
  group_blocks (l1 ++ b :: l2) [] block
  = group_blocks (l1 ++ [b]) [] block ++ group_blocks l2 [] [].
Proof.
  intros Hb. revert block. induction l1 as [|l l1 IH]; intros block.
  - cbn [app]. rewrite !group_blocks_blank by done. cbn [group_blocks].
    by rewrite app_nil_r.
  - cbn [app]. destruct (blank l) eqn:E.
    + rewrite !group_blocks_blank by done. rewrite IH. by rewrite app_assoc.
    + rewrite !group_blocks_text by done. apply IH.
Qed.

Lemma group_blocks_trailing_blank (l1 : list str) (b : str)
    (block : list str) :
  blank b = true ->
  group_blocks (l1 ++ [b]) [] block = group_blocks l1 [] block.
Proof.
  intros Hb. revert block. induction l1 as [|l l1 IH]; intros block.
  - cbn [app]. rewrite group_blocks_blank by done. cbn [group_blocks].
    destruct block; done.
  - cbn [app]. destruct (blank l) eqn:E.
    + rewrite !group_blocks_blank by done. by rewrite IH.
    + rewrite !group_blocks_text by done. apply IH.
Qed.

Lemma group_blocks_run (lines : list str) (block : list str) :
  Forall (fun l => blank l = false) lines ->
  group_blocks lines [] block
  = match block ++ map chomp lines with [] => [] | blk => [blk] end.
Proof.
  intros H. revert block. induction H as [|l lines Hl _ IH]; intros block.
  - cbn. rewrite app_nil_r. by destruct block.
  - rewrite group_blocks_text by done. rewrite IH. cbn [map].
    by rewrite <- app_assoc.
Qed.

(** X9: the grouping loop of [translate_srt_file] splits the lines at the
    blank ones: a blank line ends a block and belongs to none, so the
    blocks before and after it are found independently; a run of non-blank
    lines is one block; no block is empty; and the blocks, put end to end,
    are the non-blank lines in file order, each without its line end. *)
Theorem group_blocks_blank_separated :
  (forall before b after,
     blank b = true ->
     group_blocks (before ++ b :: after) [] []
     = group_blocks before [] [] ++ group_blocks after [] [])
  /\ (forall l lines,
        Forall (fun l => blank l = false) (l :: lines) ->
        group_blocks (l :: lines) [] [] = [map chomp (l :: lines)])
  /\ (forall lines,
        Forall (fun blk => blk <> []) (group_blocks lines [] [])
        /\ concat (group_blocks lines [] [])
           = map chomp (List.filter (fun l => negb (blank l)) lines)).
Proof.
  split; [|split].
  - intros before b after Hb.
    by rewrite group_blocks_split, group_blocks_trailing_blank.
  - intros l lines H. by rewrite group_blocks_run.
  - intros lines. split; [apply group_blocks_nonempty|].
    by rewrite group_blocks_concat.
Qed.

Lemma group_blocks_blank_separated_witness :
  group_blocks [py "1" ++ [nl]; py "a --> b" ++ [nl]; py " " ++ [nl];
                py "2"] [] []
  = [[py "1"; py "a --> b"]; [py "2"]].
Proof.
  pose proof group_blocks_blank_separated as (H1 & H2 & _).
  etrans.
  { apply (H1 [py "1" ++ [nl]; py "a --> b" ++ [nl]] (py " " ++ [nl])
              [py "2"]). by vm_compute. }
  rewrite !H2 by (repeat constructor; by vm_compute). by vm_compute.
Defined.

(** ** Line ends *)

Lemma crlf_cons (c : ascii) (s : str) :
  crlf (c :: s) = (if Py.ascii_eqb c nl then [cr; nl] else [c]) ++ crlf s.
Proof.
  unfold crlf, Py.replace. cbn [Py.replace_aux Py.startswith length].
  destruct (Py.ascii_eqb nl c) eqn:E.
  - apply ascii_eqb_eq in E as <-. rewrite ascii_eqb_refl. done.
  - assert (Py.ascii_eqb c nl = false) as ->.
    { apply ascii_eqb_neq. apply ascii_eqb_neq in E. congruence. }
    done.
Qed.

Lemma universal_newlines_crlf (s : str) :
  cr ∉ s -> universal_newlines (crlf s) = s.
Proof.
  induction s as [|c s IH]; [done|].
  intros [Hc Hs]%not_elem_of_cons. rewrite crlf_cons.
  destruct (Py.ascii_eqb c nl) eqn:E.
  - apply ascii_eqb_eq in E as ->. cbn [app universal_newlines].
    rewrite ascii_eqb_refl.
    change (Py.ascii_eqb nl nl) with true. cbn iota. by rewrite IH.
  - cbn [app universal_newlines].
    assert (Py.ascii_eqb c cr = false) as -> by (by apply ascii_eqb_neq).
    by rewrite IH.
Qed.

(** X10: a subtitle file with Windows line ends is read as the same file
    with Unix line ends: the lines the grouping loop sees are the same, and
    so is everything that is read from them. *)
Theorem crlf_file_reads_alike (content : str) :
  cr ∉ content ->
  file_lines (crlf content) = file_lines content
  /\ read_srt (crlf content) = read_srt content
  /\ forall translator target_lang,
       parse_blocks translator target_lang
         (group_blocks (file_lines (crlf content)) [] []) []
       = parse_blocks translator target_lang
           (group_blocks (file_lines content) [] []) [].
Proof.
  intros H.
  assert (file_lines (crlf content) = file_lines content) as E.
  { unfold file_lines.
    by rewrite universal_newlines_crlf, universal_newlines_nocr. }
  unfold read_srt. rewrite E. done.
Qed.

Lemma crlf_file_reads_alike_witness :
  crlf (py "1" ++ [nl] ++ py "00:00:01,000 --> 00:00:02,000" ++ [nl]
        ++ py "hi" ++ [nl])
  = py "1" ++ [cr; nl] ++ py "00:00:01,000 --> 00:00:02,000" ++ [cr; nl]
    ++ py "hi" ++ [cr; nl]
  /\ read_srt (py "1" ++ [cr; nl] ++ py "00:00:01,000 --> 00:00:02,000"
               ++ [cr; nl] ++ py "hi" ++ [cr; nl])
     = Ok [Segment (seconds_of_ms 1000) (seconds_of_ms 2000) (py "hi")].
Proof.
  split; [by vm_compute|].
  pose proof (crlf_file_reads_alike
                (py "1" ++ [nl] ++ py "00:00:01,000 --> 00:00:02,000" ++ [nl]
                 ++ py "hi" ++ [nl])) as H.
  destruct H as (_ & H & _).
  { apply (bool_decide_unpack _). by vm_compute. }
  etrans; [exact H|]. by vm_compute.
Defined.

(** ** What the encoder raises *)

(** Rounding a positive mantissa gives zero, a finite double or infinity. *)
Lemma binary_round_aux_not_nan (s : bool) (M : positive) (E : Z) :
  binary_round_aux 53 1024 s (Zpos M) E loc_Exact <> S754_nan.
Proof.
  unfold binary_round_aux.
  pose proof (shr_fexp_bound (Zpos M) E ltac:(lia)) as [H1 _].
  destruct (shr_fexp 53 1024 (Zpos M) E loc_Exact) as [mrs e'].
  cbn [fst] in H1. apply round_nearest_even_nonneg in H1.
  pose proof (shr_fexp_bound _ e' H1) as [H2 _].
  destruct (shr_fexp 53 1024 _ e' loc_Exact) as [mrs' e''].
  cbn [fst] in H2.
  destruct (shr_m mrs') as [|p|p]; [done|by destruct (e'' <=? 1024 - 53)|lia].
Qed.

Lemma binary_round_aux_sign (s : bool) (M : positive) (E : Z) :
  match binary_round_aux 53 1024 s (Zpos M) E loc_Exact with
  | S754_zero s' | S754_infinity s' | S754_finite s' _ _ => s' = s
  | S754_nan => True
  end.
Proof.
  unfold binary_round_aux.
  destruct (shr_fexp 53 1024 (Zpos M) E loc_Exact) as [mrs e'].
  destruct (shr_fexp 53 1024 _ e' loc_Exact) as [mrs' e''].
  destruct (shr_m mrs'); try done. by destruct (e'' <=? 1024 - 53).
Qed.

Lemma scaled_cases (seconds : spec_float) :
  Py.ge_zero seconds = true ->
  match Py.fmul seconds Py.f1000 with
  | S754_zero _ => True
  | S754_infinity s | S754_finite s _ _ => s = false
  | S754_nan => False
  end.
Proof.
  destruct seconds as [s|[]| |[] m e]; try done.
  intros _. unfold Py.fmul, Py.f1000, SFmul. cbn [xorb].
  pose proof (binary_round_aux_not_nan false (m * 8796093022208000)
                (e + -43)) as H1.
  pose proof (binary_round_aux_sign false (m * 8796093022208000)
                (e + -43)) as H2.
  by destruct (binary_round_aux _ _ _ _ _ _).
Qed.

Lemma format_timestamp_cases (seconds : spec_float) (hours_flag : bool) :
  format_timestamp seconds hours_flag
  = if Py.ge_zero seconds then
      match Py.fmul seconds Py.f1000 with
      | S754_infinity _ => Raise OverflowError
      | scaled =>
        match Py.round scaled with
        | Ok k => Ok (format_ms k hours_flag)
        | Raise _ => Raise OverflowError
        end
      end
    else Raise AssertionError.
Proof.
  unfold format_timestamp.
  destruct (Py.ge_zero seconds) eqn:Hge; cbn [negb]; [|done].
  pose proof (scaled_cases seconds Hge) as Hc.
  by destruct (Py.fmul seconds Py.f1000).
Qed.

Lemma format_timestamp_raises (seconds : spec_float) (hours_flag : bool)
    (e : exn) :
  format_timestamp seconds hours_flag = Raise e ->
  e = AssertionError \/ e = OverflowError.
Proof.
  rewrite format_timestamp_cases.
  destruct (Py.ge_zero seconds); [|intros [= <-]; auto].
  destruct (Py.fmul seconds Py.f1000); cbn [Py.round];
    intros [= <-]; auto.
Qed.

(** X2: [format_timestamp] fails in two ways only.  It raises
    [AssertionError] exactly when [seconds >= 0] does not hold, which
    includes NaN, and [OverflowError] exactly when [seconds] is not negative
    and [seconds * 1000.0] is infinite; it never raises [ValueError].  In
    every other case it returns the encoding of a non-negative millisecond
    count; negative zero is encoded as zero. *)
Theorem format_timestamp_failures (seconds : spec_float)
    (always_include_hours : bool) :
  (format_timestamp seconds always_include_hours = Raise AssertionError
   <-> Py.ge_zero seconds = false)
  /\ (format_timestamp seconds always_include_hours = Raise OverflowError
      <-> Py.ge_zero seconds = true
          /\ Py.fmul seconds Py.f1000 = S754_infinity false)
  /\ (forall e, format_timestamp seconds always_include_hours = Raise e ->
        e = AssertionError \/ e = OverflowError)
  /\ (forall ts, format_timestamp seconds always_include_hours = Ok ts ->
        exists k, 0 <= k /\ ts = format_ms k always_include_hours)
  /\ format_timestamp S754_nan always_include_hours = Raise AssertionError
  /\ format_timestamp (S754_zero true) always_include_hours
     = Ok (format_ms 0 always_include_hours).
Proof.
  unfold format_timestamp.
  destruct (Py.ge_zero seconds) eqn:Hge; cbn [negb].
  - pose proof (scaled_cases seconds Hge) as Hc.
    pose proof (round_scaled_nonneg seconds) as Hk.
    destruct (Py.fmul seconds Py.f1000) as [s|s| |s m e] eqn:Ef;
      try done; subst; cbn [Py.round mbind result_bind cond_Zopp] in *;
      repeat split; intros; destruct_and?; simplify_eq; eauto.
  - repeat split; intros; destruct_and?; simplify_eq; eauto.
Qed.

(** ** What the writer leaves on the file system *)

Lemma write_srt_from_run (p : str) (segs : list segment) :
  forall i w d,
    files w !! p = Some (File (clock w) d) ->
    write_srt_from i segs p w
    = (World (<[p := File (clock w) (d ++ (written_prefix i segs).1)]>
                (files w)) (clock w) (console w),
       (written_prefix i segs).2).
Proof.
  induction segs as [|seg segs IH]; intros i w d Hp.
  - cbn. unfold mret, M_ret. rewrite app_nil_r, insert_id by done.
    by destruct w.
  - cbn [write_srt_from written_prefix]. unfold mbind, M_bind, lift.
    destruct (srt_entry i seg) as [entry|e] eqn:Ee.
    + unfold fwrite at 1. rewrite Hp. cbn [data].
      erewrite IH; [|cbn; by rewrite lookup_insert_eq].
      destruct (written_prefix (i + 1) segs) as [more r].
      cbn. by rewrite insert_insert_eq, app_assoc.
    + cbn. rewrite app_nil_r, insert_id by done. by destruct w.
Qed.

Lemma written_prefix_ok (segs : list segment) :
  forall i out,
    srt_text_from i segs = Ok out -> written_prefix i segs = (out, Ok tt).
Proof.
  induction segs as [|seg segs IH]; intros i out H.
  - cbn in H. by injection H as <-.
  - cbn [srt_text_from written_prefix] in *.
    destruct (srt_entry i seg) as [entry|]; [|done].
    destruct (srt_text_from (i + 1) segs) as [more|] eqn:Em; [|done].
    cbn in H. injection H as <-. by rewrite (IH _ more).
Qed.

Lemma written_prefix_stop (good : list segment) (bad : segment)
    (rest : list segment) :
  forall i out e,
    srt_text_from i good = Ok out ->
    srt_entry (i + Z.of_nat (length good)) bad = Raise e ->
    written_prefix i (good ++ bad :: rest) = (out, Raise e).
Proof.
  induction good as [|seg good IH]; intros i out e H Hb.
  - cbn in H. injection H as <-. cbn [app written_prefix length] in *.
    rewrite Z.add_0_r in Hb. by rewrite Hb.
  - cbn [srt_text_from app written_prefix] in *.
    destruct (srt_entry i seg) as [entry|]; [|done].
    destruct (srt_text_from (i + 1) good) as [more|] eqn:Em; [|done].
    cbn in H. injection H as <-.
    rewrite (IH (i + 1) more e); [done|done|].
    rewrite <- Hb. f_equal. cbn [length]. lia.
Qed.

Lemma written_prefix_cases (segs : list segment) :
  forall i,
    (exists out, srt_text_from i segs = Ok out
                 /\ written_prefix i segs = (out, Ok tt))
    \/ (exists good bad rest out e,
          segs = good ++ bad :: rest
          /\ srt_text_from i good = Ok out
          /\ srt_entry (i + Z.of_nat (length good)) bad = Raise e
          /\ written_prefix i segs = (out, Raise e)).
Proof.
  induction segs as [|seg segs IH]; intros i.
  - left. by exists [].
  - cbn [srt_text_from written_prefix].
    destruct (srt_entry i seg) as [entry|e] eqn:Ee.
    + destruct (IH (i + 1)) as [(out & H1 & H2)|
                                  (good & bad & rest & out & e & -> & H1 & H2 & H3)].
      * left. exists (entry ++ out). rewrite H1, H2. done.
      * right. exists (seg :: good), bad, rest, (entry ++ out), e.
        cbn [srt_text_from app length]. rewrite Ee, H1, H3.
        split; [done|]. split; [done|]. split; [|done].
        rewrite <- H2. f_equal. lia.
    + right. exists [], seg, segs, [], e. cbn [app srt_text_from length].
      rewrite Z.add_0_r. done.
Qed.

Lemma srt_entry_raises (i : Z) (seg : segment) (e : exn) :
  srt_entry i seg = Raise e -> e = AssertionError \/ e = OverflowError.
Proof.
  unfold srt_entry.
  destruct (format_timestamp (seg_start seg) true) eqn:E1; cbn.
  - destruct (format_timestamp (seg_end seg) true) eqn:E2; cbn; [done|].
    intros [= <-]. by eapply format_timestamp_raises.
  - intros [= <-]. by eapply format_timestamp_raises.
Qed.

(** X5: [write_srt] writes and flushes entry by entry, so a segment whose
    time cannot be encoded stops it half way: the file opened for it holds
    the entries of the segments before that one, numbered from 1, and
    nothing of the later ones; the exception is the encoder's
    [AssertionError] or [OverflowError]; no other file and nothing of the
    console changes. *)
Theorem write_srt_stops_at_first_failure (good : list segment) (bad : segment)
    (rest : list segment) (out : str) (e : exn) (p : str) (w : world) :
  srt_text_from 1 good = Ok out ->
  srt_entry (1 + Z.of_nat (length good)) bad = Raise e ->
  (open_w p ≫= fun _ => write_srt (good ++ bad :: rest) p) w
  = (World (<[p := File (clock w) out]> (files w)) (clock w) (console w),
     Raise e)
  /\ (e = AssertionError \/ e = OverflowError).
Proof.
  intros Hg Hb. split; [|by eapply srt_entry_raises].
  unfold mbind, M_bind, open_w, write_srt.
  rewrite (write_srt_from_run p _ 1 _ []) by (cbn; by rewrite lookup_insert_eq).
  rewrite (written_prefix_stop good bad rest 1 out e Hg Hb).
  cbn. by rewrite insert_insert_eq.
Qed.

Lemma write_srt_stops_at_first_failure_witness :
  exists out,
    (open_w (py "out/a.srt") ≫= fun _ =>
       write_srt (segs_plain
                  ++ Segment (S754_finite true 1 0) (seconds_of_ms 2000)
                       (py "late") :: segs_1118) (py "out/a.srt"))
      (World ∅ 7 [])
    = (World (<[py "out/a.srt" := File 7 out]> ∅) 7 [], Raise AssertionError)
    /\ srt_text_from 1 segs_plain = Ok out.
Proof.
  destruct (srt_text_from 1 segs_plain) as [out|] eqn:E; [|by vm_compute in E].
  exists out. split; [|done].
  apply (write_srt_stops_at_first_failure segs_plain
           (Segment (S754_finite true 1 0) (seconds_of_ms 2000) (py "late"))
           segs_1118 out AssertionError (py "out/a.srt") (World ∅ 7 [])).
  - exact E.
  - by vm_compute.
Defined.

(** ** Translating an existing subtitle file *)

Section TranslateFile.

Variable translator : str -> str -> result str.

Lemma translate_srt_file_run (src dst lang : str) (w : world) :
  translate_srt_file translator src dst lang w
  = match files w !! src with
    | None => (w, Raise FileNotFoundError)
    | Some f =>
      match parse_blocks translator lang
              (group_blocks (file_lines (data f)) [] []) [] with
      | Raise e => (w, Raise e)
      | Ok segs =>
        let w1 := World (<[dst := File (clock w) (written_prefix 1 segs).1]>
                           (files w)) (clock w) (console w) in
        match (written_prefix 1 segs).2 with
        | Ok _ => (log w1 [MsgTranslatedExisting lang dst], Ok dst)
        | Raise e => (w1, Raise e)
        end
      end
    end.
Proof.
  unfold translate_srt_file, mbind, M_bind, open_r, lift.
  destruct (files w !! src) as [f|]; [|done].
  destruct (parse_blocks _ _ _ _) as [segs|e]; [|done].
  unfold open_w, write_srt.
  rewrite (write_srt_from_run dst _ 1 _ []) by (cbn; by rewrite lookup_insert_eq).
  cbn [files clock console app]. rewrite insert_insert_eq.
  by destruct (written_prefix 1 segs).2 as [[]|].
Qed.


End TranslateFile.


(** ** Translating the saved original subtitles again *)

Lemma original_ne_translated (base path lang : str) :
  original_srt base path <> translated_srt base path lang.
Proof.
  unfold original_srt, translated_srt.
  destruct (stem_relative path (py "srt")) as [H1 _].
  destruct (stem_relative path (lang ++ py ".srt")) as [_ H2].
  destruct (join_relative base _ H1) as (sep & Hj & _).
  cbn [py list_ascii_of_string app] in *. rewrite !Hj by done.
  intros H. do 3 apply app_inv_head in H. done.
Qed.

Section Retranslate.

Variable tempdir : str.
Variable translator : str -> str -> result str.

Lemma get_subtitles_step_run (output_srt : bool) (output_dir : str)
    (transcribe : str -> result (list segment)) (lang : str)
    (no nt : gmap str str) (path audio_path : str) (w w' : world)
    (maps : gmap str str * gmap str str) :
  truthy lang = true ->
  get_subtitles_step tempdir translator output_srt output_dir transcribe
    (Some lang) (no, nt) (path, audio_path) w = (w', Ok maps) ->
  let base := if output_srt then output_dir else tempdir in
  exists segs out tsegs tout,
    transcribe audio_path = Ok segs
    /\ srt_text_from 1 segs = Ok out
    /\ map_result (translate_segment translator lang) segs = Ok tsegs
    /\ srt_text_from 1 tsegs = Ok tout
    /\ files w' = <[translated_srt base path lang := File (clock w) tout]>
                    (<[original_srt base path := File (clock w) out]>
                       (files w))
    /\ clock w' = clock w
    /\ console w'
       = console w ++ [MsgGenerating (filename path);
                       MsgSavedOriginal (original_srt base path);
                       MsgTranslating lang;
                       MsgSavedTranslated (translated_srt base path lang)].
Proof.
  intros Hl H base. unfold get_subtitles_step in H. rewrite Hl in H.
  cbv zeta in H. fold base in H.
  change (posixpath.join base (filename path ++ py ".srt"))
    with (original_srt base path) in H.
  change (posixpath.join base (filename path ++ py "_" ++ lang ++ py ".srt"))
    with (translated_srt base path lang) in H.
  change (fun seg : segment =>
            text ← translate_text translator (seg_text seg) lang;
            Ok (Segment (seg_start seg) (seg_end seg) text))
    with (translate_segment translator lang) in H.
  generalize dependent base. intros base H.
  unfold mbind at 1 2 3 4 5 6 7 8 9, M_bind, lift, print, open_w, write_srt in H.
  cbn [files clock console] in H.
  destruct (transcribe audio_path) as [segs|] eqn:Et; [|done].
  rewrite (write_srt_from_run _ _ 1 _ []) in H
    by (cbn; by rewrite lookup_insert_eq).
  cbn [files clock console app] in H. rewrite insert_insert_eq in H.
  destruct (written_prefix_cases segs 1)
    as [(out & H1 & H2)|(good & bad & rest & out & e & -> & H1 & H2 & H3)].
  2:{ rewrite H3 in H. done. }
  rewrite H2 in H. cbn [fst snd files clock console] in H.
  destruct (map_result (translate_segment translator lang) segs)
    as [tsegs|] eqn:Em; [|done].
  rewrite (write_srt_from_run _ _ 1 _ []) in H
    by (cbn; by rewrite lookup_insert_eq).
  cbn [files clock console app] in H. rewrite insert_insert_eq in H.
  destruct (written_prefix_cases tsegs 1)
    as [(tout & T1 & T2)|(good & bad & rest & tout & e & -> & T1 & T2 & T3)].
  2:{ rewrite T3 in H. done. }
  rewrite T2 in H. cbn [fst snd files clock console] in H.
  injection H as <- <-. cbn [files clock console].
  exists segs, out, tsegs, tout. rewrite <- !app_assoc. done.
Qed.

Lemma get_subtitles_step_ok (output_srt : bool) (output_dir : str)
    (transcribe : str -> result (list segment)) (lang : str)
    (no nt : gmap str str) (path audio_path : str) (w : world)
    (segs tsegs : list segment) (out tout : str) :
  truthy lang = true ->
  transcribe audio_path = Ok segs ->
  srt_text_from 1 segs = Ok out ->
  map_result (translate_segment translator lang) segs = Ok tsegs ->
  srt_text_from 1 tsegs = Ok tout ->
  let base := if output_srt then output_dir else tempdir in
  get_subtitles_step tempdir translator output_srt output_dir transcribe
    (Some lang) (no, nt) (path, audio_path) w
  = (World (<[translated_srt base path lang := File (clock w) tout]>
              (<[original_srt base path := File (clock w) out]> (files w)))
       (clock w)
       (console w ++ [MsgGenerating (filename path);
                      MsgSavedOriginal (original_srt base path);
                      MsgTranslating lang;
                      MsgSavedTranslated (translated_srt base path lang)]),
     Ok (<[path := original_srt base path]> no,
         <[path := translated_srt base path lang]> nt)).
Proof.
  intros Hl Htr Hout Hm Htout base. unfold get_subtitles_step. rewrite Hl.
  cbv zeta. fold base.
  change (posixpath.join base (filename path ++ py ".srt"))
    with (original_srt base path).
  change (posixpath.join base (filename path ++ py "_" ++ lang ++ py ".srt"))
    with (translated_srt base path lang).
  change (fun seg : segment =>
            text ← translate_text translator (seg_text seg) lang;
            Ok (Segment (seg_start seg) (seg_end seg) text))
    with (translate_segment translator lang).
  generalize dependent base. intros base.
  unfold mbind at 1 2 3 4 5 6 7 8 9, M_bind, lift, print, open_w, write_srt.
  cbn [files clock console]. rewrite Htr.
  rewrite (write_srt_from_run _ _ 1 _ [])
    by (cbn; by rewrite lookup_insert_eq).
  rewrite (written_prefix_ok _ _ _ Hout).
  cbn [fst snd files clock console app]. rewrite insert_insert_eq, Hm.
  rewrite (write_srt_from_run _ _ 1 _ [])
    by (cbn; by rewrite lookup_insert_eq).
  rewrite (written_prefix_ok _ _ _ Htout).
  cbn [fst snd files clock console app]. rewrite insert_insert_eq.
  unfold mbind, M_bind, mret, M_ret. cbn [files clock console].
  by rewrite <- !app_assoc.
Qed.

Lemma parse_block_translate (lang : str) (blk : list str) :
  parse_block translator lang blk
  = (seg ← parse_block echo [] blk; translate_segment translator lang seg).
Proof.
  unfold parse_block, translate_segment.
  destruct (map Py.strip _) as [|a [|b [|c t]]]; try done.
  destruct (parse_timestamp a); [|done].
  destruct (parse_timestamp b); [|done].
  cbn [mbind result_bind]. by rewrite translate_text_echo.
Qed.

Lemma map_result_bind {A B C} (f : A -> result B) (g : B -> result C)
    (xs : list A) (ys : list B) :
  map_result f xs = Ok ys ->
  map_result (fun x => y ← f x; g y) xs = map_result g ys.
Proof.
  revert ys. induction xs as [|x xs IH]; intros ys H.
  - cbn in H. by injection H as <-.
  - cbn [map_result] in *. destruct (f x) as [y|]; [|done].
    destruct (map_result f xs) as [ys'|]; [|done].
    cbn in H. injection H as <-. cbn [mbind result_bind map_result].
    by rewrite (IH ys').
Qed.

Lemma read_translated (lang : str) (segs segs' : list segment) (out : str) :
  Forall (fun seg => text_ok (seg_text seg)) segs ->
  srt_text_from 1 segs = Ok out ->
  map_result reread segs = Ok segs' ->
  parse_blocks translator lang (group_blocks (file_lines out) [] []) []
  = map_result (translate_segment translator lang) segs'.
Proof.
  intros Hok Hout Hre.
  destruct (srt_text_read segs 1 out ltac:(lia) Hok Hout)
    as (Hcr & blocks & Hb & Hk & Hp).
  unfold file_lines. rewrite universal_newlines_nocr, Hb by done.
  rewrite parse_blocks_spec, Hk.
  assert (map_result (parse_block translator lang) blocks
          = map_result (translate_segment translator lang) segs') as ->.
  { rewrite <- (map_result_bind (parse_block echo []) _ blocks segs')
      by (by rewrite Hp).
    clear. induction blocks as [|blk blocks IH]; [done|].
    cbn [map_result]. by rewrite parse_block_translate, IH. }
  by destruct (map_result _ segs').
Qed.

Lemma translate_text_nonblank (text lang : str) :
  Py.strip text <> [] ->
  translate_text translator text lang = translator lang text
  /\ translate_text translator (Py.strip text) lang
     = translator lang (Py.strip text).
Proof.
  intros H. unfold translate_text, Py.strip. rewrite strip_with_idem.
  fold (Py.strip text).
  assert (truthy (Py.strip text) = true) as Ht by (by destruct (Py.strip text)).
  assert (truthy text = true) as Ht'.
  { destruct text; [|done]. done. }
  by rewrite Ht, Ht'.
Qed.

Lemma retranslated_text (lang : str) (segs tsegs : list segment) :
  Forall (fun seg => text_ok (seg_text seg)
                     /\ time_stable (seg_start seg)
                     /\ time_stable (seg_end seg)) segs ->
  Forall (fun seg => translator lang (Py.strip (seg_text seg))
                     = translator lang (seg_text seg)) segs ->
  map_result (translate_segment translator lang) segs = Ok tsegs ->
  exists segs' tsegs',
    map_result reread segs = Ok segs'
    /\ map_result (translate_segment translator lang) segs' = Ok tsegs'
    /\ forall i, srt_text_from i tsegs' = srt_text_from i tsegs.
Proof.
  intros H. revert tsegs.
  induction H as [|seg segs (Ht & Hs & He) _ IH]; intros tsegs Hw Hm.
  - cbn in Hm. injection Hm as <-. by exists [], [].
  - apply Forall_cons in Hw as [Hw1 Hw2].
    cbn [map_result] in Hm.
    destruct (translate_segment translator lang seg) as [tseg|] eqn:E1;
      [|done].
    destruct (map_result _ segs) as [tsegs0|] eqn:E2; [|done].
    cbn in Hm. injection Hm as <-.
    destruct (IH tsegs0 Hw2 eq_refl) as (segs' & tsegs' & R1 & R2 & R3).
    destruct (roundtrip_stable _ Hs) as (s & Hs1 & Hs2 & _).
    destruct (roundtrip_stable _ He) as (e & He1 & He2 & _).
    destruct Ht as (Hne & _).
    destruct (translate_text_nonblank (seg_text seg) lang Hne) as [T1 T2].
    unfold translate_segment in E1. rewrite T1 in E1.
    destruct (translator lang (seg_text seg)) as [text|] eqn:Etr; [|done].
    cbn in E1. injection E1 as <-.
    exists (Segment s e (Py.strip (seg_text seg)) :: segs'),
           (Segment s e text :: tsegs').
    assert (reread seg = Ok (Segment s e (Py.strip (seg_text seg)))) as Hre.
    { unfold reread. by rewrite Hs1, He1. }
    assert (translate_segment translator lang
              (Segment s e (Py.strip (seg_text seg)))
            = Ok (Segment s e text)) as Htr'.
    { unfold translate_segment. cbn [seg_text seg_start seg_end].
      by rewrite T2, Hw1. }
    cbn [map_result]. rewrite Hre, Htr', R1, R2. cbn [mbind result_bind].
    split; [done|]. split; [done|].
    intros i. cbn [srt_text_from]. rewrite R3.
    unfold srt_entry. cbn [seg_text seg_start seg_end]. by rewrite Hs2, He2.
Qed.

(** X12: translating the saved original subtitles reproduces the translated
    file.  After [get_subtitles] has transcribed a video and written both
    files, [translate_srt_file] from the original file to the translated
    one changes nothing but the console: it writes the same text again.
    This holds for times below [1000 * 2^41] milliseconds, texts that are
    not blank and hold no arrow and no line break, and a translator that
    gives a text and its trimmed form the same translation. *)
Theorem retranslation_reproduces (output_srt : bool) (output_dir : str)
    (transcribe : str -> result (list segment)) (lang : str)
    (no nt : gmap str str) (path audio_path : str) (w w' : world)
    (maps : gmap str str * gmap str str) (segs : list segment) :
  truthy lang = true ->
  get_subtitles_step tempdir translator output_srt output_dir transcribe
    (Some lang) (no, nt) (path, audio_path) w = (w', Ok maps) ->
  transcribe audio_path = Ok segs ->
  Forall (fun seg => text_ok (seg_text seg)
                     /\ time_stable (seg_start seg)
                     /\ time_stable (seg_end seg)) segs ->
  Forall (fun seg => translator lang (Py.strip (seg_text seg))
                     = translator lang (seg_text seg)) segs ->
  let base := if output_srt then output_dir else tempdir in
  translate_srt_file translator (original_srt base path)
    (translated_srt base path lang) lang w'
  = (log w' [MsgTranslatedExisting lang (translated_srt base path lang)],
     Ok (translated_srt base path lang)).
Proof.
  intros Hl Hstep Htr Hsegs Hws base.
  destruct (get_subtitles_step_run _ _ _ _ _ _ _ _ _ _ _ Hl Hstep)
    as (segs0 & out & tsegs & tout & E1 & E2 & E3 & E4 & Ef & Ec & _).
  fold base in Ef. rewrite Htr in E1. injection E1 as <-.
  destruct (retranslated_text lang segs tsegs Hsegs Hws E3)
    as (segs' & tsegs' & R1 & R2 & R3).
  rewrite translate_srt_file_run, Ef.
  rewrite lookup_insert_ne by (intros ?; by eapply original_ne_translated).
  rewrite lookup_insert_eq. cbn [data].
  rewrite (read_translated lang segs segs' out);
    [|eapply Forall_impl; [exact Hsegs|]; cbn; tauto|done|done].
  rewrite R2. cbn zeta.
  rewrite (written_prefix_ok tsegs' 1 tout) by (by rewrite R3).
  cbn [fst snd]. rewrite Ec. rewrite insert_insert_eq.
  unfold log. cbn [files clock console]. rewrite <- Ef, <- Ec.
  by destruct w'.
Qed.

End Retranslate.

Lemma elem_of_map {A B} (f : A -> B) (l : list A) (y : B) :
  y ∈ map f l <-> exists x, y = f x /\ x ∈ l.
Proof.
  rewrite list_elem_of_In, in_map_iff. split.
  - intros (x & <- & H). exists x. by rewrite list_elem_of_In.
  - intros (x & -> & H). exists x. by rewrite <- list_elem_of_In.
Qed.

(** ** What a run does to the file system *)

Section Touches.

Variable W : str -> Prop.

Lemma touches_refl (w : world) : touches W w w.
Proof. split; [done|]. split; [exists []; by rewrite app_nil_r|]. auto. Qed.

Lemma touches_trans (w1 w2 w3 : world) :
  touches W w1 w2 -> touches W w2 w3 -> touches W w1 w3.
Proof.
  intros (Hc1 & [m1 Hm1] & Hf1) (Hc2 & [m2 Hm2] & Hf2).
  split; [congruence|]. split.
  - exists (m1 ++ m2). by rewrite Hm2, Hm1, app_assoc.
  - intros p. destruct (Hf2 p) as [E2|[Hw (d & E2)]].
    + rewrite E2. apply Hf1.
    + right. split; [done|]. exists d. by rewrite E2, Hc1.
Qed.

Lemma touches_log (w : world) (msgs : list message) : touches W w (log w msgs).
Proof. split; [done|]. split; [by exists msgs|]. auto. Qed.

Lemma touches_write (w : world) (p d : str) :
  W p ->
  touches W w (World (<[p := File (clock w) d]> (files w)) (clock w) (console w)).
Proof.
  intros Hp. split; [done|]. split; [exists []; cbn; by rewrite app_nil_r|].
  intros q. cbn [files]. destruct (decide (q = p)) as [->|Hq].
  - right. rewrite lookup_insert_eq. eauto.
  - left. by rewrite lookup_insert_ne.
Qed.

Lemma touches_stamped (w w' : world) (p : str) :
  touches W w w' -> stamped w p -> stamped w' p.
Proof.
  intros (Hc & _ & Hf) [d Hd]. unfold stamped. rewrite Hc.
  destruct (Hf p) as [E|[_ [d' E]]]; rewrite E; eauto.
Qed.

Lemma touches_bind {A B} (m : M A) (f : A -> M B) (w : world) :
  touches W w (m w).1 ->
  (forall w1 x, m w = (w1, Ok x) -> touches W w1 (f x w1).1) ->
  touches W w ((m ≫= f) w).1.
Proof.
  intros Hm Hf. unfold mbind, M_bind.
  destruct (m w) as [w1 [x|e]] eqn:E; cbn [fst] in *; [|done].
  eapply touches_trans; [exact Hm|]. by apply Hf.
Qed.

Lemma touches_for_each {A S} (body : S -> A -> M S) (xs : list A) :
  (forall st x w, x ∈ xs -> touches W w (body st x w).1) ->
  forall st w, touches W w (for_each body st xs w).1.
Proof.
  induction xs as [|x xs IH]; intros Hb st w.
  - apply touches_refl.
  - cbn [for_each]. apply touches_bind.
    + apply Hb. apply elem_of_cons. auto.
    + intros w1 st1 _. apply IH. intros st' y w' Hy. apply Hb.
      apply elem_of_cons. auto.
Qed.

Lemma touches_print (m : message) (w : world) : touches W w (print m w).1.
Proof. apply (touches_log w [m]). Qed.

Lemma touches_lift {A} (r : result A) (w : world) : touches W w (lift r w).1.
Proof. apply touches_refl. Qed.

Lemma touches_ret {A} (x : A) (w : world) : touches W w (mret (M := M) x w).1.
Proof. apply touches_refl. Qed.

Lemma touches_fwrite (p s : str) (w : world) :
  W p -> touches W w (fwrite p s w).1.
Proof. intros Hp. unfold fwrite. cbn [fst]. by apply touches_write. Qed.

Lemma touches_open_w (p : str) (w : world) :
  W p -> touches W w (open_w p w).1.
Proof. intros Hp. unfold open_w. cbn [fst]. by apply touches_write. Qed.

Lemma touches_write_srt_from (p : str) (segs : list segment) :
  W p -> forall i w, touches W w (write_srt_from i segs p w).1.
Proof.
  intros Hp. induction segs as [|seg segs IH]; intros i w.
  - apply touches_refl.
  - cbn [write_srt_from]. apply touches_bind; [apply touches_lift|].
    intros w1 entry _. apply touches_bind; [by apply touches_fwrite|].
    intros w2 [] _. apply IH.
Qed.

Lemma touches_artifact_valid (srt path : str) (w : world) :
  touches W w (artifact_valid srt path w).1.
Proof.
  unfold artifact_valid, mbind, M_bind, path_exists, getmtime.
  destruct (bool_decide _); cbn [fst]; [|apply touches_refl].
  destruct (files w !! srt); cbn [fst]; [|apply touches_refl].
  destruct (files w !! path); apply touches_refl.
Qed.

End Touches.

Lemma touches_mono (W W' : str -> Prop) (w w' : world) :
  (forall p, W p -> W' p) -> touches W w w' -> touches W' w w'.
Proof.
  intros HW (Hc & Hm & Hf). split; [done|]. split; [done|].
  intros p. destruct (Hf p) as [E|[Hp E]]; auto.
Qed.

Ltac touch :=
  repeat first
    [ apply touches_refl | apply touches_print | apply touches_lift
    | apply touches_ret | apply touches_artifact_valid
    | (apply touches_bind; [|intros ? ? _])
    | case_match ].

Section PipelineTouches.

Variable tempdir : str.
Variable makedirs : str -> result unit.
Variable translator : str -> str -> result str.
Variable load_model : str -> result unit.
Variable transcribe : str -> option str -> str -> result (list segment).
Variable extract_audio : str -> str -> result unit.
Variable mux : str -> str -> str -> result unit.
Variable a : args.

Local Abbreviation base := (srt_base_dir tempdir a).

Lemma touches_classify_video (W : str -> Prop) st path w :
  touches W w (classify_video tempdir a st path w).1.
Proof. unfold classify_video. touch. Qed.

Lemma touches_translate_srt_file (W : str -> Prop) src dst lang w :
  W dst -> touches W w (translate_srt_file translator src dst lang w).1.
Proof.
  intros Hd. rewrite translate_srt_file_run.
  destruct (files w !! src); [|apply touches_refl].
  destruct (parse_blocks _ _ _ _); [|apply touches_refl].
  cbn zeta. destruct (written_prefix 1 a0).2; cbn [fst].
  - eapply touches_trans; [by apply touches_write|apply touches_log].
  - by apply touches_write.
Qed.

Lemma touches_translate_one (W : str -> Prop) st p s d w :
  (forall dst, d = Some dst -> W dst) ->
  touches W w (translate_one translator a st (p, s, d) w).1.
Proof.
  intros Hd. unfold translate_one.
  destruct d as [dst|]; [|apply touches_lift].
  destruct (translate_to a); [|apply touches_lift].
  apply touches_bind; [apply touches_translate_srt_file; auto|].
  intros. touch.
Qed.

Lemma touches_get_audio (W : str -> Prop) paths w :
  touches W w (get_audio tempdir extract_audio paths w).1.
Proof. unfold get_audio. apply touches_for_each. intros. touch. Qed.

Lemma touches_get_subtitles_step (W : str -> Prop) tr maps p ap w :
  W (original_srt base p) ->
  (forall lang, target a = Some lang -> W (translated_srt base p lang)) ->
  touches W w
    (get_subtitles_step tempdir translator (output_srt a || srt_only a)
       (output_dir a) tr (translate_to a) maps (p, ap) w).1.
Proof.
  intros Ho Ht. unfold get_subtitles_step. destruct maps as [no nt].
  change (if output_srt a || srt_only a then output_dir a else tempdir)
    with base.
  change (posixpath.join base (filename p ++ py ".srt"))
    with (original_srt base p).
  apply touches_bind; [apply touches_print|]. intros w1 [] _.
  apply touches_bind; [apply touches_lift|]. intros w2 segs _.
  apply touches_bind; [by apply touches_open_w|]. intros w3 [] _.
  apply touches_bind; [by apply touches_write_srt_from|]. intros w4 [] _.
  apply touches_bind; [apply touches_print|]. intros w5 [] _.
  destruct (translate_to a) as [lang|] eqn:El; [|apply touches_ret].
  destruct (truthy lang) eqn:Etl; [|apply touches_ret].
  assert (target a = Some lang) as Htg by (unfold target; by rewrite El, Etl).
  specialize (Ht lang Htg).
  change (posixpath.join base (filename p ++ py "_" ++ lang ++ py ".srt"))
    with (translated_srt base p lang).
  apply touches_bind; [apply touches_print|]. intros w6 [] _.
  apply touches_bind; [apply touches_lift|]. intros w7 tsegs _.
  apply touches_bind; [by apply touches_open_w|]. intros w8 [] _.
  apply touches_bind; [by apply touches_write_srt_from|]. intros w9 [] _.
  apply touches_bind; [apply touches_print|]. intros w10 [] _.
  apply touches_ret.
Qed.

Lemma get_audio_keys_sub paths w w' audios :
  get_audio tempdir extract_audio paths w = (w', Ok audios) ->
  forall p, p ∈ map fst audios -> p ∈ paths.
Proof.
  unfold get_audio. intros H.
  assert (forall xs (d : list (str * str)) w0 w1 d',
            for_each (fun audio_paths path =>
              _ ← print (MsgExtracting (filename path));
              _ ← lift (extract_audio path
                          (posixpath.join tempdir (filename path ++ py ".wav")));
              mret (odict_set audio_paths path
                      (posixpath.join tempdir (filename path ++ py ".wav"))))
              d xs w0 = (w1, Ok d') ->
            forall p, p ∈ map fst d' -> p ∈ map fst d \/ p ∈ xs) as Hgen.
  { induction xs as [|x xs IH]; intros d w0 w1 d' Hr p Hp.
    - cbn in Hr. injection Hr as _ <-. auto.
    - cbn [for_each] in Hr.
      apply bind_ok_inv in Hr as (w2 & d2 & Hb & Hr).
      apply bind_ok_inv in Hb as (w3 & [] & _ & Hb).
      apply bind_ok_inv in Hb as (w4 & [] & _ & Hb).
      injection Hb as _ <-.
      destruct (IH _ _ _ _ Hr p Hp) as [H1|H1].
      + apply odict_set_keys in H1 as [->|H1]; [right; left|auto].
      + right. by right. }
  intros p Hp. destruct (Hgen _ _ _ _ _ H p Hp) as [H1|H1]; [|done].
  cbn in H1. by apply elem_of_nil in H1.
Qed.

Lemma touches_transcribe_stage (W : str -> Prop) st w :
  (forall p, p ∈ videos_to_transcribe st ->
     W (original_srt base p)
     /\ forall lang, target a = Some lang -> W (translated_srt base p lang)) ->
  touches W w
    (transcribe_stage tempdir translator load_model transcribe extract_audio
       a st w).1.
Proof.
  intros HW. unfold transcribe_stage.
  apply touches_bind; [touch|]. intros w1 language_arg _.
  apply touches_bind; [apply touches_lift|]. intros w2 [] _.
  apply touches_bind; [apply touches_get_audio|]. intros w3 audios Ha.
  apply touches_bind.
  - unfold get_subtitles. apply touches_for_each.
    intros maps [p ap] w4 Hin.
    assert (p ∈ videos_to_transcribe st) as Hp.
    { eapply get_audio_keys_sub; [exact Ha|].
      apply elem_of_map. by exists (p, ap). }
    destruct (HW p Hp) as [Ho Ht].
    by apply touches_get_subtitles_step.
  - intros w4 [no nt] _. apply touches_for_each. intros. touch.
Qed.

Lemma touches_embed_loop (W : str -> Prop) st paths w :
  touches W w (embed_loop mux a st paths w).1.
Proof.
  revert w. induction paths as [|p paths IH]; intros w.
  - apply touches_refl.
  - cbn [embed_loop]. destruct (negb _).
    + apply touches_bind; [apply touches_print|]. intros. apply IH.
    + apply touches_bind; [apply touches_print|]. intros.
      apply touches_bind; [apply touches_lift|]. intros.
      apply touches_bind; [apply touches_print|]. intros. apply IH.
Qed.

Lemma translate_loop_transcribe_list xs :
  forall st w w' st',
    for_each (translate_one translator a) st xs w = (w', Ok st') ->
    forall q, q ∈ videos_to_transcribe st' ->
      q ∈ videos_to_transcribe st \/ q ∈ map (fun e => e.1.1) xs.
Proof.
  induction xs as [|[[p s] d] xs IH]; intros st w w' st' H q Hq.
  - cbn in H. injection H as _ <-. auto.
  - cbn [for_each] in H. apply bind_ok_inv in H as (w1 & st1 & Hb & H).
    destruct (IH _ _ _ _ H q Hq) as [H1|H1]; [|right; by right].
    unfold translate_one in Hb.
    destruct d as [dst|]; [|done]. destruct (translate_to a); [|done].
    apply bind_ok_inv in Hb as (w2 & path & _ & Hb).
    destruct (truthy path); injection Hb as _ <-; cbn in H1; [auto|].
    apply elem_of_app in H1 as [H1|H1]; [auto|].
    apply list_elem_of_singleton in H1 as ->. right. by left.
Qed.

Lemma classified_lists (fs : gmap str file) :
  let st := fold_left (classify_pure tempdir a fs) (videos a) initial_state in
  (forall q, q ∈ videos_to_transcribe st ->
     q ∈ videos a /\ classification_of tempdir a fs q = TranscribeFresh)
  /\ (forall p s d, (p, s, d) ∈ translate_existing st ->
        p ∈ videos a
        /\ classification_of tempdir a fs p = TranslateExisting
        /\ exists lang, target a = Some lang
             /\ d = Some (translated_srt base p lang)).
Proof.
  intros st. subst st. rewrite fold_videos_to_transcribe, fold_translate_existing.
  cbn [videos_to_transcribe translate_existing initial_state app]. split.
  - intros q Hq. apply list_elem_of_filter in Hq as [? ?]. done.
  - intros p s d H. apply elem_of_map in H as (v & E & Hv).
    apply list_elem_of_filter in Hv as [Hc Hv].
    unfold translate_entry in E. injection E as -> -> ->.
    split; [done|]. split; [done|].
    unfold classification_of in Hc.
    pose proof (classify_cases (bool_decide (is_Some (target a)))
                  (original_fresh tempdir a fs v)
                  (translated_fresh tempdir a fs v)) as Hcc.
    rewrite Hc in Hcc. destruct Hcc as (Ht & _).
    apply target_is_Some in Ht as [lang Ht]. rewrite Ht. eauto.
Qed.

Lemma touches_assemble w :
  touches (artifact tempdir a) w
    (assemble tempdir translator load_model transcribe extract_audio a w).1.
Proof.
  unfold assemble. apply touches_bind.
  { apply touches_for_each. intros. apply touches_classify_video. }
  intros w1 st1 Hc. apply classify_loop_ok in Hc as [-> Hf1].
  destruct (classified_lists (files w)) as [Hvt Hte].
  set (st1 := fold_left _ _ _) in *.
  apply touches_bind.
  { apply touches_for_each. intros st [[p s] d] w2 Hin.
    apply touches_translate_one. intros dst ->.
    destruct (Hte _ _ _ Hin) as (Hp & _ & lang & Ht & [= ->]).
    exists p. split; [done|]. right. eauto. }
  intros w2 st2 Ht.
  destruct (videos_to_transcribe st2) eqn:Ev; [apply touches_ret|].
  apply touches_transcribe_stage.
  intros p Hp.
  assert (p ∈ videos a) as Hpv.
  { destruct (translate_loop_transcribe_list _ _ _ _ _ Ht p Hp) as [H|H].
    - by apply Hvt.
    - apply elem_of_map in H as ([[p' s] d] & -> & H).
      by apply Hte in H as [? _]. }
  split; [exists p; auto|]. intros lang Hl. exists p. split; [done|]. eauto.
Qed.

Lemma touches_main w :
  touches (artifact tempdir a) w
    (main tempdir makedirs translator load_model transcribe extract_audio mux
       a w).1.
Proof.
  unfold main. apply touches_bind; [apply touches_lift|]. intros w0 [] _.
  apply touches_bind; [apply touches_assemble|].
  intros w1 st _. destruct (srt_only a); [apply touches_ret|].
  apply touches_embed_loop.
Qed.

End PipelineTouches.

(** X15: of the files it opens itself (what ffmpeg writes is not part of the
    model), [main] creates or rewrites subtitle artifacts of the given
    videos only: every other file is as it was, no file disappears, and a
    file that was written carries the time of the clock.  The console only
    grows.  All of this holds whether the run returns or raises, at
    [os.makedirs] already or later. *)
Theorem main_writes_artifacts_only
    (tempdir : str) (makedirs : str -> result unit)
    (translator : str -> str -> result str)
    (load_model : str -> result unit)
    (transcribe : str -> option str -> str -> result (list segment))
    (extract_audio : str -> str -> result unit)
    (mux : str -> str -> str -> result unit) (a : args) (w : world) :
  let w' := (main tempdir makedirs translator load_model transcribe
               extract_audio mux a w).1 in
  clock w' = clock w
  /\ (exists msgs, console w' = console w ++ msgs)
  /\ (forall p, ~ artifact tempdir a p -> files w' !! p = files w !! p)
  /\ (forall p, is_Some (files w !! p) -> is_Some (files w' !! p))
  /\ (forall p, files w' !! p <> files w !! p ->
        exists d, files w' !! p = Some (File (clock w) d)).
Proof.
  intros w'. subst w'.
  destruct (touches_main tempdir makedirs translator load_model transcribe
              extract_audio mux a w) as (Hc & Hm & Hf).
  split; [done|]. split; [done|]. split; [|split].
  - intros p Hp. destruct (Hf p) as [E|[? _]]; done.
  - intros p Hp. destruct (Hf p) as [E|[_ [d E]]]; rewrite E; eauto.
  - intros p Hp. destruct (Hf p) as [E|[_ E]]; done.
Qed.

(** ** Runs that find everything in the cache *)

Lemma reused_srt_truthy tempdir a v : truthy (reused_srt tempdir a v) = true.
Proof.
  unfold reused_srt. destruct (target a).
  - apply translated_srt_truthy.
  - apply original_srt_truthy.
Qed.

Lemma srt_to_embed_mapped st v srt :
  embed_map st !! v = Some (Some srt) -> truthy srt = true ->
  srt_to_embed st v = Some srt.
Proof.
  intros H Ht. unfold srt_to_embed, dict_get, py_or. rewrite H.
  cbn [truthy_opt]. rewrite Ht. cbn [truthy_opt]. by rewrite Ht.
Qed.

Lemma reusable_fresh tempdir a fs v :
  reusable tempdir a fs v = true ->
  fresh fs (reused_srt tempdir a v) v = true.
Proof.
  unfold reusable, classification_of, reused_srt.
  pose proof (classify_cases (bool_decide (is_Some (target a)))
                (original_fresh tempdir a fs v)
                (translated_fresh tempdir a fs v)) as Hc.
  destruct (classify _ _ _); try done; intros _.
  - destruct Hc as [Ht Ho]. apply target_is_None in Ht. by rewrite Ht.
  - destruct Hc as [Ht Hx]. apply target_is_Some in Ht as [lang Ht].
    unfold translated_fresh in Hx. by rewrite Ht in *.
Qed.

Lemma fresh_reusable tempdir a fs v :
  fresh fs (reused_srt tempdir a v) v = true ->
  reusable tempdir a fs v = true.
Proof.
  unfold reusable, classification_of, reused_srt, translated_fresh,
    original_fresh, classify.
  destruct (target a) as [lang|] eqn:Et; intros H.
  - rewrite bool_decide_eq_true_2 by eauto. cbn [negb]. by rewrite H.
  - rewrite bool_decide_eq_false_2 by (by intros [? ?]). cbn [negb].
    by rewrite H.
Qed.

Lemma fresh_video fs artifact video :
  fresh fs artifact video = true -> is_Some (fs !! video).
Proof.
  unfold fresh. destruct (fs !! artifact); [|done].
  destruct (fs !! video); [eauto|done].
Qed.

Lemma filter_none {A} (P : A -> Prop) `{!forall x, Decision (P x)}
    (l : list A) :
  (forall x, x ∈ l -> ~ P x) -> filter P l = [].
Proof.
  induction l as [|x l IH]; intros Hn; [done|].
  rewrite filter_cons. destruct (decide (P x)) as [Hx|_].
  - exfalso. apply (Hn x); [left|done].
  - apply IH. intros y Hy. apply Hn. by right.
Qed.

Section CachedRun.

Variable tempdir : str.
Variable a : args.

Lemma classify_video_reports st path w fv :
  files w !! path = Some fv ->
  classify_video tempdir a st path w
  = (log w (cache_reports tempdir a (files w) path),
     Ok (classify_pure tempdir a (files w) st path)).
Proof.
  intros Hv. unfold classify_video, cache_reports.
  rewrite (bind_eq _ _ _ _ _ (artifact_valid_eq _ _ _ _ Hv)).
  unfold classify_pure, record_cached, classification_of, classify,
    reused_srt, translate_entry, translated_fresh, original_fresh.
  set (so := original_srt (srt_base_dir tempdir a) path).
  destruct (fresh (files w) so path) eqn:Eo;
    destruct (target a) as [lang|] eqn:Et.
  all: unfold mbind, M_bind; simpl.
  all: try (erewrite artifact_valid_eq by (simpl; exact Hv)); simpl.
  all: try (destruct (fresh (files w) (translated_srt _ path lang) path) eqn:Etr);
    simpl.
  all: try (rewrite bool_decide_true by eauto).
  all: try (rewrite bool_decide_false by (by intros [? ?])).
  all: simpl.
  all: try reflexivity.
  all: try (by rewrite log_nil).
  unfold log. cbn [files clock console]. by rewrite <- app_assoc.
Qed.

Lemma classify_loop_reports l st w :
  Forall (fun p => is_Some (files w !! p)) l ->
  for_each (classify_video tempdir a) st l w
  = (log w (flat_map (cache_reports tempdir a (files w)) l),
     Ok (fold_left (classify_pure tempdir a (files w)) l st)).
Proof.
  intros Hl. revert st w Hl.
  induction l as [|p l IH]; intros st w Hl; cbn [for_each flat_map fold_left].
  - by rewrite log_nil.
  - apply Forall_cons in Hl as [[fv Hp] Hl].
    rewrite (bind_eq _ _ _ _ _ (classify_video_reports st p w fv Hp)).
    rewrite IH by done. by rewrite log_log.
Qed.

(** When every video is reusable, the stages before the embedding only
    classify: no collaborator is called. *)
Lemma cached_assemble (w : world) :
  (forall v, v ∈ videos a -> reusable tempdir a (files w) v = true) ->
  exists st,
    (forall translator load_model transcribe extract_audio,
       assemble tempdir translator load_model transcribe extract_audio a w
       = (log w (flat_map (cache_reports tempdir a (files w)) (videos a)),
          Ok st))
    /\ forall v, v ∈ videos a ->
         srt_to_embed st v = Some (reused_srt tempdir a v).
Proof.
  intros Hall.
  pose proof (classify_loop_reports (videos a) initial_state w) as Hc.
  rewrite Forall_forall in Hc. specialize (Hc ltac:(
    intros v Hv; eapply fresh_video, reusable_fresh, Hall; done)).
  set (st := fold_left _ _ _) in Hc.
  assert (translate_existing st = []) as Hte.
  { subst st. rewrite fold_translate_existing. cbn [translate_existing
      initial_state app]. rewrite filter_none; [done|].
    intros v Hv Hcl. specialize (Hall v Hv). unfold reusable in Hall.
    by rewrite Hcl in Hall. }
  assert (videos_to_transcribe st = []) as Hvt.
  { subst st. rewrite fold_videos_to_transcribe. cbn [videos_to_transcribe
      initial_state app]. rewrite filter_none; [done|].
    intros v Hv Hcl. specialize (Hall v Hv). unfold reusable in Hall.
    by rewrite Hcl in Hall. }
  exists st. split.
  - intros. unfold assemble. rewrite (bind_eq _ _ _ _ _ Hc).
    rewrite Hte. cbn [for_each]. unfold mbind, M_bind, mret, M_ret.
    by rewrite Hvt.
  - intros v Hv. apply srt_to_embed_mapped; [|apply reused_srt_truthy].
    subst st. rewrite fold_embed_map.
    rewrite bool_decide_eq_true_2 by done. by rewrite Hall.
Qed.


End CachedRun.



(** ** What a run leaves for the next one *)

Lemma touches_eq {A} (W : str -> Prop) (m : M A) (w w' : world) (r : result A) :
  touches W w (m w).1 -> m w = (w', r) -> touches W w w'.
Proof. intros H E. by rewrite E in H. Qed.

Lemma for_each_stamps {A S} (body : S -> A -> M S) (P : A -> str -> Prop) :
  (forall st x w, touches (fun _ => True) w (body st x w).1) ->
  (forall st x w w' st' q,
     body st x w = (w', Ok st') -> P x q -> stamped w' q) ->
  forall xs st w w' st',
    for_each body st xs w = (w', Ok st') ->
    forall x q, x ∈ xs -> P x q -> stamped w' q.
Proof.
  intros Ht Hb. induction xs as [|y xs IH]; intros st w w' st' H x q Hx Hq.
  - by apply elem_of_nil in Hx.
  - cbn [for_each] in H. apply bind_ok_inv in H as (w1 & st1 & Hy & H).
    apply elem_of_cons in Hx as [->|Hx].
    + eapply touches_stamped; [|by eapply Hb].
      eapply touches_eq; [|exact H]. apply touches_for_each. intros. apply Ht.
    + by eapply IH.
Qed.

Section Stamps.

Variable tempdir : str.
Variable translator : str -> str -> result str.
Variable load_model : str -> result unit.
Variable transcribe : str -> option str -> str -> result (list segment).
Variable extract_audio : str -> str -> result unit.
Variable a : args.

Local Abbreviation base := (srt_base_dir tempdir a).

Lemma translate_one_stamps st p s dst w w' st' :
  translate_one translator a st (p, s, Some dst) w = (w', Ok st') ->
  stamped w' dst.
Proof.
  unfold translate_one. destruct (translate_to a) as [lang|]; [|done].
  intros H. apply bind_ok_inv in H as (w1 & path & Hf & H).
  assert (w' = w1) as ->.
  { destruct (truthy path); by injection H as <- _. }
  rewrite translate_srt_file_run in Hf.
  destruct (files w !! s); [|done].
  destruct (parse_blocks _ _ _ _); [|done]. cbn zeta in Hf.
  destruct (written_prefix 1 a0).2; [|done].
  injection Hf as <- _. unfold stamped. cbn [log files clock].
  rewrite lookup_insert_eq. eauto.
Qed.

Lemma translate_loop_stamps xs st w w' st' :
  for_each (translate_one translator a) st xs w = (w', Ok st') ->
  forall p s dst, (p, s, Some dst) ∈ xs -> stamped w' dst.
Proof.
  intros H p s dst Hin.
  eapply (for_each_stamps (translate_one translator a)
            (fun e q => e.2 = Some q)); [| |exact H|exact Hin|done].
  - intros st0 [[p0 s0] d0] w0. apply touches_translate_one. done.
  - intros st0 [[p0 s0] d0] w0 w1 st1 q Hr Hq. cbn in Hq. subst d0.
    by eapply translate_one_stamps.
Qed.

Lemma translate_loop_keeps_queue xs :
  forall st w w' st',
    for_each (translate_one translator a) st xs w = (w', Ok st') ->
    forall q, q ∈ videos_to_transcribe st -> q ∈ videos_to_transcribe st'.
Proof.
  induction xs as [|[[p s] d] xs IH]; intros st w w' st' H q Hq.
  - cbn in H. by injection H as _ <-.
  - cbn [for_each] in H. apply bind_ok_inv in H as (w1 & st1 & Hb & H).
    eapply IH; [exact H|].
    unfold translate_one in Hb.
    destruct d as [dst|]; [|done]. destruct (translate_to a); [|done].
    apply bind_ok_inv in Hb as (w2 & path & _ & Hb).
    destruct (truthy path); injection Hb as _ <-; cbn; [done|].
    apply elem_of_app. auto.
Qed.

Lemma write_srt_stamps p segs w1 w2 :
  (open_w p ≫= fun _ => write_srt segs p) w1 = (w2, Ok tt) ->
  stamped w2 p /\ touches (fun _ => True) w1 w2.
Proof.
  intros H. split.
  - apply bind_ok_inv in H as (w3 & [] & Ho & H).
    eapply (touches_stamped (fun _ => True)).
    + eapply touches_eq; [|exact H]. by apply touches_write_srt_from.
    + unfold open_w in Ho. injection Ho as <-. unfold stamped.
      cbn [files clock]. rewrite lookup_insert_eq. eauto.
  - eapply touches_eq; [|exact H].
    apply touches_bind; [by apply touches_open_w|].
    intros. by apply touches_write_srt_from.
Qed.

Lemma get_subtitles_step_stamps tr maps p ap w w' maps' :
  get_subtitles_step tempdir translator (output_srt a || srt_only a)
    (output_dir a) tr (translate_to a) maps (p, ap) w = (w', Ok maps') ->
  stamped w' (original_srt base p)
  /\ forall lang, target a = Some lang -> stamped w' (translated_srt base p lang).
Proof.
  unfold get_subtitles_step. destruct maps as [no nt].
  change (if output_srt a || srt_only a then output_dir a else tempdir)
    with base.
  change (posixpath.join base (filename p ++ py ".srt"))
    with (original_srt base p).
  intros H.
  apply bind_ok_inv in H as (w1 & [] & _ & H).
  apply bind_ok_inv in H as (w2 & segs & _ & H).
  assert (exists w4,
            (open_w (original_srt base p)
             ≫= fun _ => write_srt segs (original_srt base p)) w2
            = (w4, Ok tt)
            /\ (_ ← print (MsgSavedOriginal (original_srt base p));
                match translate_to a with
                | Some lang =>
                  if truthy lang then
                    _ ← print (MsgTranslating lang);
                    translated_segments ← lift (map_result (fun seg =>
                      text ← translate_text translator (seg_text seg) lang;
                      Ok (Segment (seg_start seg) (seg_end seg) text)) segs);
                    _ ← open_w (translated_srt base p lang);
                    _ ← write_srt translated_segments
                          (translated_srt base p lang);
                    _ ← print (MsgSavedTranslated (translated_srt base p lang));
                    mret (<[p := original_srt base p]> no,
                          <[p := translated_srt base p lang]> nt)
                  else mret (<[p := original_srt base p]> no, nt)
                | None => mret (<[p := original_srt base p]> no, nt)
                end) w4 = (w', Ok maps')) as (w4 & Hw & H').
  { apply bind_ok_inv in H as (w3 & [] & Ho & H).
    apply bind_ok_inv in H as (w4 & [] & Hw & H).
    exists w4. split; [|exact H].
    unfold mbind at 1, M_bind. by rewrite Ho. }
  clear H. destruct (write_srt_stamps _ _ _ _ Hw) as [Hs1 _].
  apply bind_ok_inv in H' as (w5 & [] & Hp5 & H).
  assert (stamped w5 (original_srt base p)) as Hs5.
  { eapply (touches_stamped (fun _ => True)); [|exact Hs1].
    eapply touches_eq; [apply touches_print|exact Hp5]. }
  unfold target. destruct (translate_to a) as [lang|].
  2:{ injection H as <- _. done. }
  destruct (truthy lang).
  2:{ injection H as <- _. done. }
  apply bind_ok_inv in H as (w6 & [] & Hp6 & H).
  apply bind_ok_inv in H as (w7 & tsegs & Hl7 & H).
  assert (exists w9,
            (open_w (translated_srt base p lang)
             ≫= fun _ => write_srt tsegs (translated_srt base p lang)) w7
            = (w9, Ok tt)
            /\ (_ ← print (MsgSavedTranslated (translated_srt base p lang));
                mret (M := M) (<[p := original_srt base p]> no,
                               <[p := translated_srt base p lang]> nt)) w9
               = (w', Ok maps')) as (w9 & Hw9 & H').
  { apply bind_ok_inv in H as (w8 & [] & Ho & H).
    apply bind_ok_inv in H as (w9 & [] & Hw9 & H).
    exists w9. split; [|exact H].
    unfold mbind at 1, M_bind. by rewrite Ho. }
  clear H. destruct (write_srt_stamps _ _ _ _ Hw9) as [Hs9 Ht9].
  apply bind_ok_inv in H' as (w10 & [] & Hp10 & H). injection H as <- _.
  assert (touches (fun _ => True) w9 w10) as Ht10
    by (eapply touches_eq; [apply touches_print|exact Hp10]).
  assert (touches (fun _ => True) w5 w7) as Ht57.
  { eapply touches_trans.
    - eapply touches_eq; [apply touches_print|exact Hp6].
    - eapply touches_eq; [apply touches_lift|exact Hl7]. }
  split.
  - eapply touches_stamped; [exact Ht10|].
    eapply touches_stamped; [exact Ht9|].
    eapply touches_stamped; [exact Ht57|]. done.
  - intros lang' [= <-]. eapply touches_stamped; [exact Ht10|]. done.
Qed.

Lemma transcribe_stage_stamps st w w' st' :
  transcribe_stage tempdir translator load_model transcribe extract_audio
    a st w = (w', Ok st') ->
  forall p, p ∈ videos_to_transcribe st ->
    stamped w' (original_srt base p)
    /\ forall lang, target a = Some lang ->
         stamped w' (translated_srt base p lang).
Proof.
  unfold transcribe_stage. intros H p Hp.
  apply bind_ok_inv in H as (w1 & language_arg & _ & H).
  apply bind_ok_inv in H as (w2 & [] & _ & H).
  apply bind_ok_inv in H as (w3 & audios & Ha & H).
  apply bind_ok_inv in H as (w4 & [no nt] & Hg & H).
  pose proof (get_audio_keys tempdir extract_audio _ _ _ _ Ha p Hp) as Hk.
  apply elem_of_map in Hk as ([p' ap] & -> & Hin). cbn [fst].
  assert (touches (fun _ => True) w4 w') as Ht.
  { eapply touches_eq; [|exact H]. apply touches_for_each. intros. touch. }
  unfold get_subtitles in Hg.
  pose proof (for_each_stamps
                (get_subtitles_step tempdir translator
                   (output_srt a || srt_only a) (output_dir a)
                   (transcribe (model_name a) language_arg) (translate_to a))
                (fun item q =>
                   q = original_srt base item.1
                   \/ exists lang, target a = Some lang
                        /\ q = translated_srt base item.1 lang)) as Hst.
  split.
  - eapply touches_stamped; [exact Ht|].
    eapply Hst; [| |exact Hg|exact Hin|by left].
    + intros maps [q aq] w0. by apply touches_get_subtitles_step.
    + intros maps [q aq] w0 w5 maps' r Hr Hq.
      apply get_subtitles_step_stamps in Hr as [H1 H2]. cbn [fst] in Hq.
      destruct Hq as [->|(lang & Hl & ->)]; auto.
  - intros lang Hl. eapply touches_stamped; [exact Ht|].
    eapply Hst; [| |exact Hg|exact Hin|right; eauto].
    + intros maps [q aq] w0. by apply touches_get_subtitles_step.
    + intros maps [q aq] w0 w5 maps' r Hr Hq.
      apply get_subtitles_step_stamps in Hr as [H1 H2]. cbn [fst] in Hq.
      destruct Hq as [->|(lang' & Hl' & ->)]; auto.
Qed.

(** After the stages before the embedding have returned, the artifact a
    video is embedded with is on disk, at least as new as the video. *)
Lemma assemble_leaves_fresh w w' st :
  assemble tempdir translator load_model transcribe extract_audio a w
  = (w', Ok st) ->
  (forall v, v ∈ videos a ->
     exists fv, files w !! v = Some fv /\ mtime fv <= clock w) ->
  (forall v, v ∈ videos a -> ~ artifact tempdir a v) ->
  forall v, v ∈ videos a -> reusable tempdir a (files w') v = true.
Proof.
  intros H Hvid Hnot v Hv.
  pose proof (touches_eq _ _ _ _ _ (touches_assemble tempdir translator
                load_model transcribe extract_audio a w) H)
    as (Hclock & _ & Hframe).
  destruct (Hvid v Hv) as (fv & Hfv & Hmt).
  assert (files w' !! v = Some fv) as Hfv'.
  { destruct (Hframe v) as [E|[Ha _]]; [by rewrite E|]. by apply Hnot in Ha. }
  apply fresh_reusable.
  assert (forall q, stamped w' q -> fresh (files w') q v = true) as Hstamp.
  { intros q [d Hq]. unfold fresh. rewrite Hq, Hfv'. cbn [mtime].
    apply Z.leb_le. lia. }
  unfold assemble in H.
  apply bind_ok_inv in H as (w1 & st1 & Hc & H).
  apply bind_ok_inv in H as (w2 & st2 & Ht & H).
  pose proof (classify_loop_ok tempdir a _ _ _ _ _ Hc) as [Est1 Hf1].
  assert (touches (fun _ => True) w2 w') as Ht2.
  { destruct (videos_to_transcribe st2).
    - injection H as <- _. apply touches_refl.
    - eapply touches_eq; [|exact H]. by apply touches_transcribe_stage. }
  assert (clock w2 = clock w) as Hc2.
  { destruct Ht2 as [E _]. congruence. }
  destruct (classification_of tempdir a (files w) v) eqn:Ecl.
  - (* reused as it is *)
    assert (reusable tempdir a (files w) v = true) as Hr
      by (unfold reusable; by rewrite Ecl).
    apply reusable_fresh in Hr. unfold fresh in Hr |- *.
    rewrite Hfv in Hr. rewrite Hfv'.
    destruct (Hframe (reused_srt tempdir a v)) as [E|[_ [d E]]]; rewrite E.
    + done.
    + cbn [mtime]. apply Z.leb_le. lia.
  - assert (reusable tempdir a (files w) v = true) as Hr
      by (unfold reusable; by rewrite Ecl).
    apply reusable_fresh in Hr. unfold fresh in Hr |- *.
    rewrite Hfv in Hr. rewrite Hfv'.
    destruct (Hframe (reused_srt tempdir a v)) as [E|[_ [d E]]]; rewrite E.
    + done.
    + cbn [mtime]. apply Z.leb_le. lia.
  - (* translated from the existing original *)
    pose proof (classify_cases (bool_decide (is_Some (target a)))
                  (original_fresh tempdir a (files w) v)
                  (translated_fresh tempdir a (files w) v)) as Hcc.
    unfold classification_of in Ecl. rewrite Ecl in Hcc.
    destruct Hcc as (Htg & _). apply target_is_Some in Htg as [lang Htg].
    unfold reused_srt. rewrite Htg. apply Hstamp.
    eapply touches_stamped; [exact Ht2|].
    eapply (translate_loop_stamps _ _ _ _ _ Ht v
              (original_srt base v)).
    rewrite Est1, fold_translate_existing.
    cbn [translate_existing initial_state app].
    apply elem_of_map. exists v. split.
    + unfold translate_entry. by rewrite Htg.
    + apply list_elem_of_filter. done.
  - (* transcribed *)
    assert (v ∈ videos_to_transcribe st2) as Hin.
    { eapply translate_loop_keeps_queue; [exact Ht|].
      rewrite Est1, fold_videos_to_transcribe.
      cbn [videos_to_transcribe initial_state app].
      apply list_elem_of_filter. done. }
    destruct (videos_to_transcribe st2) eqn:Ev.
    { by apply elem_of_nil in Hin. }
    rewrite <- Ev in Hin.
    destruct (transcribe_stage_stamps _ _ _ _ H v Hin) as [Ho Hx].
    apply Hstamp. unfold reused_srt. destruct (target a); auto.
Qed.

End Stamps.

(** X17: a run fills the cache for the next one.  When the stages before
    the embedding have returned, every video of the batch finds its artifact
    fresh: run again on the resulting file system, these stages call no
    collaborator, whatever it would do, and select the same artifact for
    every video.  The videos are taken to exist with a modification time
    that is not in the future, and not to sit at the path of an artifact of
    the batch. *)
Theorem second_run_is_cached
    (tempdir : str) (translator : str -> str -> result str)
    (load_model : str -> result unit)
    (transcribe : str -> option str -> str -> result (list segment))
    (extract_audio : str -> str -> result unit)
    (a : args) (w w' : world) (st : state) :
  assemble tempdir translator load_model transcribe extract_audio a w
  = (w', Ok st) ->
  (forall v, v ∈ videos a ->
     exists fv, files w !! v = Some fv /\ mtime fv <= clock w) ->
  (forall v, v ∈ videos a -> ~ artifact tempdir a v) ->
  (forall v, v ∈ videos a -> reusable tempdir a (files w') v = true)
  /\ exists msgs st2,
       (forall translator2 load_model2 transcribe2 extract_audio2,
          assemble tempdir translator2 load_model2 transcribe2 extract_audio2
            a w' = (log w' msgs, Ok st2))
       /\ forall v, v ∈ videos a -> srt_to_embed st2 v = srt_to_embed st v.
Proof.
  intros H Hvid Hnot.
  pose proof (assemble_leaves_fresh _ _ _ _ _ _ _ _ _ H Hvid Hnot) as Hall.
  split; [exact Hall|].
  destruct (cached_assemble tempdir a w' Hall) as (st2 & Ha & He).
  exists (flat_map (cache_reports tempdir a (files w')) (videos a)), st2.
  split; [exact Ha|].
  intros v Hv. rewrite (He v Hv).
  destruct (assemble_spec _ _ _ _ _ _ _ _ _ H) as [(_ & _ & C3 & _) Hcov].
  destruct (Hcov v Hv) as [x Hx]. specialize (C3 v x Hx).
  symmetry. unfold reused_srt.
  destruct (target a); destruct C3 as [-> _];
    (apply srt_to_embed_mapped; [done|]).
  - apply translated_srt_truthy.
  - apply original_srt_truthy.
Qed.

(** ** The audio files of a batch *)

Lemma odict_set_NoDup (d : list (str * str)) (k v : str) :
  NoDup (map fst d) -> NoDup (map fst (odict_set d k v)).
Proof.
  induction d as [|[k' v'] d IH]; intros Hd.
  - cbn. apply NoDup_singleton.
  - cbn [odict_set]. apply NoDup_cons in Hd as [Hk Hd].
    destruct (bool_decide (k' = k)) eqn:E.
    + apply bool_decide_eq_true in E as ->. cbn [map fst].
      apply NoDup_cons. done.
    + apply bool_decide_eq_false in E. cbn [map fst]. apply NoDup_cons.
      split; [|by apply IH].
      intros [->|H]%odict_set_keys; done.
Qed.

Lemma odict_set_values (P : str -> str -> Prop) (d : list (str * str))
    (k v : str) :
  P k v -> Forall (fun kv => P kv.1 kv.2) d ->
  Forall (fun kv => P kv.1 kv.2) (odict_set d k v).
Proof.
  intros Hkv. induction 1 as [|[k' v'] d Hx Hd IH]; cbn [odict_set].
  - by repeat constructor.
  - destruct (bool_decide (k' = k)); constructor; done.
Qed.

Section Audio.

Variable tempdir : str.
Variable extract_audio : str -> str -> result unit.

Lemma get_audio_loop (paths : list str) :
  forall d w w' audios,
    for_each (fun audio_paths path =>
      _ ← print (MsgExtracting (filename path));
      _ ← lift (extract_audio path
                  (posixpath.join tempdir (filename path ++ py ".wav")));
      mret (odict_set audio_paths path
              (posixpath.join tempdir (filename path ++ py ".wav"))))
      d paths w = (w', Ok audios) ->
    NoDup (map fst d) ->
    Forall (fun kv => kv.2 = posixpath.join tempdir (filename kv.1 ++ py ".wav"))
      d ->
    NoDup (map fst audios)
    /\ Forall (fun kv => kv.2
                         = posixpath.join tempdir (filename kv.1 ++ py ".wav"))
         audios
    /\ w' = log w (map (fun p => MsgExtracting (filename p)) paths)
    /\ Forall (fun p => extract_audio p
                          (posixpath.join tempdir (filename p ++ py ".wav"))
                        = Ok tt) paths.
Proof.
  induction paths as [|x paths IH]; intros d w w' audios H Hnd Hv.
  - cbn in H. injection H as <- <-. by rewrite log_nil.
  - cbn [for_each] in H. apply bind_ok_inv in H as (w1 & d1 & Hb & H).
    apply bind_ok_inv in Hb as (w2 & [] & Hp & Hb).
    apply bind_ok_inv in Hb as (w3 & [] & Hl & Hb).
    injection Hb as <- <-. injection Hp as <-.
    unfold lift in Hl.
    destruct (extract_audio x _) as [[]|] eqn:Ex; [|done].
    injection Hl as <-.
    destruct (IH _ _ _ _ H) as (H1 & H2 & H3 & H4).
    + by apply odict_set_NoDup.
    + by apply (odict_set_values
                  (fun k v => v = posixpath.join tempdir (filename k ++ py ".wav"))).
    + split; [done|]. split; [done|]. split; [|by constructor].
      rewrite H3. cbn [map]. unfold log. cbn [files clock console].
      by rewrite <- app_assoc.
Qed.

(** X13: [get_audio] returns one entry per distinct video, however often a
    video is listed, and the audio of a video is the file named after its
    stem in the temporary directory; it has run the extraction for every
    listed path, in order, announcing each, and has touched no file that
    [main] reads or writes itself. *)
Theorem get_audio_one_entry_per_video (paths : list str) (w w' : world)
    (audios : list (str * str)) :
  get_audio tempdir extract_audio paths w = (w', Ok audios) ->
  NoDup (map fst audios)
  /\ (forall p, p ∈ map fst audios <-> p ∈ paths)
  /\ (forall p audio_path,
        (p, audio_path) ∈ audios ->
        audio_path = posixpath.join tempdir (filename p ++ py ".wav"))
  /\ w' = log w (map (fun p => MsgExtracting (filename p)) paths)
  /\ Forall (fun p => extract_audio p
                        (posixpath.join tempdir (filename p ++ py ".wav"))
                      = Ok tt) paths.
Proof.
  intros H.
  destruct (get_audio_loop paths [] w w' audios H) as (H1 & H2 & H3 & H4).
  { cbn. apply NoDup_nil. done. }
  { constructor. }
  split; [done|]. split; [|split; [|done]].
  - intros p. split.
    + by eapply get_audio_keys_sub.
    + by eapply get_audio_keys.
  - intros p ap Hin. rewrite Forall_forall in H2. by apply (H2 (p, ap)).
Qed.

End Audio.

Lemma get_audio_one_entry_per_video_witness :
  exists w' audios,
    get_audio (py "/tmp") extract_audio_ok
      [py "x/a.mp4"; py "b.mkv"; py "x/a.mp4"] (World ∅ 7 [])
    = (w', Ok audios)
    /\ map fst audios = [py "x/a.mp4"; py "b.mkv"]
    /\ NoDup (map fst audios)
    /\ console w' = [MsgExtracting (py "a"); MsgExtracting (py "b");
                     MsgExtracting (py "a")].
Proof.
  destruct (get_audio (py "/tmp") extract_audio_ok
              [py "x/a.mp4"; py "b.mkv"; py "x/a.mp4"] (World ∅ 7 []))
    as [w' [audios|]] eqn:E; [|by vm_compute in E].
  exists w', audios. split; [done|].
  destruct (get_audio_one_entry_per_video _ _ _ _ _ _ E) as (H1 & _ & _ & H4 & _).
  split; [by vm_compute in E; injection E as _ <-|]. split; [done|].
  rewrite H4. done.
Defined.

(** ** A translation that fails after the transcription *)

Section TranslationFailure.

Variable tempdir : str.
Variable translator : str -> str -> result str.

(** X14: when the translation of a fresh transcript fails, the original
    subtitles are already on disk, complete, and the translated file was
    not opened: [get_subtitles] raises the translator's exception with the
    original artifact written and nothing else changed.  Seen from the next
    run, the video then has a fresh original and no fresh translation, and
    is classified for translation of the existing file, not for
    transcription. *)
Theorem translation_failure_keeps_original (a : args)
    (transcribe : str -> result (list segment)) (lang : str)
    (maps : gmap str str * gmap str str) (path audio_path : str) (w : world)
    (segs : list segment) (out : str) (e : exn) (fv : file) :
  translate_to a = Some lang -> truthy lang = true ->
  transcribe audio_path = Ok segs ->
  srt_text_from 1 segs = Ok out ->
  map_result (translate_segment translator lang) segs = Raise e ->
  files w !! path = Some fv -> mtime fv <= clock w ->
  path <> original_srt (srt_base_dir tempdir a) path ->
  fresh (files w) (translated_srt (srt_base_dir tempdir a) path lang) path
  = false ->
  let base := srt_base_dir tempdir a in
  let w' := World (<[original_srt base path := File (clock w) out]> (files w))
              (clock w)
              (console w ++ [MsgGenerating (filename path);
                             MsgSavedOriginal (original_srt base path);
                             MsgTranslating lang]) in
  get_subtitles_step tempdir translator (output_srt a || srt_only a)
    (output_dir a) transcribe (translate_to a) maps (path, audio_path) w
  = (w', Raise e)
  /\ classification_of tempdir a (files w') path = TranslateExisting.
Proof.
  intros Hto Hl Htr Hout Hm Hfv Hmt Hne Hfr base w'. split.
  - unfold get_subtitles_step. destruct maps as [no nt]. rewrite Hto, Hl.
    cbv zeta.
    change (if output_srt a || srt_only a then output_dir a else tempdir)
      with base.
    change (posixpath.join base (filename path ++ py ".srt"))
      with (original_srt base path).
    change (fun seg : segment =>
              text ← translate_text translator (seg_text seg) lang;
              Ok (Segment (seg_start seg) (seg_end seg) text))
      with (translate_segment translator lang).
    unfold mbind at 1 2 3 4 5 6 7, M_bind, lift, print, open_w, write_srt.
    cbn [files clock console]. rewrite Htr.
    rewrite (write_srt_from_run _ _ 1 _ [])
      by (cbn; by rewrite lookup_insert_eq).
    rewrite (written_prefix_ok _ _ _ Hout).
    cbn [fst snd files clock console app]. rewrite insert_insert_eq, Hm.
    subst w'. by rewrite <- !app_assoc.
  - assert (target a = Some lang) as Htg by (unfold target; by rewrite Hto, Hl).
    unfold classification_of, original_fresh, translated_fresh, classify.
    rewrite Htg. rewrite bool_decide_eq_true_2 by eauto. cbn [negb].
    fold base. subst w'. cbn [files].
    assert (fresh (<[original_srt base path := File (clock w) out]> (files w))
              (translated_srt base path lang) path = false) as ->.
    { unfold fresh in *.
      rewrite lookup_insert_ne
        by (intros ?; by eapply original_ne_translated).
      by rewrite lookup_insert_ne by done. }
    assert (fresh (<[original_srt base path := File (clock w) out]> (files w))
              (original_srt base path) path = true) as ->; [|done].
    unfold fresh. rewrite lookup_insert_eq, lookup_insert_ne, Hfv by done.
    cbn [mtime]. apply Z.leb_le. lia.
Qed.

End TranslationFailure.

Lemma translation_failure_keeps_original_witness :
  exists w',
    get_subtitles_step (py "/tmp") translator_down true (py "out")
      (fun _ => Ok segs_plain) (Some (py "es")) (∅, ∅)
      (py "a.mp4", py "/tmp/a.wav") world_scenario
    = (w', Raise TranslationError)
    /\ is_Some (files w' !! py "out/a.srt")
    /\ files w' !! py "out/a_es.srt" = None
    /\ classification_of (py "/tmp") args_es (files w') (py "a.mp4")
       = TranslateExisting.
Proof.
  destruct (srt_text_from 1 segs_plain) as [out|] eqn:E; [|by vm_compute in E].
  destruct (translation_failure_keeps_original (py "/tmp") translator_down
              args_es (fun _ => Ok segs_plain) (py "es") (∅, ∅) (py "a.mp4")
              (py "/tmp/a.wav") world_scenario segs_plain out
              TranslationError (File 5 []))
    as [H1 H2];
    [reflexivity|reflexivity|reflexivity|exact E|by vm_compute|by vm_compute
    |by vm_compute|by vm_compute|by vm_compute|].
  eexists. split; [exact H1|]. split; [|split; [|exact H2]].
  - cbn [files]. change (original_srt _ _) with (py "out/a.srt").
    rewrite lookup_insert_eq. eauto.
  - cbn [files]. by vm_compute.
Defined.

Lemma retranslation_reproduces_witness :
  let w' :=
    World (<[py "out/a_es.srt" :=
               File 9 (py "1" ++ [nl] ++ py "00:00:01,118 --> 00:00:02,000"
                       ++ [nl] ++ py "es:hello" ++ [nl] ++ [nl])]>
             (<[py "out/a.srt" :=
                  File 9 (py "1" ++ [nl]
                          ++ py "00:00:01,118 --> 00:00:02,000" ++ [nl]
                          ++ py "hello" ++ [nl] ++ [nl])]>
                (files world_scenario))) 9
      [MsgGenerating (py "a"); MsgSavedOriginal (py "out/a.srt");
       MsgTranslating (py "es"); MsgSavedTranslated (py "out/a_es.srt")] in
  get_subtitles_step (py "/tmp") translator_ok true (py "out")
    (fun _ => Ok segs_1118) (Some (py "es")) (∅, ∅)
    (py "a.mp4", py "/tmp/a.wav") world_scenario
  = (w', Ok (<[py "a.mp4" := py "out/a.srt"]> ∅,
             <[py "a.mp4" := py "out/a_es.srt"]> ∅))
  /\ translate_srt_file translator_ok (py "out/a.srt") (py "out/a_es.srt")
       (py "es") w'
     = (log w' [MsgTranslatedExisting (py "es") (py "out/a_es.srt")],
        Ok (py "out/a_es.srt")).
Proof.
  intros w'.
  assert (get_subtitles_step (py "/tmp") translator_ok true (py "out")
            (fun _ => Ok segs_1118) (Some (py "es")) (∅, ∅)
            (py "a.mp4", py "/tmp/a.wav") world_scenario
          = (w', Ok (<[py "a.mp4" := py "out/a.srt"]> ∅,
                     <[py "a.mp4" := py "out/a_es.srt"]> ∅))) as E.
  { apply (get_subtitles_step_ok (py "/tmp") translator_ok true (py "out")
             (fun _ => Ok segs_1118) (py "es") ∅ ∅ (py "a.mp4")
             (py "/tmp/a.wav") world_scenario segs_1118
             [Segment (seconds_of_ms 1118) (seconds_of_ms 2000)
                (py "es:hello")]);
      by vm_compute. }
  split; [exact E|].
  apply (retranslation_reproduces (py "/tmp") translator_ok true (py "out")
           (fun _ => Ok segs_1118) (py "es") ∅ ∅ (py "a.mp4")
           (py "/tmp/a.wav") world_scenario w'
           (<[py "a.mp4" := py "out/a.srt"]> ∅,
            <[py "a.mp4" := py "out/a_es.srt"]> ∅) segs_1118).
  - reflexivity.
  - exact E.
  - reflexivity.
  - apply Forall_singleton. split; [|split].
    + split; [by vm_compute|]. split; [by vm_compute|].
      split; apply (bool_decide_unpack _); by vm_compute.
    + exists 1118. split; [by vm_compute|]. split; [by vm_compute|]. lia.
    + exists 2000. split; [by vm_compute|]. split; [by vm_compute|]. lia.
  - apply Forall_singleton. by vm_compute.
Defined.

Lemma second_run_is_cached_witness :
  exists w' st msgs st2,
    assemble (py "/tmp") translator_ok load_model_ok transcribe_two
      extract_audio_ok args_es world_scenario = (w', Ok st)
    /\ (forall translator2 load_model2 transcribe2 extract_audio2,
          assemble (py "/tmp") translator2 load_model2 transcribe2
            extract_audio2 args_es w' = (log w' msgs, Ok st2))
    /\ srt_to_embed st2 (py "a.mp4") = srt_to_embed st (py "a.mp4").
Proof.
  destruct (assemble (py "/tmp") translator_ok load_model_ok transcribe_two
              extract_audio_ok args_es world_scenario)
    as [w' [st|]] eqn:E; [|by vm_compute in E].
  destruct (second_run_is_cached (py "/tmp") translator_ok load_model_ok
              transcribe_two extract_audio_ok args_es world_scenario w' st E)
    as (_ & msgs & st2 & H1 & H2).
  - intros v Hv. apply list_elem_of_singleton in Hv as ->.
    exists (File 5 []). split; [by vm_compute|]. cbn. lia.
  - intros v Hv (v' & Hv' & H). apply list_elem_of_singleton in Hv as ->.
    apply list_elem_of_singleton in Hv' as ->.
    destruct H as [H|(lang & Hl & H)]; [by vm_compute in H|].
    injection Hl as <-. by vm_compute in H.
  - exists w', st, msgs, st2. split; [done|]. split; [exact H1|].
    apply H2. by apply list_elem_of_singleton.
Defined.

(** ** Distinct times, distinct texts *)

Lemma format_d_digits width z :
  0 <= z ->
  Forall (fun d => Py.is_digit d = true) (Py.format_d width z)
  /\ dec_value (Py.format_d width z) = z.
Proof. intros H. by destruct (format_d_spec width z H) as (_ & ? & ?). Qed.

Lemma split_colon_digits (x rest : str) :
  Forall (fun d => Py.is_digit d = true) x ->
  Py.split (py ":") (x ++ py ":" ++ rest) = x :: Py.split (py ":") rest.
Proof.
  intros Hx. apply (split_first ":" [] x rest).
  by apply digits_absent.
Qed.

Lemma split_colon_tail (s ms : str) :
  Forall (fun d => Py.is_digit d = true) s ->
  Forall (fun d => Py.is_digit d = true) ms ->
  Py.split (py ":") (s ++ py "," ++ ms) = [s ++ py "," ++ ms].
Proof.
  intros Hs Hms. apply (split_absent ":" []).
  rewrite !not_elem_of_app. split; [by apply digits_absent|].
  split; [|by apply digits_absent].
  cbn. rewrite not_elem_of_cons. split; [done|]. apply not_elem_of_nil.
Qed.

Lemma fields_recompose k :
  k = field_hours k * 3600000 + field_minutes k * 60000
      + field_seconds k * 1000 + field_ms k.
Proof.
  unfold field_hours, field_minutes, field_seconds, field_ms.
  Z.to_euclidean_division_equations. lia.
Qed.

Lemma format_ms_split k hours_flag :
  0 <= k ->
  Py.split (py ":") (format_ms k hours_flag)
  = (if hours_flag || (0 <? field_hours k)
     then [Py.format_d 2 (field_hours k)] else [])
    ++ [Py.format_d 2 (field_minutes k);
        Py.format_d 2 (field_seconds k) ++ py ","
        ++ Py.format_d 3 (field_ms k)].
Proof.
  intros Hk. rewrite format_ms_fields.
  destruct (fields_nonneg k Hk) as (Hh & Hm & Hs & Hms).
  destruct (format_d_digits 2 _ Hh) as [Dh _].
  destruct (format_d_digits 2 _ Hm) as [Dm _].
  destruct (format_d_digits 2 _ Hs) as [Ds _].
  destruct (format_d_digits 3 _ Hms) as [Dms _].
  destruct (hours_flag || (0 <? field_hours k)); cbn [app].
  - rewrite <- app_assoc. rewrite split_colon_digits by done.
    rewrite split_colon_digits by done. by rewrite split_colon_tail.
  - rewrite split_colon_digits by done. by rewrite split_colon_tail.
Qed.

Lemma seconds_ms_inj (s1 ms1 s2 ms2 : str) :
  Forall (fun d => Py.is_digit d = true) s1 ->
  Forall (fun d => Py.is_digit d = true) s2 ->
  s1 ++ py "," ++ ms1 = s2 ++ py "," ++ ms2 -> s1 = s2 /\ ms1 = ms2.
Proof.
  intros H1 H2 E.
  pose proof (split_first "," [] s1 ms1
                (digits_absent "," _ eq_refl H1)) as P1.
  pose proof (split_first "," [] s2 ms2
                (digits_absent "," _ eq_refl H2)) as P2.
  assert (Py.split [","%char] (s1 ++ [","%char] ++ ms1)
          = Py.split [","%char] (s2 ++ [","%char] ++ ms2)) as Es
    by (f_equal; exact E).
  rewrite P1, P2 in Es.
  injection Es as -> _. apply app_inv_head in E. by injection E as ->.
Qed.

(** X3: the encoder loses nothing of the millisecond count: with the same
    choice for the hour field, two different counts never give the same
    text. *)
Theorem format_ms_injective (k1 k2 : Z) (always_include_hours : bool) :
  0 <= k1 -> 0 <= k2 ->
  format_ms k1 always_include_hours = format_ms k2 always_include_hours ->
  k1 = k2.
Proof.
  intros H1 H2 E.
  assert (Py.split (py ":") (format_ms k1 always_include_hours)
          = Py.split (py ":") (format_ms k2 always_include_hours)) as Es
    by (by rewrite E).
  rewrite !format_ms_split in Es by done.
  destruct (fields_nonneg k1 H1) as (Hh1 & Hm1 & Hs1 & Hms1).
  destruct (fields_nonneg k2 H2) as (Hh2 & Hm2 & Hs2 & Hms2).
  destruct (format_d_digits 2 _ Hh1) as [_ Vh1].
  destruct (format_d_digits 2 _ Hh2) as [_ Vh2].
  destruct (format_d_digits 2 _ Hm1) as [_ Vm1].
  destruct (format_d_digits 2 _ Hm2) as [_ Vm2].
  destruct (format_d_digits 2 _ Hs1) as [Ds1 Vs1].
  destruct (format_d_digits 2 _ Hs2) as [Ds2 Vs2].
  destruct (format_d_digits 3 _ Hms1) as [_ Vms1].
  destruct (format_d_digits 3 _ Hms2) as [_ Vms2].
  assert (field_minutes k1 = field_minutes k2
          /\ field_seconds k1 = field_seconds k2
          /\ field_ms k1 = field_ms k2
          /\ field_hours k1 = field_hours k2) as (Em & Es' & Ems & Eh).
  { destruct (always_include_hours || (0 <? field_hours k1)) eqn:F1;
      destruct (always_include_hours || (0 <? field_hours k2)) eqn:F2;
      cbn [app] in Es; try discriminate.
    - injection Es as Eh Em Et.
      apply seconds_ms_inj in Et as [Et1 Et2]; [|done|done].
      rewrite <- Vh1, <- Vh2, <- Vm1, <- Vm2, <- Vs1, <- Vs2, <- Vms1, <- Vms2.
      by rewrite Eh, Em, Et1, Et2.
    - injection Es as Em Et.
      apply seconds_ms_inj in Et as [Et1 Et2]; [|done|done].
      apply orb_false_iff in F1 as [_ F1%Z.ltb_ge].
      apply orb_false_iff in F2 as [_ F2%Z.ltb_ge].
      rewrite <- Vm1, <- Vm2, <- Vs1, <- Vs2, <- Vms1, <- Vms2.
      rewrite Em, Et1, Et2. repeat split; try done. lia. }
  rewrite (fields_recompose k1), (fields_recompose k2). congruence.
Qed.

Lemma format_ms_injective_witness :
  format_ms 3725400 false = py "01:02:05,400"
  /\ forall k, 0 <= k -> format_ms k false = py "01:02:05,400" -> k = 3725400.
Proof.
  split; [by vm_compute|]. intros k Hk E. symmetry.
  apply (format_ms_injective 3725400 k false); [lia|done|].
  rewrite E. by vm_compute.
Defined.

(** ** What a run prints *)

Section Says.

Variable Q : message -> Prop.

Lemma says_refl (w : world) : says Q w w.
Proof. exists []. split; [by rewrite app_nil_r|constructor]. Qed.

Lemma says_same (w w' : world) : console w' = console w -> says Q w w'.
Proof. intros E. exists []. split; [by rewrite app_nil_r|constructor]. Qed.

Lemma says_trans (w1 w2 w3 : world) :
  says Q w1 w2 -> says Q w2 w3 -> says Q w1 w3.
Proof.
  intros (m1 & E1 & H1) (m2 & E2 & H2). exists (m1 ++ m2).
  split; [by rewrite E2, E1, app_assoc|by apply Forall_app].
Qed.

Lemma says_bind {A B} (m : M A) (f : A -> M B) (w : world) :
  says Q w (m w).1 ->
  (forall w1 x, m w = (w1, Ok x) -> says Q w1 (f x w1).1) ->
  says Q w ((m ≫= f) w).1.
Proof.
  intros Hm Hf. unfold mbind, M_bind.
  destruct (m w) as [w1 [x|e]] eqn:E; cbn [fst] in *; [|done].
  eapply says_trans; [exact Hm|]. by apply Hf.
Qed.

Lemma says_for_each {A S} (body : S -> A -> M S) (xs : list A) :
  (forall st x w, x ∈ xs -> says Q w (body st x w).1) ->
  forall st w, says Q w (for_each body st xs w).1.
Proof.
  induction xs as [|x xs IH]; intros Hb st w.
  - apply says_refl.
  - cbn [for_each]. apply says_bind.
    + apply Hb. apply elem_of_cons. auto.
    + intros w1 st1 _. apply IH. intros st' y w' Hy. apply Hb.
      apply elem_of_cons. auto.
Qed.

Lemma says_print (m : message) (w : world) : Q m -> says Q w (print m w).1.
Proof. intros H. exists [m]. split; [done|]. by constructor. Qed.

Lemma says_lift {A} (r : result A) (w : world) : says Q w (lift r w).1.
Proof. apply says_refl. Qed.

Lemma says_ret {A} (x : A) (w : world) : says Q w (mret (M := M) x w).1.
Proof. apply says_refl. Qed.

Lemma says_fwrite (p s : str) (w : world) : says Q w (fwrite p s w).1.
Proof. by apply says_same. Qed.

Lemma says_open_w (p : str) (w : world) : says Q w (open_w p w).1.
Proof. by apply says_same. Qed.

Lemma says_write_srt_from (p : str) (segs : list segment) :
  forall i w, says Q w (write_srt_from i segs p w).1.
Proof.
  induction segs as [|seg segs IH]; intros i w.
  - apply says_refl.
  - cbn [write_srt_from]. apply says_bind; [apply says_lift|].
    intros w1 entry _. apply says_bind; [apply says_fwrite|].
    intros w2 [] _. apply IH.
Qed.

Lemma says_artifact_valid (srt path : str) (w : world) :
  says Q w (artifact_valid srt path w).1.
Proof.
  unfold artifact_valid, mbind, M_bind, path_exists, getmtime.
  destruct (bool_decide _); cbn [fst]; [|apply says_refl].
  destruct (files w !! srt); cbn [fst]; [|apply says_refl].
  destruct (files w !! path); apply says_refl.
Qed.

End Says.

Ltac say :=
  repeat first
    [ apply says_refl | apply says_lift | apply says_ret
    | apply says_artifact_valid | apply says_open_w | apply says_fwrite
    | apply says_write_srt_from
    | (apply says_print; intros ?; discriminate)
    | (apply says_bind; [|intros ? ? _])
    | case_match ].

Section PipelineSays.

Variable tempdir : str.
Variable makedirs : str -> result unit.
Variable translator : str -> str -> result str.
Variable load_model : str -> result unit.
Variable transcribe : str -> option str -> str -> result (list segment).
Variable extract_audio : str -> str -> result unit.
Variable mux : str -> str -> str -> result unit.
Variable a : args.

Lemma says_classify_video st path w :
  says not_missing_subtitle w (classify_video tempdir a st path w).1.
Proof. unfold classify_video. say. Qed.

Lemma says_translate_one st entry w :
  says not_missing_subtitle w (translate_one translator a st entry w).1.
Proof.
  unfold translate_one, translate_srt_file, write_srt.
  destruct entry as [[p s] d]. say.
Qed.

Lemma says_get_audio paths w :
  says not_missing_subtitle w (get_audio tempdir extract_audio paths w).1.
Proof. unfold get_audio. apply says_for_each. intros. say. Qed.

Lemma says_get_subtitles_step os od tr tt maps item w :
  says not_missing_subtitle w (get_subtitles_step tempdir translator os od tr tt maps item w).1.
Proof.
  unfold get_subtitles_step, write_srt. destruct maps, item. say.
Qed.

Lemma says_transcribe_stage st w :
  says not_missing_subtitle w
    (transcribe_stage tempdir translator load_model transcribe extract_audio
       a st w).1.
Proof.
  unfold transcribe_stage.
  apply says_bind; [say|]. intros w1 language_arg _.
  apply says_bind; [say|]. intros w2 [] _.
  apply says_bind; [apply says_get_audio|]. intros w3 audios _.
  apply says_bind.
  - unfold get_subtitles. apply says_for_each. intros.
    apply says_get_subtitles_step.
  - intros w4 [no nt] _. apply says_for_each. intros. say.
Qed.

Lemma says_assemble w :
  says not_missing_subtitle w
    (assemble tempdir translator load_model transcribe extract_audio a w).1.
Proof.
  unfold assemble. apply says_bind.
  { apply says_for_each. intros. apply says_classify_video. }
  intros w1 st1 _. apply says_bind.
  { apply says_for_each. intros. apply says_translate_one. }
  intros w2 st2 _.
  destruct (videos_to_transcribe st2); [apply says_ret|].
  apply says_transcribe_stage.
Qed.

Lemma says_embed_loop st paths :
  (forall v, v ∈ paths -> truthy_opt (srt_to_embed st v) = true) ->
  forall w, says not_missing_subtitle w (embed_loop mux a st paths w).1.
Proof.
  induction paths as [|p paths IH]; intros H w.
  - apply says_refl.
  - cbn [embed_loop]. rewrite (H p) by (by left). cbn [negb].
    assert (forall w, says not_missing_subtitle w (embed_loop mux a st paths w).1) as IH'
      by (apply IH; intros; apply H; by right).
    say; apply IH'.
Qed.

Lemma says_main w :
  says not_missing_subtitle w
    (main tempdir makedirs translator load_model transcribe extract_audio mux
       a w).1.
Proof.
  unfold main. apply says_bind; [apply says_lift|]. intros w0 [] _.
  apply says_bind; [apply says_assemble|].
  intros w1 st Ha. destruct (srt_only a); [apply says_ret|].
  apply says_embed_loop. intros v Hv.
  destruct (assemble_spec _ _ _ _ _ _ _ _ _ Ha) as [(_ & _ & C3 & _) Hcov].
  destruct (Hcov v Hv) as [x Hx]. specialize (C3 v x Hx).
  destruct (target a); destruct C3 as [-> _].
  - rewrite (srt_to_embed_mapped st v _ Hx); apply translated_srt_truthy.
  - rewrite (srt_to_embed_mapped st v _ Hx); apply original_srt_truthy.
Qed.

End PipelineSays.

(** X18: [main] never reports a video without subtitles.  The report of
    cli.py:119 and the [continue] after it cannot be reached from [main]:
    when the stages before the embedding return, every video of the batch
    has a non-empty selection, and when they or [os.makedirs] raise, the
    embedding loop does not run.  Whatever the collaborators do and however
    the run ends, no message of that kind is added to the console. *)
Theorem main_never_reports_missing_subtitle
    (tempdir : str) (makedirs : str -> result unit)
    (translator : str -> str -> result str)
    (load_model : str -> result unit)
    (transcribe : str -> option str -> str -> result (list segment))
    (extract_audio : str -> str -> result unit)
    (mux : str -> str -> str -> result unit) (a : args) (w : world) :
  exists msgs,
    console (main tempdir makedirs translator load_model transcribe
               extract_audio mux a w).1 = console w ++ msgs
    /\ forall stem, MsgNoSubtitle stem ∉ msgs.
Proof.
  destruct (says_main tempdir makedirs translator load_model transcribe
              extract_audio mux a w) as (msgs & E & H).
  exists msgs. split; [done|]. intros stem Hin.
  rewrite Forall_forall in H. by apply (H _ Hin stem).
Qed.

(** ** The arrow in a text *)

Lemma replace_aux_skip (old new : str) (s : str) :
  forall k, Py.replace_aux old new k s = Py.replace_aux old new 0 (drop k s).
Proof.
  induction s as [|c r IH]; intros [|k]; try done. cbn [drop].
  cbn [Py.replace_aux]. apply IH.
Qed.

Lemma replace_arrow_here (t : str) :
  Py.replace (py "-->") (py "->") (py "-->" ++ t)
  = py "->" ++ Py.replace (py "-->") (py "->") t.
Proof.
  unfold Py.replace. cbn. by rewrite (replace_aux_skip _ _ _ 0).
Qed.

Lemma replace_arrow_pass (c : ascii) (r : str) :
  Py.startswith (py "-->") (c :: r) = false ->
  Py.replace (py "-->") (py "->") (c :: r)
  = c :: Py.replace (py "-->") (py "->") r.
Proof. intros H. unfold Py.replace. cbn [Py.replace_aux]. by rewrite H. Qed.

Lemma startswith_one (c : ascii) (s : str) :
  Py.startswith [c] s
  = match head s with Some d => Py.ascii_eqb c d | None => false end.
Proof. destruct s; cbn; [done|]. by rewrite andb_true_r. Qed.

Lemma replace_arrow_head (s : str) :
  head (Py.replace (py "-->") (py "->") s) = head s.
Proof.
  destruct s as [|c r]; [done|].
  destruct (Py.startswith (py "-->") (c :: r)) eqn:E.
  - apply startswith_spec in E as [t E]. rewrite E.
    by rewrite replace_arrow_here.
  - by rewrite replace_arrow_pass.
Qed.

Lemma replace_arrow_starts (s : str) :
  Py.startswith (py "->") (Py.replace (py "-->") (py "->") s)
  = Py.startswith (py "-->") s || Py.startswith (py "->") s.
Proof.
  destruct s as [|c r]; [done|].
  destruct (Py.startswith (py "-->") (c :: r)) eqn:E.
  - apply startswith_spec in E as [t E]. rewrite E.
    by rewrite replace_arrow_here.
  - rewrite replace_arrow_pass by done. cbn [py list_ascii_of_string orb].
    cbn [Py.startswith]. f_equal.
    pose proof (replace_arrow_head r) as Hh.
    cbn [py list_ascii_of_string] in Hh.
    by destruct (Py.replace _ _ r), r; simplify_eq/=.
Qed.

Lemma replace_arrow_contains (n : nat) :
  forall s, (length s <= n)%nat ->
  Py.contains (py "-->") (Py.replace (py "-->") (py "->") s)
  = Py.contains (py "--->") s.
Proof.
  induction n as [|n IH]; intros s Hn.
  { destruct s; [done|cbn in Hn; lia]. }
  destruct s as [|c r]; [done|]. cbn [length] in Hn.
  destruct (Py.startswith (py "-->") (c :: r)) eqn:E.
  - apply startswith_spec in E as [t E]. rewrite E, replace_arrow_here.
    assert (length t <= n)%nat as Ht.
    { apply (f_equal length) in E. cbn in E. lia. }
    specialize (IH t Ht). cbn. cbn in IH. exact IH.
  - rewrite replace_arrow_pass by done.
    assert (length r <= n)%nat as Hr by lia. specialize (IH r Hr).
    cbn [Py.contains]. rewrite IH. f_equal.
    change (Py.startswith (py "-->") (c :: Py.replace (py "-->") (py "->") r))
      with (Py.ascii_eqb "-" c
            && Py.startswith (py "->") (Py.replace (py "-->") (py "->") r)).
    change (Py.startswith (py "--->") (c :: r))
      with (Py.ascii_eqb "-" c && Py.startswith (py "-->") r).
    change (Py.startswith (py "-->") (c :: r))
      with (Py.ascii_eqb "-" c && Py.startswith (py "->") r) in E.
    rewrite replace_arrow_starts.
    destruct (Py.ascii_eqb "-" c); [|done]. cbn [andb] in *.
    by rewrite E, orb_false_r.
Qed.

(** X19: the replacement of arrows in [write_srt] can leave an arrow.  The
    text line of an entry holds [-->] exactly when the text of the segment
    holds [--->]: [str.replace] passes over the text once, from the left,
    and the [->] it puts in may follow a hyphen.  A text without [--->] is
    written without any [-->]. *)
Theorem written_text_arrow (text : str) :
  Py.contains (py "-->") (Py.replace (py "-->") (py "->") text)
  = Py.contains (py "--->") text.
Proof. by apply (replace_arrow_contains (length text)). Qed.

(** ** The translated file of a fresh transcript *)

Lemma srt_entry_times (i : Z) (seg seg' : segment) (entry : str) :
  seg_start seg' = seg_start seg -> seg_end seg' = seg_end seg ->
  srt_entry i seg = Ok entry -> exists entry', srt_entry i seg' = Ok entry'.
Proof.
  unfold srt_entry. intros -> ->.
  destruct (format_timestamp (seg_start seg) true); [|done].
  destruct (format_timestamp (seg_end seg) true); [|done]. by eexists.
Qed.

Lemma srt_text_from_translated (translator : str -> str -> result str)
    (lang : str) (segs : list segment) :
  forall i out tsegs,
    srt_text_from i segs = Ok out ->
    map_result (translate_segment translator lang) segs = Ok tsegs ->
    exists tout, srt_text_from i tsegs = Ok tout.
Proof.
  induction segs as [|seg segs IH]; intros i out tsegs Ho Ht.
  - cbn in Ht. injection Ht as <-. by exists [].
  - cbn [srt_text_from map_result] in Ho, Ht.
    destruct (srt_entry i seg) as [entry|] eqn:Ee; [|done].
    destruct (srt_text_from (i + 1) segs) as [more|] eqn:Em; [|done].
    destruct (translate_segment translator lang seg) as [tseg|] eqn:Es;
      [|done].
    destruct (map_result _ segs) as [trest|] eqn:Er; [|done].
    cbn in Ht. injection Ht as <-.
    unfold translate_segment in Es.
    destruct (translate_text translator (seg_text seg) lang) as [s|];
      [|done].
    cbn in Es. injection Es as <-.
    destruct (srt_entry_times i seg
                (Segment (seg_start seg) (seg_end seg) s) entry)
      as [entry' He']; [done|done|done|].
    destruct (IH (i + 1) more trest Em eq_refl) as [tmore Htm].
    exists (entry' ++ tmore). cbn [srt_text_from]. by rewrite He', Htm.
Qed.

Section TranslatedComplete.

Variable tempdir : str.
Variable translator : str -> str -> result str.

(** X20: a step of [get_subtitles] never leaves a half-written translated
    file.  The translation keeps the times of the segments, and the
    original file is written first, so a time the encoder refuses stops the
    step before the translated file is opened.  Either the step raises and
    the translated file is as it was, or the step returns and the file
    holds the entries of all translated segments. *)
Theorem translated_file_all_or_nothing (output_srt : bool) (output_dir : str)
    (transcribe : str -> result (list segment)) (lang : str)
    (maps : gmap str str * gmap str str) (path audio_path : str) (w : world) :
  truthy lang = true ->
  let base := if output_srt then output_dir else tempdir in
  let run := get_subtitles_step tempdir translator output_srt output_dir
               transcribe (Some lang) maps (path, audio_path) w in
  (is_ok run.2 = false
   /\ files run.1 !! translated_srt base path lang
      = files w !! translated_srt base path lang)
  \/ (exists segs tsegs tout,
        transcribe audio_path = Ok segs
        /\ map_result (translate_segment translator lang) segs = Ok tsegs
        /\ srt_text_from 1 tsegs = Ok tout
        /\ files run.1 !! translated_srt base path lang
           = Some (File (clock w) tout)
        /\ run.2 = Ok (<[path := original_srt base path]> maps.1,
                       <[path := translated_srt base path lang]> maps.2)).
Proof.
  intros Hl base run. subst run. destruct maps as [no nt].
  destruct (get_subtitles_step _ _ _ _ _ _ _ _ _) as [w' r] eqn:H.
  cbn [fst snd]. unfold get_subtitles_step in H. rewrite Hl in H.
  cbv zeta in H. fold base in H.
  change (posixpath.join base (filename path ++ py ".srt"))
    with (original_srt base path) in H.
  change (posixpath.join base (filename path ++ py "_" ++ lang ++ py ".srt"))
    with (translated_srt base path lang) in H.
  change (fun seg : segment =>
            text ← translate_text translator (seg_text seg) lang;
            Ok (Segment (seg_start seg) (seg_end seg) text))
    with (translate_segment translator lang) in H.
  generalize dependent base. intros base H.
  assert (original_srt base path <> translated_srt base path lang) as Hne
    by apply original_ne_translated.
  unfold mbind at 1 2 3 4 5 6 7 8 9, M_bind, lift, print, open_w, write_srt
    in H.
  cbn [files clock console] in H.
  destruct (transcribe audio_path) as [segs|] eqn:Et;
    [|injection H as <- <-; by left].
  rewrite (write_srt_from_run _ _ 1 _ []) in H
    by (cbn; by rewrite lookup_insert_eq).
  cbn [files clock console app] in H. rewrite insert_insert_eq in H.
  destruct (written_prefix_cases segs 1)
    as [(out & Ho & E)|(good & bad & rest & out & e & _ & _ & _ & E)];
    rewrite E in H; cbn [fst snd files clock console] in H.
  2:{ injection H as <- <-. left. split; [done|]. cbn [files].
      by rewrite lookup_insert_ne. }
  destruct (map_result (translate_segment translator lang) segs)
    as [tsegs|] eqn:Em; cbn [fst snd files clock console] in H.
  2:{ injection H as <- <-. left. split; [done|]. cbn [files].
      by rewrite lookup_insert_ne. }
  destruct (srt_text_from_translated translator lang segs 1 out tsegs Ho Em)
    as [tout Hto].
  rewrite (write_srt_from_run _ _ 1 _ []) in H
    by (cbn; by rewrite lookup_insert_eq).
  rewrite (written_prefix_ok _ _ _ Hto) in H.
  cbn [fst snd files clock console app] in H. rewrite insert_insert_eq in H.
  injection H as <- <-.
  right. exists segs, tsegs, tout. repeat split; try done.
  cbn [files]. by rewrite lookup_insert_eq.
Qed.

End TranslatedComplete.

Lemma translated_file_all_or_nothing_witness :
  let run :=
    get_subtitles_step (py "/tmp") translator_ok true (py "out")
      (fun _ => Ok (segs_plain
                    ++ [Segment (S754_finite true 1 0) (seconds_of_ms 2000)
                          (py "late")]))
      (Some (py "es")) (∅, ∅) (py "a.mp4", py "/tmp/a.wav") world_scenario in
  is_ok run.2 = false /\ files run.1 !! py "out/a_es.srt" = None.
Proof.
  intros run.
  destruct (translated_file_all_or_nothing (py "/tmp") translator_ok true
              (py "out")
              (fun _ => Ok (segs_plain
                            ++ [Segment (S754_finite true 1 0)
                                  (seconds_of_ms 2000) (py "late")]))
              (py "es") (∅, ∅) (py "a.mp4") (py "/tmp/a.wav") world_scenario
              eq_refl)
    as [[H1 H2]|(segs & tsegs & tout & _ & _ & _ & _ & H)].
  - split; [exact H1|]. etrans; [exact H2|]. reflexivity.
  - exfalso. fold run in H.
    assert (is_ok run.2 = false) as E by (vm_compute; reflexivity).
    rewrite H in E. discriminate E.
Defined.
